(** * Ask-About-Video: the live audio session of [services/geminiService.ts]

    A shallow embedding of the audio path of [geminiService.ts]: the PCM
    codec ([base64EncodeAudio], [decode], [decodeAudioData]) and the
    [LiveSession] class ([onOpen]'s capture handler, [onMessage],
    [disconnect]), followed by the properties the specification states
    about them. The request functions of the same file ([analyzeVideo],
    [sendChatMessageStream], [synthesizeSpeech]), [fileToBase64] and
    [urlToFile] of [services/utils], and the handlers of the components
    [App] and [VideoInput] come after them, with further properties of
    the whole.

    Modelling conventions.
    - A JavaScript [number] is an extended rational ([number] below):
      arithmetic on finite values is exact.  Every operation of the codec
      is exact on IEEE doubles as well (a [Float32Array] element times
      [0x7FFF] or [0x8000] needs at most 39 significant bits, and a 16-bit
      integer divided by 32768 is a float32; see [scaled_sample_exact]
      and [decoded_sample_exact]), so nothing is lost there; on the
      playback timeline the rounding of [+=] is not modelled.
    - A [Uint8Array] is a [list byte], an [Int16Array] a [list Z] whose
      elements went through [ToInt16]; a view of one buffer through the
      other type uses the byte order of the platform, little-endian on
      every platform a browser runs on, and the model fixes it.
    - A JavaScript string is a [string]: its characters are code units
      below 256, which is all [btoa] accepts and all [atob] produces. The
      texts that the components show are kept as the bytes of the source.
    - A thrown exception is the left summand of [result]; the methods of
      [LiveSession] live in a state-and-exception monad over the session
      and the platform objects it owns. A settled promise of the
      request functions is a sum as well ([settled]); a handler of a
      component is a function on the state of the component. *)

From Stdlib Require Import ZArith QArith Qround Qminmax Qabs Lia Lqa ZifyNat String Ascii.
From Stdlib Require Import Strings.Byte DecimalString DecimalZ.
From stdpp Require Import base list.

Set Warnings "-abstract-large-number".

Local Open Scope Z_scope.

(* ===================================================================== *)
(** * JavaScript numbers *)
(* ===================================================================== *)

Inductive number : Type :=
  | Fin (q : Q)
  | PosInf
  | NegInf
  | NaN.

Definition num_of_Z (z : Z) : number := Fin (inject_Z z).
Definition num_of_nat (n : nat) : number := num_of_Z (Z.of_nat n).

(** The relational operator [a < b]: false as soon as one side is [NaN]. *)
Definition num_lt (a b : number) : bool :=
  match a, b with
  | NaN, _ | _, NaN => false
  | Fin x, Fin y => match Qcompare x y with Lt => true | _ => false end
  | NegInf, NegInf => false
  | NegInf, _ => true
  | _, NegInf => false
  | PosInf, _ => false
  | Fin _, PosInf => true
  end.

(** [Math.max] and [Math.min]: [NaN] is contagious. *)
Definition Math_max (a b : number) : number :=
  match a, b with
  | NaN, _ | _, NaN => NaN
  | _, _ => if num_lt a b then b else a
  end.

Definition Math_min (a b : number) : number :=
  match a, b with
  | NaN, _ | _, NaN => NaN
  | _, _ => if num_lt b a then b else a
  end.

Definition inf_of_sign (c : comparison) : number :=
  match c with Lt => NegInf | Gt => PosInf | Eq => NaN end.

(** [a * b]. An infinity times zero is [NaN]. *)
Definition num_mul (a b : number) : number :=
  match a, b with
  | NaN, _ | _, NaN => NaN
  | Fin x, Fin y => Fin (x * y)
  | Fin x, PosInf | PosInf, Fin x => inf_of_sign (Qcompare x 0)
  | Fin x, NegInf | NegInf, Fin x => inf_of_sign (Qcompare 0 x)
  | PosInf, PosInf | NegInf, NegInf => PosInf
  | PosInf, NegInf | NegInf, PosInf => NegInf
  end.

(** [a / b]. The sign of a zero is not modelled: a finite non-zero value
    over zero is the infinity of the sign of the numerator. *)
Definition num_div (a b : number) : number :=
  match a, b with
  | NaN, _ | _, NaN => NaN
  | Fin x, Fin y =>
      if Qeq_bool y 0 then inf_of_sign (Qcompare x 0) else Fin (x / y)
  | Fin _, (PosInf | NegInf) => Fin 0
  | PosInf, Fin y => if Qle_bool 0 y then PosInf else NegInf
  | NegInf, Fin y => if Qle_bool 0 y then NegInf else PosInf
  | (PosInf | NegInf), (PosInf | NegInf) => NaN
  end.

(** [a + b]. Opposite infinities add up to [NaN]. The sum of two finite
    values is exact here; IEEE addition rounds it, monotonically, so an
    order between sums that holds here holds between the rounded sums. *)
Definition num_add (a b : number) : number :=
  match a, b with
  | NaN, _ | _, NaN => NaN
  | Fin x, Fin y => Fin (x + y)
  | PosInf, NegInf | NegInf, PosInf => NaN
  | PosInf, _ | _, PosInf => PosInf
  | NegInf, _ | _, NegInf => NegInf
  end.

(** Truncation toward zero, the first step of every integer conversion. *)
Definition Qtruncate (q : Q) : Z := Z.quot (Qnum q) (Z.pos (Qden q)).

(** [ToInt16], applied when a number is stored into an [Int16Array]:
    [NaN] and the infinities become 0, the rest is truncated and wrapped
    modulo 2^16 into [-32768, 32767]. *)
Definition wrap_int16 (z : Z) : Z := (z + 32768) mod 65536 - 32768.

Definition ToInt16 (a : number) : Z :=
  match a with
  | Fin q => wrap_int16 (Qtruncate q)
  | _ => 0
  end.

(** The conversion of a number to a WebIDL [unsigned long]. *)
Definition ToUint32 (a : number) : Z :=
  match a with
  | Fin q => Qtruncate q mod 4294967296
  | _ => 0
  end.

(** The number of iterations of [for (let i = 0; i < bound; i++)] when it
    terminates, that is, when [bound] is not [+Infinity]. *)
Definition loop_count (bound : number) : nat :=
  match bound with
  | Fin q => Z.to_nat (Qceiling q)
  | _ => 0%nat
  end.

(** The finite values of an IEEE 754 binary format: a significand below
    [2 ^ prec] in absolute value, times a power of two within the
    exponent range of the format. An operation of IEEE arithmetic whose
    exact result is such a value returns it. *)
Definition representable (prec emin emax : Z) (q : Q) : Prop :=
  exists m e : Z, Z.abs m < 2 ^ prec /\ emin <= e <= emax
                  /\ (q == inject_Z m * 2 ^ e)%Q.

(** The elements of a [Float32Array], and the numbers of JavaScript. *)
Definition is_float32 : Q -> Prop := representable 24 (-149) 104.
Definition is_double : Q -> Prop := representable 53 (-1074) 971.

(* ===================================================================== *)
(** * Exceptions *)
(* ===================================================================== *)

Inductive exn : Type :=
  | InvalidCharacterError
  | RangeError
  | NotSupportedError
  | InvalidStateError
  | TypeError
  | NotAllowedError.

Definition result (A : Type) : Type := (exn + A)%type.

Definition Ok {A} (a : A) : result A := inr a.
Definition Throw {A} (e : exn) : result A := inl e.

Definition result_bind {A B} (r : result A) (k : A -> result B) : result B :=
  match r with
  | inl e => inl e
  | inr a => k a
  end.

(* ===================================================================== *)
(** * Typed arrays over one buffer *)
(* ===================================================================== *)

Definition byte_of_Z (z : Z) : byte :=
  match Byte.of_N (Z.to_N (z mod 256)) with
  | Some b => b
  | None => x00
  end.

Definition Z_of_byte (b : byte) : Z := Z.of_N (Byte.to_N b).

(** The two bytes of one [Int16Array] element, low byte first. *)
Definition int16_bytes (v : Z) : list byte :=
  [byte_of_Z v; byte_of_Z (v / 256)].

(** [new Uint8Array(int16Array.buffer)] *)
Definition Uint8Array_of_Int16Array (a : list Z) : list byte :=
  flat_map int16_bytes a.

Definition int16_of_bytes (lo hi : byte) : Z :=
  wrap_int16 (Z_of_byte lo + 256 * Z_of_byte hi).

Fixpoint int16_elements (data : list byte) : list Z :=
  match data with
  | lo :: hi :: rest => int16_of_bytes lo hi :: int16_elements rest
  | _ => []
  end.

(** [new Int16Array(data.buffer)]: a [RangeError] unless the byte length
    of the buffer is a multiple of the element size. *)
Definition Int16Array_of_buffer (data : list byte) : result (list Z) :=
  if Nat.even (length data) then Ok (int16_elements data) else Throw RangeError.

(* ===================================================================== *)
(** * The platform's [btoa] and [atob] *)
(* ===================================================================== *)

(** Both are functions of the browser, not of the repository; they are
    modelled from their definition in the HTML standard: [btoa] is the
    base64 encoding of RFC 4648 with padding, [atob] is the
    "forgiving-base64 decode" of the Infra standard. *)
Module Base64.

Local Open Scope N_scope.

(** The alphabet [A-Z a-z 0-9 + /], by position. *)
Definition encode_sextet (n : N) : ascii :=
  if n <? 26 then ascii_of_N (65 + n)
  else if n <? 52 then ascii_of_N (97 + (n - 26))
  else if n <? 62 then ascii_of_N (48 + (n - 52))
  else if n =? 62 then "+"%char
  else "/"%char.

Definition decode_char (c : ascii) : option N :=
  let n := N_of_ascii c in
  if (65 <=? n) && (n <=? 90) then Some (n - 65)
  else if (97 <=? n) && (n <=? 122) then Some (n - 71)
  else if (48 <=? n) && (n <=? 57) then Some (n + 4)
  else if n =? 43 then Some 62
  else if n =? 47 then Some 63
  else None.

Definition pad : ascii := "="%char.

(** Three bytes give four characters; a last group of one or two bytes
    is completed with zero bits and padded with [=]. *)
Fixpoint encode_groups (bs : list N) : list ascii :=
  match bs with
  | [] => []
  | [a] =>
      [encode_sextet (a / 4); encode_sextet (a mod 4 * 16); pad; pad]
  | [a; b] =>
      [encode_sextet (a / 4); encode_sextet (a mod 4 * 16 + b / 16);
       encode_sextet (b mod 16 * 4); pad]
  | a :: b :: c :: rest =>
      encode_sextet (a / 4) :: encode_sextet (a mod 4 * 16 + b / 16)
      :: encode_sextet (b mod 16 * 4 + c / 64) :: encode_sextet (c mod 64)
      :: encode_groups rest
  end.

(** [btoa(binary)]. It throws on a code unit above 255, which a
    [string] cannot hold, so it is total here. *)
Definition btoa (binary : string) : string :=
  string_of_list_ascii
    (encode_groups (map N_of_ascii (list_ascii_of_string binary))).

(** TAB, LF, FF, CR and SPACE. *)
Definition is_ascii_whitespace (c : ascii) : bool :=
  let n := N_of_ascii c in
  (n =? 9) || (n =? 10) || (n =? 12) || (n =? 13) || (n =? 32).

Definition is_pad (c : ascii) : bool := Ascii.eqb c pad.

(** "If the length of data divides by 4 leaving no remainder and data
    ends with one or two [=], remove them." *)
Definition strip_padding (data : list ascii) : list ascii :=
  if (length data mod 4 =? 0)%nat then
    match rev data with
    | c1 :: c2 :: r =>
        if is_pad c1 then (if is_pad c2 then rev r else rev (c2 :: r))
        else data
    | [c1] => if is_pad c1 then [] else data
    | [] => data
    end
  else data.

Fixpoint decode_chars (data : list ascii) : option (list N) :=
  match data with
  | [] => Some []
  | c :: rest =>
      match decode_char c, decode_chars rest with
      | Some n, Some ns => Some (n :: ns)
      | _, _ => None
      end
  end.

(** Every four sextets give three bytes; of a last group of three
    sextets the last two bits are discarded, of a last group of two the
    last four. *)
Fixpoint decode_groups (ss : list N) : list N :=
  match ss with
  | a :: b :: c :: d :: rest =>
      (a * 4 + b / 16) :: (b mod 16 * 16 + c / 4) :: (c mod 4 * 64 + d)
      :: decode_groups rest
  | [a; b; c] => [a * 4 + b / 16; b mod 16 * 16 + c / 4]
  | [a; b] => [a * 4 + b / 16]
  | _ => []
  end.

(** [atob(base64)]: [InvalidCharacterError] when, with whitespace and
    padding removed, the length is 1 modulo 4 or a character is outside
    the alphabet. *)
Definition atob (base64 : string) : result string :=
  let data :=
    filter (fun c => is_ascii_whitespace c = false)
           (list_ascii_of_string base64) in
  let data := strip_padding data in
  if (length data mod 4 =? 1)%nat then Throw InvalidCharacterError
  else
    match decode_chars data with
    | None => Throw InvalidCharacterError
    | Some ss =>
        Ok (string_of_list_ascii (map ascii_of_N (decode_groups ss)))
    end.

Definition is_byte (n : N) : Prop := n < 256.
Definition is_sextet (n : N) : Prop := n < 64.

(** One line of the check of the alphabet table. *)
Definition sextet_table_ok (n : N) : bool :=
  match decode_char (encode_sextet n) with
  | Some m => (m =? n) && negb (is_ascii_whitespace (encode_sextet n))
              && negb (is_pad (encode_sextet n))
  | None => false
  end.

(** The sextets and the padding that [encode_groups] writes. *)
Fixpoint sextets (bs : list N) : list N :=
  match bs with
  | [] => []
  | [a] => [a / 4; a mod 4 * 16]
  | [a; b] => [a / 4; a mod 4 * 16 + b / 16; b mod 16 * 4]
  | a :: b :: c :: rest =>
      a / 4 :: (a mod 4 * 16 + b / 16) :: (b mod 16 * 4 + c / 64)
      :: c mod 64 :: sextets rest
  end.

Fixpoint padding (bs : list N) : list ascii :=
  match bs with
  | [] => []
  | [_] => [pad; pad]
  | [_; _] => [pad]
  | _ :: _ :: _ :: rest => padding rest
  end.

End Base64.

(* ===================================================================== *)
(** * The PCM codec of [geminiService.ts] *)
(* ===================================================================== *)

(** [decode(base64)]: [atob], then one byte per character code. *)
Definition decode (base64 : string) : result (list byte) :=
  result_bind (Base64.atob base64) (fun binaryString =>
  Ok (list_byte_of_string binaryString)).

(** The first loop of [base64EncodeAudio] for one element: clamp, scale,
    and the conversion of the store into the [Int16Array]. *)
Definition encode_sample (x : number) : Z :=
  let s := Math_max (num_of_Z (-1)) (Math_min (num_of_Z 1) x) in
  ToInt16 (if num_lt s (num_of_Z 0)
           then num_mul s (num_of_Z 32768)
           else num_mul s (num_of_Z 32767)).

(** The PCM stage of [base64EncodeAudio]: the [Int16Array] filled by the
    first loop, seen as the [Uint8Array] over its buffer. The
    specification calls it [floatToPCM16]. *)
Definition floatToPCM16 (float32Array : list number) : list byte :=
  Uint8Array_of_Int16Array (map encode_sample float32Array).

(** The transport stage of [base64EncodeAudio]: the second loop,
    [binary += String.fromCharCode(bytes[i])], is [string_of_list_byte];
    then [btoa]. The specification calls it [bytesToTransportText]. *)
Definition bytesToTransportText (bytes : list byte) : string :=
  let binary := string_of_list_byte bytes in
  Base64.btoa binary.

Definition base64EncodeAudio (float32Array : list number) : string :=
  bytesToTransportText (floatToPCM16 float32Array).

(** ** [AudioBuffer] and [decodeAudioData] *)

Record AudioBuffer : Type := mkAudioBuffer {
  ab_sampleRate : number;
  ab_length : nat;
  ab_channels : list (list number)
}.

Definition numberOfChannels (b : AudioBuffer) : nat := length (ab_channels b).

(** [audioBuffer.duration], the length in frames over the sample rate. *)
Definition duration (b : AudioBuffer) : number :=
  num_div (num_of_nat (ab_length b)) (ab_sampleRate b).

(** [ctx.createBuffer(numberOfChannels, length, sampleRate)] of the Web
    Audio API: [length] is converted to an [unsigned long]; a
    [NotSupportedError] when the channel count or the length is zero;
    otherwise a buffer of silence. The upper limits of an implementation
    on the three arguments are not modelled. *)
Definition createBuffer (numChannels : nat) (length sampleRate : number)
  : result AudioBuffer :=
  let len := Z.to_nat (ToUint32 length) in
  if (numChannels =? 0)%nat || (len =? 0)%nat then Throw NotSupportedError
  else Ok {| ab_sampleRate := sampleRate;
             ab_length := len;
             ab_channels := replicate numChannels (replicate len (num_of_Z 0)) |}.

(** [a[i]] on a typed array is [undefined] out of range, and
    [undefined / 32768.0] is [NaN]. *)
Definition sample_of_element (e : option Z) : number :=
  match e with
  | Some v => num_div (num_of_Z v) (num_of_Z 32768)
  | None => NaN
  end.

(** The inner loop: [channelData[i] = dataInt16[i * numChannels + channel]
    / 32768.0] for [i < frameCount]. A store out of range is ignored. *)
Definition fill_channel (dataInt16 : list Z) (numChannels : nat)
    (frameCount : number) (channel : nat) (channelData : list number)
  : list number :=
  fold_left
    (fun cd i =>
       <[i := sample_of_element (dataInt16 !! (i * numChannels + channel)%nat)]> cd)
    (seq 0 (loop_count frameCount)) channelData.

(** The outer loop, over [channel < numChannels]:
    [buffer.getChannelData(channel)] is the channel's own array, which the
    inner loop fills in place. *)
Definition fill_channels (dataInt16 : list Z) (numChannels : nat)
    (frameCount : number) (channels : list (list number))
  : list (list number) :=
  fold_left
    (fun chans channel =>
       alter (fill_channel dataInt16 numChannels frameCount channel)
             channel chans)
    (seq 0 numChannels) channels.

(** [decodeAudioData(data, ctx, sampleRate, numChannels)]; of [ctx] only
    [createBuffer] is used, which does not depend on its state. *)
Definition decodeAudioData (data : list byte) (sampleRate : number)
    (numChannels : nat) : result AudioBuffer :=
  result_bind (Int16Array_of_buffer data) (fun dataInt16 =>
  let frameCount :=
    num_div (num_of_nat (length dataInt16)) (num_of_nat numChannels) in
  result_bind (createBuffer numChannels frameCount sampleRate) (fun buffer =>
  Ok {| ab_sampleRate := ab_sampleRate buffer;
        ab_length := ab_length buffer;
        ab_channels :=
          fill_channels dataInt16 numChannels frameCount (ab_channels buffer) |})).

(** Whether a computation threw. *)
Definition failed {A} (r : result A) : bool :=
  match r with
  | inl _ => true
  | inr _ => false
  end.

(** The length in frames of the buffer that [decodeAudioData] asks for:
    the number of 16-bit elements over the channel count, truncated and
    converted to an [unsigned long]. *)
Definition frameLength (data : list byte) (numChannels : nat) : nat :=
  Z.to_nat ((Z.of_nat (length data / 2) / Z.of_nat numChannels) mod 4294967296).

(** The sample that the loops store at index [i] of channel [c]. *)
Definition decoded_sample (dataInt16 : list Z) (numChannels c i : nat) : number :=
  sample_of_element (dataInt16 !! (i * numChannels + c)%nat).

(** The sample rates of the two audio contexts of a [LiveSession]. *)
Definition inputSampleRate : number := num_of_Z 16000.
Definition outputSampleRate : number := num_of_Z 24000.

(** ** The codec in the words of the specification *)

(** "Clamps each sample to [-1,1]". *)
Definition clamp_unit (q : Q) : Q := Qmax (-1) (Qmin 1 q).

(** "Scales negative values by 32768 and non-negative values by 32767,
    truncates to 16-bit signed integer". *)
Definition pcm16_of_sample (q : Q) : Z :=
  let c := clamp_unit q in
  Qtruncate (if Qlt_le_dec c 0 then c * 32768 else c * 32767)%Q.

(** "Serializes little-endian": the low eight bits, then the next eight. *)
Definition little_endian16 (v : Z) : list byte :=
  [byte_of_Z (Z.land v 255); byte_of_Z (Z.land (Z.shiftr v 8) 255)].

Definition floatToPCM16_spec (samples : list Q) : list byte :=
  flat_map (fun q => little_endian16 (pcm16_of_sample q)) samples.

Definition in_unit_range (q : Q) : Prop := (-1 <= q <= 1)%Q.

(** The round trip of the codec on one channel: the samples [s] are
    encoded, decoded into a buffer of one channel of the same length, and
    the decoded sample [q'] at each index is related by [close] to the
    sample [q] at that index. *)
Definition roundtrip (close : Q -> Q -> Prop) (s : list Q) : Prop :=
  exists buffer channel,
    decodeAudioData (floatToPCM16 (map Fin s)) outputSampleRate 1 = Ok buffer
    /\ ab_channels buffer = [channel]
    /\ length channel = length s
    /\ forall i q, s !! i = Some q ->
         exists q', channel !! i = Some (Fin q') /\ close q q'.

(** "Within 1/32768 per sample". *)
Definition within_one_step (q q' : Q) : Prop := (Qabs (q' - q) <= 1 # 32768)%Q.

(** Less than two steps, and less than one step for a sample that is
    not positive. *)
Definition within_two_steps (q q' : Q) : Prop :=
  (Qabs (q' - q) < 2 # 32768)%Q /\ ((q <= 0)%Q -> (Qabs (q' - q) < 1 # 32768)%Q).


(* ===================================================================== *)
(** * Server messages *)
(* ===================================================================== *)

(** The part of [LiveServerMessage] that [onMessage] reads. An absent
    (or [undefined]) property is [None]. *)
Record Blob : Type := mkBlob {
  data : option string;
  mimeType : option string
}.

Record Part : Type := mkPart {
  inlineData : option Blob;
  text : option string
}.

Record Content : Type := mkContent {
  parts : option (list Part)
}.

Record LiveServerContent : Type := mkLiveServerContent {
  modelTurn : option Content;
  turnComplete : bool
}.

Record LiveServerMessage : Type := mkLiveServerMessage {
  serverContent : option LiveServerContent
}.

(** [message.serverContent?.modelTurn?.parts?.[0]?.inlineData?.data] *)
Definition inline_audio (message : LiveServerMessage) : option string :=
  sc ← serverContent message;
  mt ← modelTurn sc;
  ps ← parts mt;
  p ← head ps;
  blob ← inlineData p;
  data blob.

(** [if (base64Audio)]: [undefined] and the empty string are falsy. *)
Definition truthy (base64Audio : option string) : option string :=
  match base64Audio with
  | Some EmptyString => None
  | other => other
  end.

(* ===================================================================== *)
(** * The [LiveSession] class *)
(* ===================================================================== *)

Inductive Language : Type := en | am.

(** [AudioContext.state], as far as the class can tell. *)
Inductive ContextState : Type := Running | Closed.

Inductive MediaStreamAudioSourceNode : Type := MicrophoneSource.

Record ScriptProcessorNode : Type := mkScriptProcessor {
  bufferSize : nat;
  numberOfInputChannels : nat;
  numberOfOutputChannels : nat
}.

(** The argument of [sendRealtimeInput]. *)
Record RealtimeInput : Type := mkRealtimeInput {
  media_mimeType : string;
  media_data : string
}.

(** The promise returned by [ai.live.connect]. While it is pending, the
    reactions registered with [then] wait in registration order; each one
    here holds the message its callback sends. *)
Inductive SessionPromise : Type :=
  | Pending (reactions : list RealtimeInput)
  | Fulfilled
  | Rejected.

(** What [disconnect] can release. *)
Inductive Resource : Type :=
  | ProcessorNode
  | InputSourceNode
  | InputAudioContext
  | OutputAudioContext
  | CaptureStream
  | Connection.

(** The fields of the class, then what the platform objects it holds
    have been asked to do: the messages handed to [sendRealtimeInput],
    the buffers started on the output context with their start times, the
    lines of [console.error], and the releases, each in call order. *)
Record LiveSession : Type := mkLiveSession {
  session : SessionPromise;
  inputContext : ContextState;
  outputContext : ContextState;
  inputSource : option MediaStreamAudioSourceNode;
  processor : option ScriptProcessorNode;
  nextStartTime : number;
  voiceName : string;
  contextText : string;
  language : Language;
  sent : list RealtimeInput;
  started : list (number * AudioBuffer);
  console : list string;
  released : list Resource
}.

Definition set_session (v : SessionPromise) (s : LiveSession) : LiveSession :=
  mkLiveSession v (inputContext s) (outputContext s) (inputSource s)
    (processor s) (nextStartTime s) (voiceName s) (contextText s) (language s)
    (sent s) (started s) (console s) (released s).

Definition set_inputContext (v : ContextState) (s : LiveSession) : LiveSession :=
  mkLiveSession (session s) v (outputContext s) (inputSource s)
    (processor s) (nextStartTime s) (voiceName s) (contextText s) (language s)
    (sent s) (started s) (console s) (released s).

Definition set_outputContext (v : ContextState) (s : LiveSession) : LiveSession :=
  mkLiveSession (session s) (inputContext s) v (inputSource s)
    (processor s) (nextStartTime s) (voiceName s) (contextText s) (language s)
    (sent s) (started s) (console s) (released s).

Definition set_inputSource (v : option MediaStreamAudioSourceNode)
    (s : LiveSession) : LiveSession :=
  mkLiveSession (session s) (inputContext s) (outputContext s) v
    (processor s) (nextStartTime s) (voiceName s) (contextText s) (language s)
    (sent s) (started s) (console s) (released s).

Definition set_processor (v : option ScriptProcessorNode)
    (s : LiveSession) : LiveSession :=
  mkLiveSession (session s) (inputContext s) (outputContext s) (inputSource s)
    v (nextStartTime s) (voiceName s) (contextText s) (language s)
    (sent s) (started s) (console s) (released s).

Definition set_nextStartTime (v : number) (s : LiveSession) : LiveSession :=
  mkLiveSession (session s) (inputContext s) (outputContext s) (inputSource s)
    (processor s) v (voiceName s) (contextText s) (language s)
    (sent s) (started s) (console s) (released s).

Definition set_sent (v : list RealtimeInput) (s : LiveSession) : LiveSession :=
  mkLiveSession (session s) (inputContext s) (outputContext s) (inputSource s)
    (processor s) (nextStartTime s) (voiceName s) (contextText s) (language s)
    v (started s) (console s) (released s).

Definition set_started (v : list (number * AudioBuffer))
    (s : LiveSession) : LiveSession :=
  mkLiveSession (session s) (inputContext s) (outputContext s) (inputSource s)
    (processor s) (nextStartTime s) (voiceName s) (contextText s) (language s)
    (sent s) v (console s) (released s).

Definition set_console (v : list string) (s : LiveSession) : LiveSession :=
  mkLiveSession (session s) (inputContext s) (outputContext s) (inputSource s)
    (processor s) (nextStartTime s) (voiceName s) (contextText s) (language s)
    (sent s) (started s) v (released s).

Definition set_released (v : list Resource) (s : LiveSession) : LiveSession :=
  mkLiveSession (session s) (inputContext s) (outputContext s) (inputSource s)
    (processor s) (nextStartTime s) (voiceName s) (contextText s) (language s)
    (sent s) (started s) (console s) v.

(** ** The monad of the methods *)

Definition M (A : Type) : Type := LiveSession -> result A * LiveSession.

Definition ret {A} (a : A) : M A := fun s => (Ok a, s).

Definition bind {A B} (k : A -> M B) (m : M A) : M B :=
  fun s =>
    match m s with
    | (inl e, s') => (inl e, s')
    | (inr a, s') => k a s'
    end.

Global Instance M_ret : MRet M := @ret.
Global Instance M_bind : MBind M := @bind.

Definition throw {A} (e : exn) : M A := fun s => (Throw e, s).

(** [try { body } catch (e) { handler }]: what [body] did to the state
    before it threw stays done. *)
Definition try_catch {A} (body : M A) (handler : exn -> M A) : M A :=
  fun s =>
    match body s with
    | (inl e, s') => handler e s'
    | (inr a, s') => (inr a, s')
    end.

Definition lift {A} (r : result A) : M A := fun s => (r, s).
Definition gets {A} (f : LiveSession -> A) : M A := fun s => (Ok (f s), s).
Definition modify (f : LiveSession -> LiveSession) : M unit :=
  fun s => (Ok tt, f s).

Definition exec {A} (m : M A) (s : LiveSession) : LiveSession := snd (m s).
Definition outcome {A} (m : M A) (s : LiveSession) : result A := fst (m s).

(** ** Platform calls *)

Inductive MediaStream : Type := MicrophoneStream.

Definition console_error (line : string) : M unit :=
  modify (fun s => set_console (console s ++ [line]) s).

Definition release (r : Resource) : M unit :=
  modify (fun s => set_released (released s ++ [r]) s).

(** [audioContext.close()] of the Web Audio API: the promise is rejected
    with [InvalidStateError] when the context is already closed. *)
Definition AudioContext_close (state : LiveSession -> ContextState)
    (set_state : ContextState -> LiveSession -> LiveSession) (r : Resource)
  : M unit :=
  st ← gets state;
  match st with
  | Closed => throw InvalidStateError
  | Running => modify (set_state Closed);; release r
  end.

(** [source.start(when)]: [when] is a WebIDL [double], so a non-finite
    value is a [TypeError], and a negative one a [RangeError]. *)
Definition source_start (buffer : AudioBuffer) (when : number) : M unit :=
  match when with
  | Fin q =>
      if Qle_bool 0 q
      then modify (fun s => set_started (started s ++ [(when, buffer)]) s)
      else throw RangeError
  | _ => throw TypeError
  end.

(** [this.session.then(s => s.sendRealtimeInput(m))]: the reaction runs
    once the promise is fulfilled, after those registered before it. *)
Definition session_then_send (m : RealtimeInput) : M unit :=
  p ← gets session;
  match p with
  | Pending reactions => modify (set_session (Pending (reactions ++ [m])))
  | Fulfilled => modify (fun s => set_sent (sent s ++ [m]) s)
  | Rejected => mret tt
  end.

(** The connection promise settles: the waiting reactions run in order. *)
Definition session_fulfil : M unit :=
  p ← gets session;
  match p with
  | Pending reactions =>
      modify (fun s => set_sent (sent s ++ reactions) s);;
      modify (set_session Fulfilled)
  | _ => mret tt
  end.

Definition session_reject : M unit :=
  p ← gets session;
  match p with
  | Pending _ => modify (set_session Rejected)
  | _ => mret tt
  end.

(** ** The methods *)

(** [new LiveSession(voiceName, contextText, language)] *)
Definition constructor (voiceName contextText : string) (language : Language)
  : LiveSession :=
  {| session := Pending [];
     inputContext := Running;
     outputContext := Running;
     inputSource := None;
     processor := None;
     nextStartTime := num_of_Z 0;
     voiceName := voiceName;
     contextText := contextText;
     language := language;
     sent := [];
     started := [];
     console := [];
     released := [] |}.

(** The handler that [onOpen] installs as [processor.onaudioprocess];
    [inputData] is channel 0 of the event's input buffer. *)
Definition onaudioprocess (inputData : list number) : M unit :=
  let base64Data := base64EncodeAudio inputData in
  session_then_send
    {| media_mimeType := "audio/pcm;rate=16000"; media_data := base64Data |}.


(** [onOpen]; the argument is how [getUserMedia] settles. Of the audio
    graph that it builds the model keeps the two nodes that [disconnect]
    looks at. *)
Definition onOpen (getUserMedia : result MediaStream) : M unit :=
  try_catch
    (stream ← lift getUserMedia;
     modify (set_inputSource (Some MicrophoneSource));;
     modify (set_processor (Some (mkScriptProcessor 4096 1 1))))
    (fun err => console_error "Error accessing microphone:").

(** [decodeAudioData(decode(base64Audio), this.outputContext, 24000, 1)] *)
Definition decode_payload (base64Audio : string) : result AudioBuffer :=
  result_bind (decode base64Audio) (fun bytes =>
  decodeAudioData bytes outputSampleRate 1).

(** [onMessage]; [currentTime] is [this.outputContext.currentTime] as the
    handler reads it. *)
Definition onMessage (currentTime : Q) (message : LiveServerMessage) : M unit :=
  match truthy (inline_audio message) with
  | Some base64Audio =>
      try_catch
        (audioBuffer ← lift (decode_payload base64Audio);
         next ← gets nextStartTime;
         modify (set_nextStartTime (Math_max (Fin currentTime) next));;
         when ← gets nextStartTime;
         source_start audioBuffer when;;
         next ← gets nextStartTime;
         modify (set_nextStartTime (num_add next (duration audioBuffer))))
        (fun e => console_error "Error decoding audio chunk")
  | None => mret tt
  end.

(** [disconnect]. The two nodes are disconnected if they are there; the
    two contexts are closed whatever their state. Nothing stops the
    tracks of the capture stream or closes the connection. *)
Definition disconnect : M unit :=
  p ← gets processor;
  match p with
  | Some _ => release ProcessorNode;; modify (set_processor None)
  | None => mret tt
  end;;
  src ← gets inputSource;
  match src with
  | Some _ => release InputSourceNode;; modify (set_inputSource None)
  | None => mret tt
  end;;
  AudioContext_close inputContext set_inputContext InputAudioContext;;
  AudioContext_close outputContext set_outputContext OutputAudioContext.

(** ** Runs of a session *)

(** What can happen to a session: the callbacks of the connection, the
    settling of its promise, a capture tick, and the caller's
    [disconnect]. The platform delivers a capture tick to the handler
    only while a processor is installed. *)
Inductive event : Type :=
  | EvOpen (getUserMedia : result MediaStream)
  | EvConnected
  | EvConnectFailed
  | EvAudioProcess (inputData : list number)
  | EvMessage (currentTime : Q) (message : LiveServerMessage)
  | EvDisconnect.

Definition handle (e : event) : M unit :=
  match e with
  | EvOpen r => onOpen r
  | EvConnected => session_fulfil
  | EvConnectFailed => session_reject
  | EvAudioProcess inputData =>
      p ← gets processor;
      match p with
      | Some _ => onaudioprocess inputData
      | None => mret tt
      end
  | EvMessage currentTime message => onMessage currentTime message
  | EvDisconnect => disconnect
  end.

(** A run takes each handler as one step. The handlers are [async], but
    the only [await] of [onMessage] is on [decodeAudioData], which settles
    without waiting for the platform, so the handlers of two messages
    resume in the order the messages came; [disconnect] is taken as one
    step too. An exception that leaves a handler is reported by the
    platform and the session goes on from the state the handler left. *)
Definition run (es : list event) (s : LiveSession) : LiveSession :=
  fold_left (fun st e => exec (handle e) st) es s.

(** A message whose first part carries [base64Audio] inline. *)
Definition audio_message (base64Audio : string) : LiveServerMessage :=
  {| serverContent := Some
       {| modelTurn := Some
            {| parts := Some
                 [ {| inlineData := Some {| data := Some base64Audio;
                                            mimeType := Some "audio/pcm;rate=24000"%string |};
                      text := None |} ] |};
          turnComplete := false |} |}.

(** A payload of [n] frames of silence, and the buffer it decodes into. *)
Definition silence (n : nat) : string :=
  base64EncodeAudio (replicate n (num_of_Z 0)).

Definition silent_buffer (n : nat) : AudioBuffer :=
  {| ab_sampleRate := outputSampleRate;
     ab_length := n;
     ab_channels := [replicate n (Fin (inject_Z 0 / inject_Z 32768))] |}.

(** A session whose connection is open and whose microphone is captured. *)
Definition open_session : LiveSession :=
  run [EvOpen (Ok MicrophoneStream); EvConnected]
      (constructor "Puck" "A summary." en).

(** ** The playback timeline *)

(** The relational operator [a <= b]. *)
Definition num_leb (a b : number) : bool :=
  match a, b with
  | NaN, _ | _, NaN => false
  | Fin x, Fin y => Qle_bool x y
  | NegInf, _ => true
  | _, PosInf => true
  | _, _ => false
  end.

(** When a started unit ends: [startTime + duration]. *)
Definition unit_end (u : number * AudioBuffer) : number :=
  num_add (fst u) (duration (snd u)).

(** "For any two units u1 scheduled before u2,
    [u2.startTime >= u1.startTime + u1.duration]". *)
Definition non_overlapping (units : list (number * AudioBuffer)) : Prop :=
  forall i j u1 u2,
    (i < j)%nat -> units !! i = Some u1 -> units !! j = Some u2 ->
    num_leb (unit_end u1) (fst u2) = true.

(** The units started so far, in order, each of positive duration and
    starting no earlier than the cursor stood before it, with the cursor
    [c] no earlier than the end of the last one. *)
Inductive scheduled : list (number * AudioBuffer) -> Q -> Prop :=
  | scheduled_nil (c : Q) : scheduled [] c
  | scheduled_snoc units c t buffer d c' :
      scheduled units c ->
      (c <= t)%Q ->
      duration buffer = Fin d ->
      (0 < d)%Q ->
      (t + d <= c')%Q ->
      scheduled (units ++ [(Fin t, buffer)]) c'.

(** What holds of a session in every run. *)
Definition timeline_ok (s : LiveSession) : Prop :=
  exists c, nextStartTime s = Fin c /\ scheduled (started s) c.

(** Two sessions that differ at most in what was written to the console. *)
Definition same_but_console (s1 s2 : LiveSession) : Prop :=
  set_console [] s1 = set_console [] s2.

(* ===================================================================== *)
(** * Further behaviour of the codec *)
(* ===================================================================== *)

(** What a 16-bit sample becomes when it is decoded and encoded again. *)
Definition reencoded (v : Z) : Z := if 0 <? v then v - 1 else v.

(** The number of characters that [btoa] writes for [n] bytes. *)
Definition base64_length (n : nat) : nat := (4 * ((n + 2) / 3))%nat.

(** ** Further notions about runs *)

(** The clock never reads below zero. *)
Definition clock_ok (e : event) : Prop :=
  match e with
  | EvMessage currentTime _ => (0 <= currentTime)%Q
  | _ => True
  end.

(** The payload of a message that carries one, and what it decodes to. *)
Definition payload_of (e : event) : option string :=
  match e with
  | EvMessage _ message => truthy (inline_audio message)
  | _ => None
  end.

Definition decoded_unit (e : event) : option AudioBuffer :=
  match payload_of e with
  | Some payload =>
      match decode_payload payload with
      | inr buffer => Some buffer
      | inl _ => None
      end
  | None => None
  end.

Definition undecodable (e : event) : bool :=
  match payload_of e with
  | Some payload => failed (decode_payload payload)
  | None => false
  end.

(** The lines that the [catch] of [onMessage] has written. *)
Definition decode_errors (s : LiveSession) : list string :=
  List.filter (String.eqb "Error decoding audio chunk") (console s).

(** Where the units started so far end: the end of the last one. *)
Definition timeline_end (units : list (number * AudioBuffer)) : number :=
  match last units with
  | Some u => unit_end u
  | None => num_of_Z 0
  end.

(** A server message with the given parts. *)
Definition message_of_parts (ps : list Part) : LiveServerMessage :=
  {| serverContent :=
       Some {| modelTurn := Some {| parts := Some ps |};
               turnComplete := false |} |}.

Definition is_granted (e : event) : bool :=
  match e with
  | EvOpen (inr _) => true
  | _ => false
  end.

(** The messages that the promise of the connection still holds back. *)
Definition waiting (s : LiveSession) : list RealtimeInput :=
  match session s with
  | Pending reactions => reactions
  | _ => []
  end.

(** The cursor is finite, not negative, and stands at the end of the last unit. *)
Definition cursor_at_end (s : LiveSession) : Prop :=
  exists c, nextStartTime s = Fin c /\ (0 <= c)%Q
            /\ nextStartTime s = timeline_end (started s).


Global Instance Resource_eq_dec : EqDecision Resource.
Proof. solve_decision. Defined.

(** How often a resource has been released. *)
Definition times_released (r : Resource) (s : LiveSession) : nat :=
  length (List.filter (fun x => bool_decide (x = r)) (released s)).

(** The two contexts are closed together, once, and the releases tell:
    either both run and neither has been released, or both are closed
    and each has been released once. The capture stream and the
    connection have not been released. *)
Definition contexts_in_step (s : LiveSession) : Prop :=
  ((inputContext s = Running /\ outputContext s = Running
    /\ times_released InputAudioContext s = 0%nat
    /\ times_released OutputAudioContext s = 0%nat)
   \/ (inputContext s = Closed /\ outputContext s = Closed
       /\ times_released InputAudioContext s = 1%nat
       /\ times_released OutputAudioContext s = 1%nat))
  /\ times_released CaptureStream s = 0%nat
  /\ times_released Connection s = 0%nat.

(* ===================================================================== *)
(** * The request functions of [geminiService.ts] *)
(* ===================================================================== *)

(** What these functions throw and what their [catch] blocks hold: an
    [Error] made by the code, the reason a call of the SDK was rejected
    with (its [message] may be absent), or an exception of the platform. *)
Inductive thrown : Type :=
  | NewError (message : string)
  | Rejection (message : option string)
  | Exception (e : exn).

(** A settled promise. *)
Definition settled (A : Type) : Type := (thrown + A)%type.
Definition Resolves {A} (a : A) : settled A := inr a.
Definition Rejects {A} (error : thrown) : settled A := inl error.

(** [a || b] on strings. *)
Definition or_else (a : option string) (b : string) : string :=
  match truthy a with
  | Some s => s
  | None => b
  end.

(** The part of a [GenerateContentResponse] that the code reads;
    [response_text] is its [text] getter. *)
Record Candidate : Type := mkCandidate {
  content : option Content;
  finishReason : option string
}.

Record GenerateContentResponse : Type := mkGenerateContentResponse {
  response_text : option string;
  candidates : option (list Candidate)
}.

(** The two configurations in use: the one of the analysis (temperature
    0.2, thinking budget 32768, and the system instruction, a fixed text
    that ends with the sentence about the language), and the one of the
    speech synthesis (audio modality, a prebuilt voice). *)
Inductive GenerateContentConfig : Type :=
  | AnalysisConfig (langInstruction : string)
  | SpeechConfig (voiceName : string).

Record GenerateContentParameters : Type := mkGenerateContentParameters {
  model : string;
  contents : list Content;
  config : GenerateContentConfig
}.

(** A chat of the SDK: [sendMessageStream] is rejected, or gives the
    chunks that the iteration delivers and then ends or throws. *)
Record ChunkStream : Type := mkChunkStream {
  chunks : list GenerateContentResponse;
  broken : option thrown
}.

Record Chat : Type := mkChat {
  sendMessageStream : string -> settled ChunkStream
}.

(** What the code runs on: the text that the engine gives its own
    exceptions, and the calls of the SDK. *)
Record Platform : Type := mkPlatform {
  exception_message : exn -> string;
  generateContent : GenerateContentParameters -> settled GenerateContentResponse;
  chats_create : string -> string -> Language -> settled Chat
}.

(** [error.message] *)
Definition message_of (platform : Platform) (error : thrown) : option string :=
  match error with
  | NewError message => Some message
  | Rejection message => message
  | Exception e => Some (exception_message platform e)
  end.

(** [response.candidates?.[0]?.finishReason] *)
Definition first_finishReason (response : GenerateContentResponse)
  : option string :=
  cs ← candidates response;
  c ← head cs;
  finishReason c.


Definition analysis_langInstruction (language : Language) : string :=
  match language with
  | am => "Provide the output strictly in Amharic language."
  | en => "Provide the output in English."
  end.

(** The argument of [generateContent] in [analyzeVideo]. *)
Definition analysis_request (base64Data mimeType : string) (language : Language)
  : GenerateContentParameters :=
  let modelId := "gemini-3-pro-preview"%string in
  let finalMimeType := or_else (Some mimeType) "video/mp4" in
  let langInstruction := analysis_langInstruction language in
  {| model := modelId;
     contents :=
       [ {| parts := Some
              [ {| inlineData := Some {| data := Some base64Data;
                                         mimeType := Some finalMimeType |};
                   text := None |};
                {| inlineData := None;
                   text := Some ("Analyze this video content. " ++ langInstruction)%string |} ] |} ];
     config := AnalysisConfig langInstruction |}.

(** [analyzeVideo]: what the promise settles to, and the lines written
    to the console. *)
Definition analyzeVideo (platform : Platform) (base64Data mimeType : string)
    (language : Language) : settled string * list string :=
  match generateContent platform (analysis_request base64Data mimeType language) with
  | inr response =>
      match truthy (response_text response) with
      | Some summary => (Resolves summary, [])
      | None =>
          match truthy (first_finishReason response) with
          | Some reason =>
              (Resolves ("Analysis stopped. Reason: " ++ reason)%string,
               ["Analysis stopped. Reason:"%string])
          | None => (Resolves "No summary generated."%string, [])
          end
      end
  | inl error =>
      (Rejects (NewError (or_else (message_of platform error)
                                  "Failed to analyze video.")),
       ["Gemini API Error:"%string])
  end.

(** [createChatSession]: [ai.chats.create] with the video as the first
    turn of the history. *)
Definition createChatSession (platform : Platform) (base64Data mimeType : string)
    (language : Language) : settled Chat :=
  chats_create platform base64Data (or_else (Some mimeType) "video/mp4") language.

(** An asynchronous generator that is iterated to its end: the values
    it yields, then how it ends. *)
Record Generated : Type := mkGenerated {
  yielded : list string;
  completion : option thrown
}.

(** [sendChatMessageStream] *)
Definition sendChatMessageStream (chat : Chat) (message : string)
  : Generated * list string :=
  match sendMessageStream chat message with
  | inr result =>
      let texts := omap (fun c => truthy (response_text c)) (chunks result) in
      match broken result with
      | None => ({| yielded := texts; completion := None |}, [])
      | Some error =>
          ({| yielded := texts; completion := Some error |},
           ["Chat Stream Error:"%string])
      end
  | inl error =>
      ({| yielded := []; completion := Some error |}, ["Chat Stream Error:"%string])
  end.



(* ===================================================================== *)
(** * [services/utils] *)
(* ===================================================================== *)

Record File : Type := mkFile {
  file_name : string;
  file_type : string;
  file_bytes : list byte
}.

(** [file.size] *)
Definition file_size (file : File) : Z := Z.of_nat (length (file_bytes file)).

(** [s.split(separator)] for a separator of one character. *)
Fixpoint split (separator : ascii) (s : string) : list string :=
  match s with
  | EmptyString => [EmptyString]
  | String c rest =>
      if Ascii.eqb c separator then EmptyString :: split separator rest
      else
        match split separator rest with
        | first :: others => String c first :: others
        | [] => [String c EmptyString]
        end
  end.

(** How the read of a [FileReader] ends: [onload], with [reader.result]
    if it is a string, or [onerror]. *)
Inductive FileReaderEvent : Type :=
  | onload (result : option string)
  | onerror.

(** [reader.readAsDataURL(file)] of the File API when the read succeeds:
    the bytes as a [data:] URL with the type of the file. *)
Definition readAsDataURL (file : File) : FileReaderEvent :=
  onload (Some ("data:" ++ file_type file ++ ";base64,"
                ++ bytesToTransportText (file_bytes file))%string).

(** [fileToBase64]; the promise resolves with [undefined] when the
    result has no comma. *)
Definition fileToBase64 (read : FileReaderEvent) : settled (option string) :=
  match read with
  | onload (Some result) => Resolves (split "," result !! 1%nat)
  | onload None => Rejects (NewError "Failed to convert file to base64")
  | onerror =>
      Rejects (NewError "Failed to read file. The file might be too large or corrupted.")
  end.

Definition has_comma (s : string) : bool :=
  existsb (Ascii.eqb ",") (list_ascii_of_string s).

(** [fullResponseText] after [fullResponseText += chunk] for each chunk. *)
Definition joined (texts : list string) : string :=
  fold_left String.append texts ""%string.


(* ===================================================================== *)
(** * The component of [App.tsx] *)
(* ===================================================================== *)

(** [n.toString()] for an integer: its decimal numeral. *)
Definition toString (n : Z) : string := NilZero.string_of_int (Z.to_int n).

Module App.

(** The interfaces of [types.ts]. *)
Record VideoFile : Type := mkVideoFile {
  video_file : option File;
  video_url : option string;
  video_name : string;
  video_type : string;
  video_size : Z
}.

Record SummaryState : Type := mkSummaryState {
  isLoading : bool;
  summary_text : option string;
  summary_error : option string
}.

Inductive Role : Type := role_user | role_model.

Record ChatMessage : Type := mkChatMessage {
  msg_id : string;
  msg_role : Role;
  msg_text : string;
  msg_timestamp : Z
}.

Inductive Tab : Type := tab_summary | tab_chat.

(** What the component runs on besides the SDK: the API key of the
    build, how the read of a file ends, and [String.prototype.trim]. *)
Record Environment : Type := mkEnvironment {
  platform : Platform;
  API_KEY : option string;
  reader : File -> FileReaderEvent;
  trim : string -> string
}.

(** The state of the component: its [useState] values and its refs, in
    the order of the declarations (the layout refs and the audio context
    of [playResponse], which nothing calls, are left out); then what it
    has done to its live sessions: what each call of [disconnect]
    settled to, with the session as the call left it, and the sessions
    whose reference was overwritten while they were not disconnected.
    A handler is run from its first statement to its last with no other
    handler in between, and the console is not modelled. *)
Record state : Type := mkState {
  video : option VideoFile;
  summary : SummaryState;
  language : Language;
  activeTab : Tab;
  chatSession : option Chat;
  messages : list ChatMessage;
  inputMessage : string;
  isChatLoading : bool;
  selectedVoice : string;
  isPlayingAudio : bool;
  audioSourceRef : option AudioBuffer;
  isLiveMode : bool;
  liveSessionRef : option LiveSession;
  disconnected : list (result unit * LiveSession);
  abandoned : list LiveSession
}.

Definition set_video (v : option VideoFile) (st : state) : state :=
  mkState v (summary st) (language st) (activeTab st) (chatSession st)
    (messages st) (inputMessage st) (isChatLoading st) (selectedVoice st)
    (isPlayingAudio st) (audioSourceRef st) (isLiveMode st) (liveSessionRef
    st) (disconnected st) (abandoned st).

Definition set_summary (v : SummaryState) (st : state) : state :=
  mkState (video st) v (language st) (activeTab st) (chatSession st)
    (messages st) (inputMessage st) (isChatLoading st) (selectedVoice st)
    (isPlayingAudio st) (audioSourceRef st) (isLiveMode st) (liveSessionRef
    st) (disconnected st) (abandoned st).

Definition set_language (v : Language) (st : state) : state :=
  mkState (video st) (summary st) v (activeTab st) (chatSession st)
    (messages st) (inputMessage st) (isChatLoading st) (selectedVoice st)
    (isPlayingAudio st) (audioSourceRef st) (isLiveMode st) (liveSessionRef
    st) (disconnected st) (abandoned st).

Definition set_activeTab (v : Tab) (st : state) : state :=
  mkState (video st) (summary st) (language st) v (chatSession st) (messages
    st) (inputMessage st) (isChatLoading st) (selectedVoice st)
    (isPlayingAudio st) (audioSourceRef st) (isLiveMode st) (liveSessionRef
    st) (disconnected st) (abandoned st).

Definition set_chatSession (v : option Chat) (st : state) : state :=
  mkState (video st) (summary st) (language st) (activeTab st) v (messages
    st) (inputMessage st) (isChatLoading st) (selectedVoice st)
    (isPlayingAudio st) (audioSourceRef st) (isLiveMode st) (liveSessionRef
    st) (disconnected st) (abandoned st).

Definition set_messages (v : list ChatMessage) (st : state) : state :=
  mkState (video st) (summary st) (language st) (activeTab st) (chatSession
    st) v (inputMessage st) (isChatLoading st) (selectedVoice st)
    (isPlayingAudio st) (audioSourceRef st) (isLiveMode st) (liveSessionRef
    st) (disconnected st) (abandoned st).

Definition set_inputMessage (v : string) (st : state) : state :=
  mkState (video st) (summary st) (language st) (activeTab st) (chatSession
    st) (messages st) v (isChatLoading st) (selectedVoice st)
    (isPlayingAudio st) (audioSourceRef st) (isLiveMode st) (liveSessionRef
    st) (disconnected st) (abandoned st).

Definition set_isChatLoading (v : bool) (st : state) : state :=
  mkState (video st) (summary st) (language st) (activeTab st) (chatSession
    st) (messages st) (inputMessage st) v (selectedVoice st) (isPlayingAudio
    st) (audioSourceRef st) (isLiveMode st) (liveSessionRef st)
    (disconnected st) (abandoned st).

Definition set_selectedVoice (v : string) (st : state) : state :=
  mkState (video st) (summary st) (language st) (activeTab st) (chatSession
    st) (messages st) (inputMessage st) (isChatLoading st) v (isPlayingAudio
    st) (audioSourceRef st) (isLiveMode st) (liveSessionRef st)
    (disconnected st) (abandoned st).

Definition set_isPlayingAudio (v : bool) (st : state) : state :=
  mkState (video st) (summary st) (language st) (activeTab st) (chatSession
    st) (messages st) (inputMessage st) (isChatLoading st) (selectedVoice
    st) v (audioSourceRef st) (isLiveMode st) (liveSessionRef st)
    (disconnected st) (abandoned st).

Definition set_audioSourceRef (v : option AudioBuffer) (st : state) : state :=
  mkState (video st) (summary st) (language st) (activeTab st) (chatSession
    st) (messages st) (inputMessage st) (isChatLoading st) (selectedVoice
    st) (isPlayingAudio st) v (isLiveMode st) (liveSessionRef st)
    (disconnected st) (abandoned st).

Definition set_isLiveMode (v : bool) (st : state) : state :=
  mkState (video st) (summary st) (language st) (activeTab st) (chatSession
    st) (messages st) (inputMessage st) (isChatLoading st) (selectedVoice
    st) (isPlayingAudio st) (audioSourceRef st) v (liveSessionRef st)
    (disconnected st) (abandoned st).

Definition set_liveSessionRef (v : option LiveSession) (st : state) : state :=
  mkState (video st) (summary st) (language st) (activeTab st) (chatSession
    st) (messages st) (inputMessage st) (isChatLoading st) (selectedVoice
    st) (isPlayingAudio st) (audioSourceRef st) (isLiveMode st) v
    (disconnected st) (abandoned st).

Definition set_disconnected (v : list (result unit * LiveSession)) (st : state) : state :=
  mkState (video st) (summary st) (language st) (activeTab st) (chatSession
    st) (messages st) (inputMessage st) (isChatLoading st) (selectedVoice
    st) (isPlayingAudio st) (audioSourceRef st) (isLiveMode st)
    (liveSessionRef st) v (abandoned st).

Definition set_abandoned (v : list LiveSession) (st : state) : state :=
  mkState (video st) (summary st) (language st) (activeTab st) (chatSession
    st) (messages st) (inputMessage st) (isChatLoading st) (selectedVoice
    st) (isPlayingAudio st) (audioSourceRef st) (isLiveMode st)
    (liveSessionRef st) (disconnected st) v.

(** The first render. *)
Definition initial : state :=
  {| video := None;
     summary := {| isLoading := false; summary_text := None; summary_error := None |};
     language := en;
     activeTab := tab_summary;
     chatSession := None;
     messages := [];
     inputMessage := "";
     isChatLoading := false;
     selectedVoice := "Puck";
     isPlayingAudio := false;
     audioSourceRef := None;
     isLiveMode := false;
     liveSessionRef := None;
     disconnected := [];
     abandoned := [] |}.

Definition no_summary : SummaryState :=
  {| isLoading := false; summary_text := None; summary_error := None |}.

Definition handleVideoSelected (selectedVideo : VideoFile) (st : state) : state :=
  let st := set_video (Some selectedVideo) st in
  let st := set_summary no_summary st in
  let st := set_chatSession None st in
  let st := set_messages [] st in
  let st := set_isLiveMode false st in
  set_activeTab tab_summary st.

Definition init_greeting (language : Language) : string :=
  match language with
  | am => "ቪዲዮውን አይቼዋለሁ! ማንኛውንም ነገር ይጠይቁኝ።"
  | en => "I've watched the video! Ask me anything."
  end.

(** The outer [catch] of [handleAnalyze]. *)
Definition analysis_failed (env : Environment) (error : thrown) (st : state)
  : state :=
  set_summary
    {| isLoading := false;
       summary_text := None;
       summary_error :=
         Some (or_else (message_of (platform env) error)
                 "Failed to analyze video. Please try a smaller file or check your connection.") |}
    st.

(** [handleAnalyze]; [now] is the reading of [Date.now()] for the first
    message of the chat. Reading [length] of the [undefined] that
    [fileToBase64] can resolve with is a [TypeError]. *)
Definition handleAnalyze (env : Environment) (now : Z) (st : state) : state :=
  match video st with
  | None => st
  | Some v =>
      match video_file v with
      | None => st
      | Some file =>
          let st :=
            set_summary {| isLoading := true; summary_text := None;
                           summary_error := None |} st in
          match truthy (API_KEY env) with
          | None =>
              analysis_failed env
                (NewError "System Configuration Error: API Key is missing from the deployment.")
                st
          | Some _ =>
              match fileToBase64 (reader env file) with
              | inl error => analysis_failed env error st
              | inr None => analysis_failed env (Exception TypeError) st
              | inr (Some base64Data) =>
                  match fst (analyzeVideo (platform env) base64Data
                               (video_type v) (language st)) with
                  | inl error => analysis_failed env error st
                  | inr text =>
                      let st :=
                        set_summary {| isLoading := false;
                                       summary_text := Some text;
                                       summary_error := None |} st in
                      let st := set_activeTab tab_summary st in
                      match createChatSession (platform env) base64Data
                              (video_type v) (language st) with
                      | inr session =>
                          let st := set_chatSession (Some session) st in
                          set_messages
                            [ {| msg_id := "init";
                                 msg_role := role_model;
                                 msg_text := init_greeting (language st);
                                 msg_timestamp := now |} ] st
                      | inl chatErr => st
                      end
                  end
              end
          end
      end
  end.

Definition toggleLanguage (st : state) : state :=
  set_language (match language st with en => am | am => en end) st.

Definition stopChatAudio (st : state) : state :=
  let st :=
    match audioSourceRef st with
    | Some _ => set_audioSourceRef None st
    | None => st
    end in
  set_isPlayingAudio false st.

(** [stopLiveMode]: the promise that [disconnect] returns is dropped. *)
Definition stopLiveMode (st : state) : state :=
  let st := set_isLiveMode false st in
  match liveSessionRef st with
  | Some live =>
      let st :=
        set_disconnected
          (disconnected st ++ [(outcome disconnect live, exec disconnect live)])
          st in
      set_liveSessionRef None st
  | None => st
  end.

(** [startLiveMode]; the constructor of the session does not throw in
    this model, so that the [catch] is not entered. *)
Definition startLiveMode (st : state) : state :=
  match truthy (summary_text (summary st)) with
  | None => st
  | Some text =>
      let st := stopChatAudio st in
      let st := set_activeTab tab_chat st in
      let st := set_isLiveMode true st in
      let st :=
        match liveSessionRef st with
        | Some live => set_abandoned (abandoned st ++ [live]) st
        | None => st
        end in
      set_liveSessionRef
        (Some (constructor (selectedVoice st) text (language st))) st
  end.

Definition toggleLiveMode (st : state) : state :=
  if isLiveMode st then stopLiveMode st else startLiveMode st.

Definition handleHome (st : state) : state :=
  let st := set_video None st in
  let st := set_summary no_summary st in
  let st := set_chatSession None st in
  let st := set_messages [] st in
  let st := set_inputMessage "" st in
  let st := stopChatAudio st in
  stopLiveMode st.

(** [msg.id === responseId ? { ...msg, text } : msg] *)
Definition with_text (responseId text : string) (msg : ChatMessage)
  : ChatMessage :=
  if String.eqb (msg_id msg) responseId
  then {| msg_id := msg_id msg;
          msg_role := msg_role msg;
          msg_text := text;
          msg_timestamp := msg_timestamp msg |}
  else msg.

(** The [for await] loop of [handleSendMessage] over what the generator
    yields. *)
Fixpoint receive (responseId : string) (yields : list string)
    (fullResponseText : string) (st : state) : state :=
  match yields with
  | [] => st
  | chunk :: rest =>
      let fullResponseText := (fullResponseText ++ chunk)%string in
      let st :=
        set_messages (map (with_text responseId fullResponseText) (messages st))
          st in
      receive responseId rest fullResponseText st
  end.

(** [handleSendMessage]; [now1] to [now4] are its four readings of
    [Date.now()]. *)
Definition handleSendMessage (env : Environment) (overrideText : option string)
    (now1 now2 now3 now4 : Z) (st : state) : state :=
  let textToSend := or_else overrideText (inputMessage st) in
  match truthy (Some (trim env textToSend)), chatSession st with
  | Some _, Some chat =>
      let st := stopChatAudio st in
      let st := if isLiveMode st then stopLiveMode st else st in
      let userMsg :=
        {| msg_id := toString now1;
           msg_role := role_user;
           msg_text := textToSend;
           msg_timestamp := now2 |} in
      let st := set_messages (messages st ++ [userMsg]) st in
      let st := set_inputMessage "" st in
      let st := set_isChatLoading true st in
      let responseId := toString (now3 + 1) in
      let st :=
        set_messages
          (messages st ++ [ {| msg_id := responseId;
                               msg_role := role_model;
                               msg_text := "";
                               msg_timestamp := now4 |} ]) st in
      let stream := fst (sendChatMessageStream chat textToSend) in
      let st := receive responseId (yielded stream) "" st in
      let st :=
        match completion stream with
        | Some err =>
            set_messages
              (map (with_text responseId "Error generating response.")
                   (messages st)) st
        | None => st
        end in
      set_isChatLoading false st
  | _, _ => st
  end.

(** What can happen to the component: a handler is called, or the
    platform calls back the session of the ref ([disconnect] is called
    by the handlers only). *)
Inductive action : Type :=
  | VideoSelected (selectedVideo : VideoFile)
  | Analyze (env : Environment) (now : Z)
  | Home
  | ToggleLanguage
  | SetActiveTab (tab : Tab)
  | SetInputMessage (value : string)
  | SetSelectedVoice (voice : string)
  | StopChatAudio
  | SendMessage (env : Environment) (overrideText : option string)
      (now1 now2 now3 now4 : Z)
  | ToggleLiveMode
  | StopLiveMode
  | Unmount
  | Callback (e : event).

Definition is_callback (e : event) : bool :=
  match e with
  | EvDisconnect => false
  | _ => true
  end.

Definition step (a : action) (st : state) : state :=
  match a with
  | VideoSelected selectedVideo => handleVideoSelected selectedVideo st
  | Analyze env now => handleAnalyze env now st
  | Home => handleHome st
  | ToggleLanguage => toggleLanguage st
  | SetActiveTab tab => set_activeTab tab st
  | SetInputMessage value => set_inputMessage value st
  | SetSelectedVoice voice => set_selectedVoice voice st
  | StopChatAudio => stopChatAudio st
  | SendMessage env overrideText now1 now2 now3 now4 =>
      handleSendMessage env overrideText now1 now2 now3 now4 st
  | ToggleLiveMode => toggleLiveMode st
  | StopLiveMode => stopLiveMode st
  | Unmount => stopLiveMode st
  | Callback e =>
      match liveSessionRef st with
      | Some live =>
          if is_callback e
          then set_liveSessionRef (Some (exec (handle e) live)) st
          else st
      | None => st
      end
  end.

Definition run (actions : list action) (st : state) : state :=
  fold_left (fun st a => step a st) actions st.

(** [VideoInput] is rendered, and so a video can be selected, only
    while no video is loaded. *)
Fixpoint as_rendered (actions : list action) (st : state) : Prop :=
  match actions with
  | [] => True
  | a :: rest =>
      match a with
      | VideoSelected _ => video st = None
      | _ => True
      end
      /\ as_rendered rest (step a st)
  end.

(** The session was released by its [disconnect]. *)
Definition released_all (live : LiveSession) : Prop :=
  processor live = None /\ inputSource live = None
  /\ inputContext live = Closed /\ outputContext live = Closed.

(** The session of the ref has not been disconnected. *)
Definition ref_open (st : state) : Prop :=
  forall live, liveSessionRef st = Some live ->
    inputContext live = Running /\ outputContext live = Running.

(** Every call of [disconnect] so far was fulfilled and released the
    session. *)
Definition disconnects_fulfilled (st : state) : Prop :=
  Forall (fun d => fst d = Ok tt /\ released_all (snd d)) (disconnected st).

(** What the live mode of the component consists of. *)
Definition live_view (st : state)
  : option VideoFile * option string * bool * option LiveSession
    * list (result unit * LiveSession) * list LiveSession :=
  (video st, summary_text (summary st), isLiveMode st, liveSessionRef st,
   disconnected st, abandoned st).

(** The flag and the ref agree, no session has been left behind, and
    without a video there is neither a summary nor a session. *)
Definition live_in_step (st : state) : Prop :=
  abandoned st = []
  /\ (isLiveMode st = true <-> is_Some (liveSessionRef st))
  /\ (video st = None ->
      summary_text (summary st) = None /\ liveSessionRef st = None).

(** A transcript after the greeting: messages of the user, each followed
    by a message of the model. *)
Fixpoint exchanges (ms : list ChatMessage) : Prop :=
  match ms with
  | [] => True
  | question :: reply :: rest =>
      msg_role question = role_user /\ msg_role reply = role_model
      /\ exchanges rest
  | _ => False
  end.

(** Without a chat session there is no transcript; with one it is the
    greeting and then exchanges. *)
Definition transcript_in_order (st : state) : Prop :=
  match chatSession st with
  | None => messages st = []
  | Some _ =>
      exists greeting rest,
        messages st = greeting :: rest
        /\ msg_id greeting = "init"%string
        /\ msg_role greeting = role_model
        /\ exchanges rest
  end.

End App.


(* ===================================================================== *)
(** * The component of [VideoInput.tsx] *)
(* ===================================================================== *)

(** [s.startsWith(searchString)] and [s.includes(searchString)] *)
Definition startsWith (s searchString : string) : bool :=
  String.prefix searchString s.

Fixpoint includes (s searchString : string) : bool :=
  startsWith s searchString
  || match s with
     | EmptyString => false
     | String _ rest => includes rest searchString
     end.

(** What [fetch] resolves with, as far as [urlToFile] reads it;
    [response_blob] is how [response.blob()] settles. *)
Record ResponseBody : Type := mkResponseBody {
  blob_type : string;
  blob_bytes : list byte
}.

Record Response : Type := mkResponse {
  ok : bool;
  response_blob : settled ResponseBody
}.

(** [urlToFile]; [describe] is the conversion of the caught value to a
    string in the template of the message. *)
Definition urlToFile (describe : thrown -> string) (fetched : settled Response)
    (filename : string) : settled File :=
  let body : settled File :=
    match fetched with
    | inr response =>
        if negb (ok response)
        then Rejects (NewError "Network response was not ok")
        else
          match response_blob response with
          | inr blob =>
              Resolves {| file_name := filename;
                          file_type := or_else (Some (blob_type blob)) "video/mp4";
                          file_bytes := blob_bytes blob |}
          | inl error => Rejects error
          end
    | inl error => Rejects error
    end in
  match body with
  | inr file => Resolves file
  | inl error =>
      Rejects (NewError
        ("Failed to fetch video from URL. CORS restrictions may apply. Error: "
         ++ describe error)%string)
  end.

Module VideoInput.

(** The texts of [getTranslation(language)] that the component shows as
    errors. *)
Record Translation : Type := mkTranslation {
  validFileErr : string;
  fileSizeLimit : string;
  youtubeErr : string;
  failedToFetch : string
}.

(** What a handler ends with: [onVideoSelected(video)] with the error
    cleared, or [setError(error)]. *)
Inductive handled : Type :=
  | Selected (video : App.VideoFile)
  | Refused (error : string).

(** [handleFile]; [objectUrl] is what [URL.createObjectURL] returns. *)
Definition handleFile (t : Translation) (objectUrl : string) (file : File)
  : handled :=
  if negb (startsWith (file_type file) "video/") then Refused (validFileErr t)
  else if 2 * 1024 * 1024 * 1024 <? file_size file
  then Refused (fileSizeLimit t)
  else
    Selected {| App.video_file := Some file;
                App.video_url := Some objectUrl;
                App.video_name := file_name file;
                App.video_type := file_type file;
                App.video_size := file_size file |}.

(** [handleUrlSubmit]: nothing when the input is empty. *)
Definition handleUrlSubmit (platform : Platform) (describe : thrown -> string)
    (t : Translation) (objectUrl urlInput : string) (fetched : settled Response)
  : option handled :=
  match truthy (Some urlInput) with
  | None => None
  | Some _ =>
      let body : settled handled :=
        if includes urlInput "youtube.com" || includes urlInput "youtu.be"
        then Rejects (NewError (youtubeErr t))
        else
          match urlToFile describe fetched "video-from-url.mp4" with
          | inr file => Resolves (handleFile t objectUrl file)
          | inl error => Rejects error
          end in
      match body with
      | inr done => Some done
      | inl err =>
          Some (Refused (or_else (message_of platform err) (failedToFetch t)))
      end
  end.

End VideoInput.


(* ===================================================================== *)
(** * Proof tools *)
(* ===================================================================== *)

(** Linear arithmetic with division and remainder by constants. *)
Ltac euclid := zify; Z.to_euclidean_division_equations; lia.

Lemma list_ind3 {A} (P : list A -> Prop) :
  P [] -> (forall a, P [a]) -> (forall a b, P [a; b]) ->
  (forall a b c rest, P rest -> P (a :: b :: c :: rest)) ->
  forall l, P l.
Proof.
  intros H0 H1 H2 H3.
  fix IH 1. intros [|a [|b [|c rest]]];
    [apply H0 | apply H1 | apply H2 | apply H3, IH].
Qed.

Lemma filter_all {A} (P : A -> Prop) `{!forall x, Decision (P x)} (l : list A) :
  Forall P l -> filter P l = l.
Proof.
  induction 1 as [|x l Hx _ IH]; [reflexivity|].
  rewrite filter_cons_True by exact Hx. by rewrite IH.
Qed.

(* ===================================================================== *)
(** * [btoa] and [atob] *)
(* ===================================================================== *)

Section Base64_facts.
Import Base64.
Local Open Scope N_scope.

Lemma sextet_table n : n < 64 -> sextet_table_ok n = true.
Proof.
  intros Hn.
  assert (Hall : forallb sextet_table_ok (map N.of_nat (seq 0 64)) = true)
    by (vm_compute; reflexivity).
  rewrite forallb_forall in Hall. apply Hall.
  apply in_map_iff. exists (N.to_nat n). split; [lia|].
  apply in_seq. lia.
Qed.

Lemma decode_encode_sextet n : n < 64 -> decode_char (encode_sextet n) = Some n.
Proof.
  intros Hn. pose proof (sextet_table n Hn) as H. unfold sextet_table_ok in H.
  destruct (decode_char (encode_sextet n)) as [m|]; [|discriminate].
  apply andb_prop in H as [H _]. apply andb_prop in H as [H _].
  apply N.eqb_eq in H. by subst.
Qed.

Lemma encode_sextet_not_whitespace n :
  n < 64 -> is_ascii_whitespace (encode_sextet n) = false.
Proof.
  intros Hn. pose proof (sextet_table n Hn) as H. unfold sextet_table_ok in H.
  destruct (decode_char (encode_sextet n)); [|discriminate].
  apply andb_prop in H as [H _]. apply andb_prop in H as [_ H].
  by apply negb_true_iff in H.
Qed.

Lemma encode_sextet_not_pad n : n < 64 -> is_pad (encode_sextet n) = false.
Proof.
  intros Hn. pose proof (sextet_table n Hn) as H. unfold sextet_table_ok in H.
  destruct (decode_char (encode_sextet n)); [|discriminate].
  apply andb_prop in H as [_ H]. by apply negb_true_iff in H.
Qed.

Lemma encode_groups_shape bs :
  encode_groups bs = map encode_sextet (sextets bs) ++ padding bs.
Proof.
  induction bs as [|a|a b|a b c rest IH] using list_ind3; try reflexivity.
  cbn [encode_groups sextets padding map app]. by rewrite IH.
Qed.

Lemma sextets_bounded bs : Forall is_byte bs -> Forall is_sextet (sextets bs).
Proof.
  unfold is_byte, is_sextet.
  induction bs as [|a|a b|a b c rest IH] using list_ind3; intros Hbs;
    cbn [sextets].
  - constructor.
  - inversion_clear Hbs. repeat constructor; euclid.
  - inversion_clear Hbs as [|? ? Ha Hbs']. inversion_clear Hbs'.
    repeat constructor; euclid.
  - inversion_clear Hbs as [|? ? Ha Hbs']. inversion_clear Hbs' as [|? ? Hb Hbs''].
    inversion_clear Hbs'' as [|? ? Hc Hrest].
    repeat (constructor; [euclid|]). by apply IH.
Qed.

Lemma group_byte1 a b : a < 256 -> b < 256 ->
  a / 4 * 4 + (a mod 4 * 16 + b / 16) / 16 = a.
Proof. intros. euclid. Qed.

Lemma group_byte1_last a : a < 256 -> a / 4 * 4 + a mod 4 * 16 / 16 = a.
Proof. intros. euclid. Qed.

Lemma group_byte2 a b c : a < 256 -> b < 256 -> c < 256 ->
  (a mod 4 * 16 + b / 16) mod 16 * 16 + (b mod 16 * 4 + c / 64) / 4 = b.
Proof. intros. euclid. Qed.

Lemma group_byte2_last a b : a < 256 -> b < 256 ->
  (a mod 4 * 16 + b / 16) mod 16 * 16 + b mod 16 * 4 / 4 = b.
Proof. intros. euclid. Qed.

Lemma group_byte3 b c : b < 256 -> c < 256 ->
  (b mod 16 * 4 + c / 64) mod 4 * 64 + c mod 64 = c.
Proof. intros. euclid. Qed.

Lemma decode_groups_sextets bs :
  Forall is_byte bs -> decode_groups (sextets bs) = bs.
Proof.
  unfold is_byte.
  induction bs as [|a|a b|a b c rest IH] using list_ind3; intros Hbs;
    cbn [sextets decode_groups].
  - reflexivity.
  - inversion_clear Hbs. by rewrite group_byte1_last.
  - inversion_clear Hbs as [|? ? Ha Hbs']. inversion_clear Hbs'.
    by rewrite group_byte1, group_byte2_last.
  - inversion_clear Hbs as [|? ? Ha Hbs']. inversion_clear Hbs' as [|? ? Hb Hbs''].
    inversion_clear Hbs'' as [|? ? Hc Hrest].
    rewrite group_byte1, group_byte2, group_byte3, IH by assumption.
    reflexivity.
Qed.

Lemma decode_chars_encode ss :
  Forall is_sextet ss -> decode_chars (map encode_sextet ss) = Some ss.
Proof.
  induction 1 as [|n ss Hn _ IH]; [reflexivity|].
  cbn [map decode_chars]. by rewrite decode_encode_sextet, IH.
Qed.

Lemma length_sextets_mod4 bs : (length (sextets bs) mod 4 =? 1)%nat = false.
Proof.
  apply Nat.eqb_neq.
  cut (exists k, length (sextets bs) = 4 * k \/ length (sextets bs) = 4 * k + 2
                 \/ length (sextets bs) = 4 * k + 3)%nat.
  { intros [k Hk]. euclid. }
  induction bs as [|a|a b|a b c rest [k IH]] using list_ind3; cbn [sextets length].
  - exists 0%nat. lia.
  - exists 0%nat. lia.
  - exists 0%nat. lia.
  - exists (S k). lia.
Qed.

Lemma length_encode_groups_mod4 bs :
  (length (encode_groups bs) mod 4 =? 0)%nat = true.
Proof.
  apply Nat.eqb_eq.
  cut (exists k, length (encode_groups bs) = 4 * k)%nat.
  { intros [k Hk]. euclid. }
  induction bs as [|a|a b|a b c rest [k IH]] using list_ind3;
    cbn [encode_groups length].
  - exists 0%nat. lia.
  - exists 1%nat. lia.
  - exists 1%nat. lia.
  - exists (S k). lia.
Qed.

Lemma padding_cases bs :
  padding bs = [] \/ padding bs = [pad] \/ padding bs = [pad; pad].
Proof.
  induction bs as [|a|a b|a b c rest IH] using list_ind3; cbn [padding]; auto.
Qed.

Lemma strip_padding_shape body p :
  Forall (fun c => is_pad c = false) body ->
  (length (body ++ p) mod 4 =? 0)%nat = true ->
  p = [] \/ p = [pad] \/ p = [pad; pad] ->
  strip_padding (body ++ p) = body.
Proof.
  intros Hbody Hlen Hp. unfold strip_padding. rewrite Hlen.
  assert (Hhead : forall c r, rev body = c :: r -> is_pad c = false).
  { intros c r Hrev. rewrite Forall_forall in Hbody. apply Hbody.
    apply list_elem_of_In, in_rev. rewrite Hrev. by left. }
  assert (Hpad : is_pad pad = true) by reflexivity.
  rewrite rev_app_distr.
  destruct Hp as [-> | [-> | ->]]; cbn [rev app].
  - rewrite app_nil_r.
    destruct (rev body) as [|c1 [|c2 r]] eqn:Hrev; try reflexivity.
    + by rewrite (Hhead c1 []).
    + by rewrite (Hhead c1 (c2 :: r)).
  - destruct (rev body) as [|c2 r] eqn:Hrev.
    + rewrite Hpad. apply (f_equal (@rev _)) in Hrev.
      rewrite rev_involutive in Hrev. by subst.
    + rewrite Hpad, (Hhead c2 r) by reflexivity.
      change (rev r ++ [c2]) with (rev (c2 :: r)).
      by rewrite <- Hrev, rev_involutive.
  - rewrite !Hpad. apply rev_involutive.
Qed.

Lemma atob_btoa (binary : string) : atob (btoa binary) = Ok binary.
Proof.
  unfold atob, btoa.
  set (bs := map N_of_ascii (list_ascii_of_string binary)).
  assert (Hbs : Forall is_byte bs).
  { apply Forall_forall. intros n Hn. apply list_elem_of_In, in_map_iff in Hn.
    destruct Hn as (c & <- & _). apply N_ascii_bounded. }
  pose proof (sextets_bounded bs Hbs) as Hss.
  rewrite list_ascii_of_string_of_list_ascii.
  pose proof (length_encode_groups_mod4 bs) as Hlen.
  rewrite encode_groups_shape in Hlen |- *.
  rewrite filter_all.
  2:{ apply Forall_app. split.
      - apply Forall_forall. intros c Hc.
        apply list_elem_of_In, in_map_iff in Hc. destruct Hc as (n & <- & Hn).
        apply encode_sextet_not_whitespace.
        rewrite Forall_forall in Hss. by apply Hss, list_elem_of_In.
      - destruct (padding_cases bs) as [-> | [-> | ->]];
          repeat constructor. }
  rewrite strip_padding_shape; [| |assumption|apply padding_cases].
  2:{ apply Forall_forall. intros c Hc.
      apply list_elem_of_In, in_map_iff in Hc. destruct Hc as (n & <- & Hn).
      apply encode_sextet_not_pad.
      rewrite Forall_forall in Hss. by apply Hss, list_elem_of_In. }
  rewrite length_map, length_sextets_mod4.
  rewrite decode_chars_encode by assumption.
  rewrite decode_groups_sextets by assumption.
  unfold bs. rewrite map_map.
  rewrite (map_ext _ id) by (intros c; apply ascii_N_embedding).
  by rewrite map_id, string_of_list_ascii_of_string.
Qed.

End Base64_facts.

Lemma decode_bytesToTransportText (bytes : list byte) :
  decode (bytesToTransportText bytes) = Ok bytes.
Proof.
  unfold decode, bytesToTransportText. rewrite atob_btoa. cbn.
  by rewrite list_byte_of_string_of_list_byte.
Qed.

(* ===================================================================== *)
(** * Integer conversions *)
(* ===================================================================== *)

Lemma Qtruncate_floor (q : Q) : (0 <= q)%Q -> Qtruncate q = Qfloor q.
Proof.
  destruct q as [n d]. unfold Qle, Qtruncate, Qfloor. cbn. intros Hn.
  apply Z.quot_div_nonneg; lia.
Qed.

Lemma Qtruncate_ceiling (q : Q) : (q <= 0)%Q -> Qtruncate q = Qceiling q.
Proof.
  destruct q as [n d]. unfold Qle, Qtruncate, Qceiling, Qfloor. cbn. intros Hn.
  rewrite <- (Z.opp_involutive n) at 1.
  rewrite Z.quot_opp_l by lia. f_equal.
  apply Z.quot_div_nonneg; lia.
Qed.

Lemma Qtruncate_Zdiv (a b : Z) :
  0 <= a -> 0 < b -> Qtruncate (inject_Z a / inject_Z b) = a / b.
Proof.
  intros Ha Hb. rewrite Zdiv_Qdiv. apply Qtruncate_floor.
  apply Qle_shift_div_l.
  - change 0%Q with (inject_Z 0). by rewrite <- Zlt_Qlt.
  - rewrite Qmult_0_l. change 0%Q with (inject_Z 0). by rewrite <- Zle_Qle.
Qed.

Lemma wrap_int16_id (v : Z) : -32768 <= v <= 32767 -> wrap_int16 v = v.
Proof. unfold wrap_int16. intros. euclid. Qed.

Lemma wrap_int16_range (v : Z) : -32768 <= wrap_int16 v <= 32767.
Proof. unfold wrap_int16. euclid. Qed.

(** The arithmetic of the codec is exact: an element of a
    [Float32Array] is a double as it is, its product with [0x7FFF] or
    [0x8000] is a double, and a 16-bit integer over 32768 is a float32. *)
Lemma double_of_float32 (x : Q) : is_float32 x -> is_double x.
Proof.
  intros (m & e & Hm & He & Hx). exists m, e.
  split; [|split; [lia|exact Hx]].
  eapply Z.lt_trans; [exact Hm|]. reflexivity.
Qed.

Lemma scaled_sample_exact (x : Q) (k : Z) :
  is_float32 x -> Z.abs k <= 32768 -> is_double (x * inject_Z k).
Proof.
  intros (m & e & Hm & He & Hx) Hk. exists (m * k), e.
  split; [|split; [lia|]].
  - rewrite Z.abs_mul. change (2 ^ 53) with (2 ^ 24 * 536870912). nia.
  - rewrite Hx, inject_Z_mult. ring.
Qed.

Lemma decoded_sample_exact (k : Z) :
  -32768 <= k <= 32767 -> is_float32 (inject_Z k / inject_Z 32768).
Proof.
  intros Hk. exists k, (-15).
  split; [|split; [lia|]].
  - change (2 ^ 24) with 16777216. lia.
  - change (2 ^ (-15))%Q with (/ inject_Z 32768)%Q. reflexivity.
Qed.

(* ===================================================================== *)
(** * Typed arrays *)
(* ===================================================================== *)

Lemma Z_of_byte_range (b : byte) : 0 <= Z_of_byte b < 256.
Proof. unfold Z_of_byte. pose proof (Byte.to_N_bounded b). lia. Qed.

Lemma Z_of_byte_of_Z (z : Z) : Z_of_byte (byte_of_Z z) = z mod 256.
Proof.
  unfold Z_of_byte, byte_of_Z.
  assert (Hr : 0 <= z mod 256 < 256) by (apply Z.mod_pos_bound; lia).
  destruct (Byte.of_N (Z.to_N (z mod 256))) as [b|] eqn:Hb.
  - apply Byte.to_of_N in Hb. rewrite Hb. lia.
  - apply Byte.of_N_None_iff in Hb. lia.
Qed.

Lemma byte_of_Z_of_byte (b : byte) : byte_of_Z (Z_of_byte b) = b.
Proof.
  unfold byte_of_Z. rewrite Z.mod_small by apply Z_of_byte_range.
  unfold Z_of_byte. by rewrite N2Z.id, Byte.of_to_N.
Qed.

Lemma int16_of_bytes_int16_bytes (v : Z) :
  -32768 <= v <= 32767 ->
  int16_of_bytes (byte_of_Z v) (byte_of_Z (v / 256)) = v.
Proof.
  intros Hv. unfold int16_of_bytes. rewrite !Z_of_byte_of_Z.
  unfold wrap_int16. euclid.
Qed.

Lemma int16_of_bytes_range (lo hi : byte) :
  -32768 <= int16_of_bytes lo hi <= 32767.
Proof. apply wrap_int16_range. Qed.

Lemma int16_elements_Uint8Array (a : list Z) :
  Forall (fun v => -32768 <= v <= 32767) a ->
  int16_elements (Uint8Array_of_Int16Array a) = a.
Proof.
  induction 1 as [|v a Hv _ IH]; [reflexivity|].
  change (Uint8Array_of_Int16Array (v :: a))
    with (byte_of_Z v :: byte_of_Z (v / 256) :: Uint8Array_of_Int16Array a).
  cbn [int16_elements]. by rewrite int16_of_bytes_int16_bytes, IH.
Qed.

Lemma length_Uint8Array_of_Int16Array (a : list Z) :
  length (Uint8Array_of_Int16Array a) = (2 * length a)%nat.
Proof.
  induction a as [|v a IH]; [reflexivity|].
  change (Uint8Array_of_Int16Array (v :: a))
    with (byte_of_Z v :: byte_of_Z (v / 256) :: Uint8Array_of_Int16Array a).
  cbn [length]. lia.
Qed.

Lemma list_ind2 {A} (P : list A -> Prop) :
  P [] -> (forall a, P [a]) -> (forall a b rest, P rest -> P (a :: b :: rest)) ->
  forall l, P l.
Proof.
  intros H0 H1 H2. fix IH 1.
  intros [|a [|b rest]]; [apply H0 | apply H1 | apply H2, IH].
Qed.

Lemma length_int16_elements (data : list byte) :
  length (int16_elements data) = (length data / 2)%nat.
Proof.
  induction data as [|a|a b rest IH] using list_ind2; try reflexivity.
  cbn [int16_elements length]. rewrite IH.
  change (S (S (length rest))) with (1 * 2 + length rest)%nat.
  rewrite Nat.div_add_l by lia. lia.
Qed.

(** Element [k] of the view is made of bytes [2k] and [2k+1]. *)
Lemma int16_elements_lookup (data : list byte) (k : nat) (v : Z) :
  int16_elements data !! k = Some v <->
  exists lo hi, data !! (2 * k)%nat = Some lo /\ data !! (2 * k + 1)%nat = Some hi
                /\ v = int16_of_bytes lo hi.
Proof.
  revert k.
  induction data as [|a|a b rest IH] using list_ind2; intros k.
  - split; [discriminate|]. by intros (lo & hi & Hlo & _).
  - split; [discriminate|]. intros (lo & hi & _ & Hhi & _).
    rewrite lookup_ge_None_2 in Hhi by (cbn [length]; lia). discriminate.
  - destruct k as [|k].
    + split.
      * intros [= <-]. by exists a, b.
      * intros (lo & hi & [= <-] & [= <-] & ->). reflexivity.
    + cbn [int16_elements]. rewrite lookup_cons_ne_0 by lia. cbn [pred].
      rewrite IH.
      replace (2 * S k)%nat with (S (S (2 * k))) by lia.
      replace (S (S (2 * k)) + 1)%nat with (S (S (2 * k + 1))) by lia.
      reflexivity.
Qed.

(* ===================================================================== *)
(** * [decodeAudioData] *)
(* ===================================================================== *)

Lemma length_fold_left_insert {A} (f : nat -> A) (idx : list nat) (l : list A) :
  length (fold_left (fun l i => <[i := f i]> l) idx l) = length l.
Proof.
  revert l. induction idx as [|i idx IH]; intros l; [reflexivity|].
  cbn. by rewrite IH, length_insert.
Qed.

Lemma length_fold_left_alter {A} (g : nat -> A -> A) (idx : list nat) (l : list A) :
  length (fold_left (fun l i => alter (g i) i l) idx l) = length l.
Proof.
  revert l. induction idx as [|i idx IH]; intros l; [reflexivity|].
  cbn. by rewrite IH, length_alter.
Qed.

Lemma fold_left_insert_lookup {A} (f : nat -> A) (n : nat) (l : list A) (j : nat) :
  fold_left (fun l i => <[i := f i]> l) (seq 0 n) l !! j =
  if decide (j < n)%nat then (fun _ => f j) <$> l !! j else l !! j.
Proof.
  induction n as [|n IH].
  - cbn. by rewrite decide_False by lia.
  - rewrite seq_S, fold_left_app. cbn [fold_left Nat.add].
    rewrite list_lookup_insert, length_fold_left_insert.
    destruct (decide (n = j /\ (n < length l)%nat)) as [[-> Hn]|Hno].
    + rewrite decide_True by lia.
      destruct (lookup_lt_is_Some_2 l j Hn) as [x ->]. reflexivity.
    + rewrite IH.
      destruct (decide (j < n)%nat); [by rewrite decide_True by lia|].
      destruct (decide (j < S n)%nat); [|reflexivity].
      rewrite (lookup_ge_None_2 l j) by lia. reflexivity.
Qed.

Lemma fold_left_alter_lookup {A} (g : nat -> A -> A) (n : nat) (l : list A) (j : nat) :
  fold_left (fun l i => alter (g i) i l) (seq 0 n) l !! j =
  if decide (j < n)%nat then g j <$> l !! j else l !! j.
Proof.
  induction n as [|n IH].
  - cbn. by rewrite decide_False by lia.
  - rewrite seq_S, fold_left_app. cbn [fold_left Nat.add].
    rewrite list_lookup_alter.
    destruct (decide (n = j)) as [->|Hne].
    + rewrite IH, decide_False, decide_True by lia. reflexivity.
    + rewrite IH. repeat case_decide; try lia; reflexivity.
Qed.

Lemma fill_channel_spec dataInt16 numChannels frameCount channel cd :
  (length cd <= loop_count frameCount)%nat ->
  fill_channel dataInt16 numChannels frameCount channel cd =
  map (decoded_sample dataInt16 numChannels channel) (seq 0 (length cd)).
Proof.
  intros Hlen. apply list_eq. intros j. unfold fill_channel.
  rewrite (fold_left_insert_lookup
             (fun i => sample_of_element (dataInt16 !! (i * numChannels + channel)%nat))).
  change (map ?f ?l) with (f <$> l). rewrite list_lookup_fmap.
  destruct (decide (j < length cd)%nat) as [Hj|Hj].
  - rewrite decide_True by lia. rewrite lookup_seq_lt by lia.
    destruct (lookup_lt_is_Some_2 cd j Hj) as [x ->]. reflexivity.
  - rewrite lookup_seq_ge by lia. rewrite (lookup_ge_None_2 cd j) by lia.
    by case_decide.
Qed.

Lemma fill_channels_spec dataInt16 numChannels frameCount len :
  (len <= loop_count frameCount)%nat ->
  fill_channels dataInt16 numChannels frameCount
    (replicate numChannels (replicate len (num_of_Z 0))) =
  map (fun c => map (decoded_sample dataInt16 numChannels c) (seq 0 len))
      (seq 0 numChannels).
Proof.
  intros Hlen. apply list_eq. intros c. unfold fill_channels.
  rewrite (fold_left_alter_lookup
             (fun channel => fill_channel dataInt16 numChannels frameCount channel)).
  change (map ?f ?l) with (f <$> l). rewrite list_lookup_fmap.
  destruct (decide (c < numChannels)%nat) as [Hc|Hc].
  - rewrite lookup_replicate_2, lookup_seq_lt by lia. cbn.
    rewrite fill_channel_spec by (by rewrite length_replicate).
    by rewrite length_replicate.
  - rewrite lookup_seq_ge by lia. cbn.
    apply lookup_replicate_None. lia.
Qed.

Lemma num_div_nat (n ch : nat) :
  ch <> 0%nat ->
  num_div (num_of_nat n) (num_of_nat ch) =
  Fin (inject_Z (Z.of_nat n) / inject_Z (Z.of_nat ch)).
Proof.
  intros Hch. unfold num_div, num_of_nat, num_of_Z.
  destruct (Qeq_bool (inject_Z (Z.of_nat ch)) 0) eqn:Hz; [|reflexivity].
  apply Qeq_bool_eq in Hz. unfold Qeq in Hz. cbn in Hz. lia.
Qed.

Lemma ToUint32_frameCount (n ch : nat) :
  ToUint32 (num_div (num_of_nat n) (num_of_nat ch)) =
  (Z.of_nat n / Z.of_nat ch) mod 4294967296.
Proof.
  destruct (decide (ch = 0%nat)) as [->|Hch].
  - cbn [Z.of_nat]. rewrite Z.div_0_r. unfold num_div, num_of_nat, num_of_Z.
    change (Qeq_bool (inject_Z (Z.of_nat 0)) 0) with true. cbv iota.
    by destruct (inject_Z (Z.of_nat n) ?= 0)%Q.
  - rewrite num_div_nat by assumption. unfold ToUint32.
    rewrite Qtruncate_Zdiv by lia. reflexivity.
Qed.

Lemma frameLength_le_loop_count (n ch : nat) :
  ch <> 0%nat ->
  (Z.to_nat (ToUint32 (num_div (num_of_nat n) (num_of_nat ch)))
   <= loop_count (num_div (num_of_nat n) (num_of_nat ch)))%nat.
Proof.
  intros Hch. rewrite ToUint32_frameCount. rewrite num_div_nat by assumption.
  unfold loop_count.
  set (q := (inject_Z (Z.of_nat n) / inject_Z (Z.of_nat ch))%Q).
  pose proof (Qle_floor_ceiling q) as Hfc.
  assert (Hq : Qfloor q = Z.of_nat n / Z.of_nat ch)
    by (unfold q; by rewrite <- Zdiv_Qdiv).
  assert (0 <= Z.of_nat n / Z.of_nat ch) by (apply Z.div_pos; lia).
  assert ((Z.of_nat n / Z.of_nat ch) mod 4294967296 <= Z.of_nat n / Z.of_nat ch)
    by (apply Z.mod_le; lia).
  rewrite <- Zle_Qle in Hfc.
  apply Z2Nat.inj_le; [apply Z.mod_pos_bound| |]; lia.
Qed.

Lemma decodeAudioData_Ok (data : list byte) (sampleRate : number) (numChannels : nat) :
  Nat.even (length data) = true ->
  numChannels <> 0%nat ->
  frameLength data numChannels <> 0%nat ->
  decodeAudioData data sampleRate numChannels =
  Ok {| ab_sampleRate := sampleRate;
        ab_length := frameLength data numChannels;
        ab_channels :=
          map (fun c => map (decoded_sample (int16_elements data) numChannels c)
                            (seq 0 (frameLength data numChannels)))
              (seq 0 numChannels) |}.
Proof.
  intros Heven Hch Hlen. unfold decodeAudioData, Int16Array_of_buffer.
  rewrite Heven. cbn [result_bind Ok].
  unfold createBuffer. unfold frameLength in *.
  rewrite <- length_int16_elements in *.
  rewrite <- ToUint32_frameCount in *.
  set (fc := num_div _ _) in *.
  apply Nat.eqb_neq in Hch, Hlen. rewrite Hch, Hlen. cbn.
  unfold Ok. do 2 f_equal.
  apply fill_channels_spec. subst fc. apply frameLength_le_loop_count.
  by apply Nat.eqb_neq.
Qed.

Lemma decodeAudioData_failed (data : list byte) (sampleRate : number) (numChannels : nat) :
  failed (decodeAudioData data sampleRate numChannels) = true <->
  Nat.even (length data) = false \/ numChannels = 0%nat
  \/ frameLength data numChannels = 0%nat.
Proof.
  destruct (Nat.even (length data)) eqn:Heven.
  2:{ unfold decodeAudioData, Int16Array_of_buffer. rewrite Heven. cbn. tauto. }
  destruct (decide (numChannels = 0%nat)) as [->|Hch].
  { unfold decodeAudioData, Int16Array_of_buffer. rewrite Heven. cbn. tauto. }
  destruct (decide (frameLength data numChannels = 0%nat)) as [Hz|Hnz].
  - pose proof Hz as Hfl.
    unfold decodeAudioData, Int16Array_of_buffer. rewrite Heven.
    cbn [result_bind Ok]. unfold createBuffer.
    unfold frameLength in Hz. rewrite <- length_int16_elements in Hz.
    rewrite <- ToUint32_frameCount in Hz. rewrite Hz.
    rewrite orb_true_r. cbn. tauto.
  - rewrite decodeAudioData_Ok by assumption. cbn.
    split; [discriminate|]. intros [?|[?|?]]; congruence.
Qed.

(* ===================================================================== *)
(** * The PCM stage of [base64EncodeAudio] *)
(* ===================================================================== *)

Lemma clamp_unit_range (q : Q) : in_unit_range (clamp_unit q).
Proof.
  unfold in_unit_range, clamp_unit. split.
  - apply Q.le_max_l.
  - apply Q.max_lub; [discriminate|]. apply Q.le_min_l.
Qed.

Lemma clamp_unit_id (q : Q) : in_unit_range q -> (clamp_unit q == q)%Q.
Proof.
  intros [Hlo Hhi]. unfold clamp_unit.
  rewrite (Q.min_r 1 q) by assumption. by apply Q.max_r.
Qed.

(** The clamp of the code is the clamp of the specification. *)
Lemma Math_clamp (q : Q) :
  Math_max (num_of_Z (-1)) (Math_min (num_of_Z 1) (Fin q)) = Fin (clamp_unit q).
Proof.
  unfold Math_min, num_of_Z, num_lt.
  change (inject_Z 1) with 1%Q. change (inject_Z (-1)) with (-1)%Q.
  unfold clamp_unit, Qmax, Qmin, GenericMinMax.gmax, GenericMinMax.gmin.
  rewrite <- (Qcompare_antisym q 1).
  destruct (q ?= 1)%Q; cbn [CompOpp]; unfold Math_max, num_lt;
    by destruct (-1 ?= _)%Q.
Qed.

Lemma Qtruncate_scaled_range (c : Q) :
  in_unit_range c ->
  -32768 <= Qtruncate (if Qlt_le_dec c 0 then c * 32768 else c * 32767)%Q <= 32767.
Proof.
  intros [Hlo Hhi]. destruct (Qlt_le_dec c 0) as [Hneg|Hpos].
  - rewrite Qtruncate_ceiling by lra.
    assert (H1 : (inject_Z (-32768) <= c * 32768)%Q) by (unfold inject_Z; lra).
    assert (H2 : (c * 32768 <= inject_Z 32767)%Q) by (unfold inject_Z; lra).
    apply Qceiling_resp_le in H1, H2. rewrite Qceiling_Z in H1, H2. lia.
  - rewrite Qtruncate_floor by lra.
    assert (H1 : (inject_Z (-32768) <= c * 32767)%Q) by (unfold inject_Z; lra).
    assert (H2 : (c * 32767 <= inject_Z 32767)%Q) by (unfold inject_Z; lra).
    apply Qfloor_resp_le in H1, H2. rewrite Qfloor_Z in H1, H2. lia.
Qed.

Lemma pcm16_of_sample_range (q : Q) : -32768 <= pcm16_of_sample q <= 32767.
Proof. apply Qtruncate_scaled_range, clamp_unit_range. Qed.

Lemma encode_sample_range (x : number) : -32768 <= encode_sample x <= 32767.
Proof.
  unfold encode_sample.
  match goal with |- _ <= ToInt16 ?y <= _ => destruct y end; cbn [ToInt16];
    try lia; apply wrap_int16_range.
Qed.

(** On a finite sample the loop body computes what the specification
    describes. *)
Lemma encode_sample_Fin (q : Q) : encode_sample (Fin q) = pcm16_of_sample q.
Proof.
  unfold encode_sample, pcm16_of_sample. rewrite Math_clamp.
  set (c := clamp_unit q).
  pose proof (Qtruncate_scaled_range c (clamp_unit_range q)) as Hr.
  unfold num_lt, num_of_Z. change (inject_Z 0) with 0%Q.
  destruct (Qlt_le_dec c 0) as [Hneg|Hpos].
  - assert (Hlt : (c ?= 0)%Q = Lt) by (by apply Qlt_alt).
    rewrite Hlt. cbn [num_mul ToInt16].
    by apply wrap_int16_id.
  - assert (Hc : (c ?= 0)%Q <> Lt) by (rewrite <- Qlt_alt; lra).
    destruct (c ?= 0)%Q; try congruence; cbn [num_mul ToInt16];
      by apply wrap_int16_id.
Qed.

Lemma little_endian16_int16_bytes (v : Z) : little_endian16 v = int16_bytes v.
Proof.
  unfold little_endian16, int16_bytes.
  change 255 with (Z.ones 8). rewrite !Z.land_ones by lia.
  rewrite Z.shiftr_div_pow2 by lia. change (2 ^ 8) with 256.
  unfold byte_of_Z. by rewrite !Z.mod_mod by lia.
Qed.

Lemma floatToPCM16_refines (samples : list Q) :
  floatToPCM16 (map Fin samples) = floatToPCM16_spec samples.
Proof.
  unfold floatToPCM16, floatToPCM16_spec, Uint8Array_of_Int16Array.
  induction samples as [|q samples IH]; [reflexivity|].
  cbn [map flat_map]. rewrite IH, encode_sample_Fin.
  by rewrite little_endian16_int16_bytes.
Qed.

Lemma length_floatToPCM16 (float32Array : list number) :
  length (floatToPCM16 float32Array) = (2 * length float32Array)%nat.
Proof.
  unfold floatToPCM16.
  by rewrite length_Uint8Array_of_Int16Array, length_map.
Qed.

Lemma int16_elements_floatToPCM16 (float32Array : list number) :
  int16_elements (floatToPCM16 float32Array) = map encode_sample float32Array.
Proof.
  apply int16_elements_Uint8Array, Forall_forall. intros v Hv.
  apply list_elem_of_In, in_map_iff in Hv. destruct Hv as (x & <- & _).
  apply encode_sample_range.
Qed.

(** A sample at or above 1 is encoded as 32767, one at or below -1 as
    -32768. *)
Lemma encode_sample_high (q : Q) : (1 <= q)%Q -> encode_sample (Fin q) = 32767.
Proof.
  intros Hq. unfold encode_sample, Math_min, num_of_Z, num_lt.
  change (inject_Z 1) with 1%Q.
  assert (Hc : (q ?= 1)%Q <> Lt) by (rewrite <- Qlt_alt; lra).
  destruct (q ?= 1)%Q; try congruence; reflexivity.
Qed.

Lemma encode_sample_low (q : Q) : (q <= -1)%Q -> encode_sample (Fin q) = -32768.
Proof.
  intros Hq. unfold encode_sample, Math_min, num_of_Z, num_lt.
  change (inject_Z 1) with 1%Q. change (inject_Z (-1)) with (-1)%Q.
  assert (Hlt : (q ?= 1)%Q = Lt) by (rewrite <- Qlt_alt; lra).
  rewrite Hlt. unfold Math_max, num_lt.
  assert (Hc : (-1 ?= q)%Q <> Lt) by (rewrite <- Qlt_alt; lra).
  destruct (-1 ?= q)%Q; try congruence; reflexivity.
Qed.

(** C3. [floatToPCM16], the PCM stage of [base64EncodeAudio], is a total
    function: on every sequence of finite samples it computes what the
    specification describes (clamp to [-1,1], scale by 32768 below zero and
    by 32767 from zero on, truncate, two little-endian bytes per sample,
    every encoded value within the signed 16-bit range); a sample out of
    range is encoded as the bound it is clamped to, and whatever the
    samples are, also the infinities and [NaN], the output has two bytes
    per sample. *)
Theorem floatToPCM16_total_clamping :
  forall (samples : list Q) (float32Array : list number) (q : Q),
    floatToPCM16 (map Fin samples) = floatToPCM16_spec samples
    /\ Forall (fun q => -32768 <= pcm16_of_sample q <= 32767) samples
    /\ length (floatToPCM16 float32Array) = (2 * length float32Array)%nat
    /\ ((1 <= q)%Q -> floatToPCM16 [Fin q] = little_endian16 32767)
    /\ ((q <= -1)%Q -> floatToPCM16 [Fin q] = little_endian16 (-32768))
    /\ floatToPCM16 [PosInf; NegInf; NaN]
       = little_endian16 32767 ++ little_endian16 (-32768) ++ little_endian16 0.
Proof.
  intros samples float32Array q. repeat split.
  - apply floatToPCM16_refines.
  - apply Forall_forall. intros x _. apply pcm16_of_sample_range.
  - apply length_floatToPCM16.
  - intros Hq. unfold floatToPCM16. cbn [map].
    rewrite encode_sample_high by assumption.
    cbn [Uint8Array_of_Int16Array flat_map]. rewrite app_nil_r.
    by rewrite little_endian16_int16_bytes.
  - intros Hq. unfold floatToPCM16. cbn [map].
    rewrite encode_sample_low by assumption.
    cbn [Uint8Array_of_Int16Array flat_map]. rewrite app_nil_r.
    by rewrite little_endian16_int16_bytes.
Qed.

Lemma floatToPCM16_total_clamping_witness :
  floatToPCM16 [Fin 5] = little_endian16 32767
  /\ floatToPCM16 [Fin (-3)] = little_endian16 (-32768).
Proof.
  split.
  - apply (floatToPCM16_total_clamping [] [] 5). unfold Qle. cbn. lia.
  - apply (floatToPCM16_total_clamping [] [] (-3)). unfold Qle. cbn. lia.
Defined.

(* ===================================================================== *)
(** * The round trip of the codec *)
(* ===================================================================== *)

Lemma sample_of_element_Some (v : Z) :
  sample_of_element (Some v) = Fin (inject_Z v / inject_Z 32768).
Proof. reflexivity. Qed.

Lemma roundtrip_error (q : Q) :
  in_unit_range q ->
  within_two_steps q (inject_Z (pcm16_of_sample q) / inject_Z 32768).
Proof.
  intros Hq. pose proof (clamp_unit_id q Hq) as Hc. destruct Hq as [Hlo Hhi].
  unfold pcm16_of_sample. set (c := clamp_unit q) in *.
  unfold within_two_steps, Qdiv. change (/ inject_Z 32768)%Q with (1 # 32768)%Q.
  destruct (Qlt_le_dec c 0) as [Hneg|Hpos].
  - rewrite Qtruncate_ceiling by lra.
    pose proof (Qle_ceiling (c * 32768)) as H1.
    pose proof (Qceiling_lt (c * 32768)) as H2.
    unfold Z.sub in H2. rewrite inject_Z_plus, inject_Z_opp in H2.
    change (inject_Z 1) with 1%Q in H2.
    set (T := inject_Z (Qceiling (c * 32768))) in *.
    split; [|intros _]; apply Qabs_Qlt_condition; lra.
  - rewrite Qtruncate_floor by lra.
    pose proof (Qfloor_le (c * 32767)) as H1.
    pose proof (Qlt_floor (c * 32767)) as H2.
    rewrite inject_Z_plus in H2. change (inject_Z 1) with 1%Q in H2.
    set (T := inject_Z (Qfloor (c * 32767))) in *.
    split; [|intros Hz]; apply Qabs_Qlt_condition; lra.
Qed.

Lemma frameLength_one_channel (data : list byte) :
  Z.of_nat (length data) < 8589934592 ->
  frameLength data 1 = (length data / 2)%nat.
Proof.
  intros Hlen. unfold frameLength. rewrite Z.div_1_r.
  rewrite Z.mod_small; [lia|].
  pose proof (Nat.Div0.div_le_upper_bound (length data) 2 (length data)). lia.
Qed.

Lemma decodeAudioData_floatToPCM16 (float32Array : list number) :
  float32Array <> [] ->
  Z.of_nat (length float32Array) < 4294967296 ->
  decodeAudioData (floatToPCM16 float32Array) outputSampleRate 1 =
  Ok {| ab_sampleRate := outputSampleRate;
        ab_length := length float32Array;
        ab_channels :=
          [map (fun x => sample_of_element (Some (encode_sample x))) float32Array] |}.
Proof.
  intros Hne Hlen.
  assert (Hfl : frameLength (floatToPCM16 float32Array) 1 = length float32Array).
  { rewrite frameLength_one_channel by (rewrite length_floatToPCM16; lia).
    rewrite length_floatToPCM16, Nat.mul_comm. apply Nat.div_mul. lia. }
  rewrite decodeAudioData_Ok.
  - rewrite Hfl. unfold Ok. do 2 f_equal. cbn [seq map]. f_equal.
    rewrite int16_elements_floatToPCM16.
    apply list_eq. intros i. change (map ?f ?l) with (f <$> l).
    rewrite !list_lookup_fmap.
    destruct (float32Array !! i) as [x|] eqn:Hx.
    + rewrite lookup_seq_lt by (by apply lookup_lt_Some in Hx). cbn.
      unfold decoded_sample. rewrite Nat.mul_1_r, Nat.add_0_r.
      by rewrite list_lookup_fmap, Hx.
    + rewrite lookup_seq_ge by (by apply lookup_ge_None in Hx). reflexivity.
  - rewrite length_floatToPCM16. apply Nat.even_spec. by exists (length float32Array).
  - lia.
  - rewrite Hfl. by destruct float32Array.
Qed.

(** C4, as amended. For every non-empty sequence of samples in [-1,1], the
    encoded samples decode into one channel of the same length, and each
    decoded sample differs from the sample it comes from by less than
    2/32768, and by less than 1/32768 when that sample is not positive. *)
Theorem pcm_roundtrip_two_steps :
  forall s : list Q,
    s <> [] ->
    Z.of_nat (length s) < 4294967296 ->
    Forall in_unit_range s ->
    roundtrip within_two_steps s.
Proof.
  intros s Hne Hlen Hs. unfold roundtrip.
  rewrite decodeAudioData_floatToPCM16; [|by destruct s|by rewrite length_map].
  eexists _, _. split; [reflexivity|]. cbn [ab_channels].
  split; [reflexivity|]. split; [by rewrite !length_map|].
  intros i q Hq.
  exists (inject_Z (pcm16_of_sample q) / inject_Z 32768)%Q. split.
  - change (map ?f ?l) with (f <$> l). rewrite !list_lookup_fmap, Hq.
    change (Some (sample_of_element (Some (encode_sample (Fin q)))) =
            Some (Fin (inject_Z (pcm16_of_sample q) / inject_Z 32768))).
    by rewrite encode_sample_Fin.
  - apply roundtrip_error. rewrite Forall_forall in Hs.
    apply Hs. by eapply list_elem_of_lookup_2.
Qed.

Lemma pcm_roundtrip_two_steps_witness :
  roundtrip within_two_steps [1; (-1 # 2); (65535 # 65536)]%Q.
Proof.
  apply pcm_roundtrip_two_steps.
  - discriminate.
  - cbn. lia.
  - repeat constructor; unfold Qle; cbn; lia.
Defined.

(** C4, as stated, fails: the sample 65535/65536 comes back as
    32766/32768, which is 1.5/32768 away; and the empty sequence does not
    decode at all. *)
Lemma pcm_roundtrip_one_step_fails :
  Forall in_unit_range [65535 # 65536]%Q
  /\ ~ roundtrip within_one_step [65535 # 65536]%Q
  /\ ~ roundtrip within_one_step [].
Proof.
  split; [|split].
  - repeat constructor; unfold Qle; cbn; lia.
  - intros (buffer & channel & Hd & Hch & _ & Hclose).
    assert (Hv : decodeAudioData (floatToPCM16 (map Fin [65535 # 65536]%Q))
                   outputSampleRate 1
                 = Ok {| ab_sampleRate := outputSampleRate; ab_length := 1;
                         ab_channels := [[Fin (32766 # 32768)]] |})
      by (vm_compute; reflexivity).
    rewrite Hv in Hd. injection Hd as <-. cbn in Hch. injection Hch as <-.
    destruct (Hclose 0%nat (65535 # 65536)%Q eq_refl) as (q' & Hq' & Hbound).
    injection Hq' as <-. unfold within_one_step in Hbound.
    vm_compute in Hbound. by apply Hbound.
  - intros (buffer & channel & Hd & _). vm_compute in Hd. discriminate.
Qed.

(* ===================================================================== *)
(** * The transport encoding *)
(* ===================================================================== *)

(** C5. For every byte sequence, [decode] (the specification's
    [transportTextToBytes]) gives back exactly the bytes that the
    transport stage of [base64EncodeAudio] (its [bytesToTransportText])
    was given. *)
Theorem transport_text_roundtrip :
  forall bytes : list byte, decode (bytesToTransportText bytes) = Ok bytes.
Proof.
  intros bytes. unfold decode, bytesToTransportText.
  rewrite atob_btoa. cbn [result_bind Ok].
  by rewrite list_byte_of_string_of_list_byte.
Qed.

(* ===================================================================== *)
(** * Length validation in [decodeAudioData] *)
(* ===================================================================== *)





(* ===================================================================== *)
(** * [onMessage] *)
(* ===================================================================== *)

Ltac unfold_M :=
  unfold exec, outcome, try_catch, console_error, release, modify, gets, lift,
    throw, mbind, mret, M_bind, M_ret, bind, ret, Ok, Throw in *.

Lemma Math_max_Fin (a b : Q) :
  exists m, Math_max (Fin a) (Fin b) = Fin m
            /\ (a <= m)%Q /\ (b <= m)%Q
            /\ ((b < a)%Q -> m = a) /\ ((a < b)%Q -> m = b).
Proof.
  unfold Math_max, num_lt. destruct (Qcompare_spec a b) as [Heq|Hlt|Hgt].
  - exists a. repeat split; intros; try reflexivity; lra.
  - exists b. repeat split; intros; try reflexivity; lra.
  - exists a. repeat split; intros; try reflexivity; lra.
Qed.

Section OnMessage.
Variables (currentTime : Q) (message : LiveServerMessage) (s : LiveSession).

Lemma onMessage_no_audio :
  truthy (inline_audio message) = None ->
  onMessage currentTime message s = (Ok tt, s).
Proof. intros H. unfold onMessage. by rewrite H. Qed.

Lemma onMessage_decode_failure payload e :
  truthy (inline_audio message) = Some payload ->
  decode_payload payload = Throw e ->
  onMessage currentTime message s =
  (Ok tt, set_console (console s ++ ["Error decoding audio chunk"%string]) s).
Proof.
  intros H Hd. unfold onMessage. rewrite H. unfold_M. by rewrite Hd.
Qed.

Lemma onMessage_started payload buffer t :
  truthy (inline_audio message) = Some payload ->
  decode_payload payload = Ok buffer ->
  Math_max (Fin currentTime) (nextStartTime s) = Fin t ->
  (0 <= t)%Q ->
  onMessage currentTime message s =
  (Ok tt,
   set_nextStartTime (num_add (Fin t) (duration buffer))
     (set_started (started s ++ [(Fin t, buffer)])
        (set_nextStartTime (Fin t) s))).
Proof.
  intros H Hd Hmax Ht. unfold onMessage. rewrite H. unfold_M. rewrite Hd.
  cbn [nextStartTime set_nextStartTime]. rewrite Hmax. unfold source_start.
  apply Qle_bool_iff in Ht. rewrite Ht. reflexivity.
Qed.

Lemma onMessage_start_refused payload buffer t :
  truthy (inline_audio message) = Some payload ->
  decode_payload payload = Ok buffer ->
  Math_max (Fin currentTime) (nextStartTime s) = Fin t ->
  (t < 0)%Q ->
  onMessage currentTime message s =
  (Ok tt,
   set_console (console s ++ ["Error decoding audio chunk"%string])
     (set_nextStartTime (Fin t) s)).
Proof.
  intros H Hd Hmax Ht. unfold onMessage. rewrite H. unfold_M. rewrite Hd.
  cbn [nextStartTime set_nextStartTime]. rewrite Hmax. unfold source_start.
  destruct (Qle_bool 0 t) eqn:Hle; [|reflexivity].
  apply Qle_bool_iff in Hle. lra.
Qed.

(** No exception leaves [onMessage]. *)
Lemma onMessage_never_throws : outcome (onMessage currentTime message) s = Ok tt.
Proof.
  unfold onMessage. destruct (truthy (inline_audio message)) as [payload|];
    [|reflexivity].
  unfold_M. destruct (decode_payload payload) as [e|buffer]; [reflexivity|].
  cbn [nextStartTime set_nextStartTime]. unfold source_start.
  destruct (Math_max (Fin currentTime) (nextStartTime s)) as [t| | |];
    try reflexivity.
  by destruct (Qle_bool 0 t).
Qed.

End OnMessage.

(** A buffer that [decode_payload] returns has a positive duration. *)
Lemma decodeAudioData_Ok_inv data sampleRate numChannels buffer :
  decodeAudioData data sampleRate numChannels = Ok buffer ->
  ab_sampleRate buffer = sampleRate
  /\ ab_length buffer = frameLength data numChannels
  /\ frameLength data numChannels <> 0%nat.
Proof.
  intros Hok.
  assert (Hnf : failed (decodeAudioData data sampleRate numChannels) = false)
    by (by rewrite Hok).
  assert (Hc : ~ (Nat.even (length data) = false \/ numChannels = 0%nat
                  \/ frameLength data numChannels = 0%nat)).
  { rewrite <- decodeAudioData_failed. by rewrite Hnf. }
  rewrite decodeAudioData_Ok in Hok.
  - injection Hok as <-. cbn. tauto.
  - destruct (Nat.even (length data)); tauto.
  - tauto.
  - tauto.
Qed.

Lemma decode_payload_duration payload buffer :
  decode_payload payload = Ok buffer ->
  exists d, duration buffer = Fin d /\ (0 < d)%Q.
Proof.
  unfold decode_payload. destruct (decode payload) as [e|bytes]; [discriminate|].
  cbn [result_bind]. intros Hok.
  apply decodeAudioData_Ok_inv in Hok as (Hrate & Hlen & Hnz).
  unfold duration. rewrite Hrate, Hlen.
  exists (inject_Z (Z.of_nat (frameLength bytes 1)) / inject_Z 24000)%Q.
  split; [reflexivity|].
  apply Qlt_shift_div_l; [reflexivity|]. rewrite Qmult_0_l.
  change 0%Q with (inject_Z 0). rewrite <- Zlt_Qlt. lia.
Qed.

(* ===================================================================== *)
(** * The playback timeline *)
(* ===================================================================== *)

Lemma scheduled_weaken units c c' :
  scheduled units c -> (c <= c')%Q -> scheduled units c'.
Proof.
  intros H Hc. destruct H as [c|units c t buffer d c1 H Hct Hd Hpos Hend].
  - constructor.
  - econstructor; eauto. lra.
Qed.

Lemma scheduled_ends units c :
  scheduled units c ->
  forall u, u ∈ units ->
    exists t d, fst u = Fin t /\ duration (snd u) = Fin d
                /\ (0 < d)%Q /\ (t + d <= c)%Q.
Proof.
  induction 1 as [c|units c t buffer d c' H IH Hct Hd Hpos Hend]; intros u Hu.
  - by apply elem_of_nil in Hu.
  - apply elem_of_app in Hu as [Hu|Hu].
    + destruct (IH u Hu) as (t0 & d0 & ? & ? & ? & ?).
      exists t0, d0. repeat split; auto. lra.
    + apply list_elem_of_singleton in Hu as ->. exists t, d. auto.
Qed.

Lemma scheduled_non_overlapping units c :
  scheduled units c -> non_overlapping units.
Proof.
  induction 1 as [c|units c t buffer d c' H IH Hct Hd Hpos Hend];
    intros i j u1 u2 Hij H1 H2.
  - discriminate.
  - assert (Hj : (j < length (units ++ [(Fin t, buffer)]))%nat)
      by (by eapply lookup_lt_Some).
    rewrite length_app in Hj. cbn in Hj.
    rewrite lookup_app_l in H1 by lia.
    destruct (decide (j < length units)%nat) as [Hlt|Hge].
    + rewrite lookup_app_l in H2 by lia. exact (IH i j u1 u2 Hij H1 H2).
    + assert (j = length units) as -> by lia.
      rewrite lookup_app_r, Nat.sub_diag in H2 by lia. injection H2 as <-.
      destruct (scheduled_ends _ _ H u1) as (t1 & d1 & Ht1 & Hd1 & _ & Hle).
      { by eapply list_elem_of_lookup_2. }
      unfold unit_end. rewrite Ht1, Hd1. cbn. apply Qle_bool_iff. lra.
Qed.

Lemma scheduled_positive units c :
  scheduled units c ->
  Forall (fun u => num_lt (num_of_Z 0) (duration (snd u)) = true) units.
Proof.
  intros H. apply Forall_forall. intros u Hu.
  destruct (scheduled_ends _ _ H u Hu) as (t & d & _ & -> & Hd & _).
  unfold num_lt, num_of_Z. change (inject_Z 0) with 0%Q.
  assert (Hlt : (0 ?= d)%Q = Lt) by (by apply Qlt_alt).
  by rewrite Hlt.
Qed.

Lemma num_leb_refl_Fin (c : Q) : num_leb (Fin c) (Fin c) = true.
Proof. cbn. apply Qle_bool_iff. lra. Qed.

Lemma onMessage_timeline currentTime message s :
  timeline_ok s ->
  timeline_ok (exec (onMessage currentTime message) s)
  /\ num_leb (nextStartTime s)
             (nextStartTime (exec (onMessage currentTime message) s)) = true.
Proof.
  intros (c & Hc & Hs). unfold exec.
  destruct (truthy (inline_audio message)) as [payload|] eqn:Hp.
  2:{ rewrite onMessage_no_audio by assumption. cbn [snd]. split.
      - by exists c.
      - rewrite Hc. apply num_leb_refl_Fin. }
  destruct (decode_payload payload) as [e|buffer] eqn:Hd.
  { erewrite onMessage_decode_failure by eassumption. cbn [snd]. split.
    - by exists c.
    - cbn [nextStartTime set_console]. rewrite Hc. apply num_leb_refl_Fin. }
  destruct (Math_max_Fin currentTime c) as (t & Hmax & Hnow & Hct & _).
  rewrite <- Hc in Hmax.
  destruct (decode_payload_duration _ _ Hd) as (d & Hdur & Hpos).
  destruct (Qlt_le_dec t 0) as [Hneg|Hnonneg].
  - erewrite onMessage_start_refused by eassumption. cbn [snd]. split.
    + exists t. split; [reflexivity|]. cbn [started set_console set_nextStartTime].
      by eapply scheduled_weaken.
    + cbn [nextStartTime set_console set_nextStartTime]. rewrite Hc. cbn.
      by apply Qle_bool_iff.
  - erewrite onMessage_started by eassumption. cbn [snd]. split.
    + exists (t + d)%Q. split.
      * cbn [nextStartTime set_nextStartTime]. by rewrite Hdur.
      * cbn [started set_started set_nextStartTime].
        econstructor; eauto. lra.
    + cbn [nextStartTime set_nextStartTime]. rewrite Hc, Hdur. cbn.
      apply Qle_bool_iff. lra.
Qed.

Lemma handle_keeps_timeline e s :
  (forall currentTime message, e <> EvMessage currentTime message) ->
  nextStartTime (exec (handle e) s) = nextStartTime s
  /\ started (exec (handle e) s) = started s.
Proof.
  intros He. destruct e as [r| | |inputData|currentTime message|];
    try (by destruct (He currentTime message)); destruct s; unfold handle.
  - unfold onOpen. unfold_M. by destruct r.
  - unfold session_fulfil. unfold_M. cbn. by destruct session0.
  - unfold session_reject. unfold_M. cbn. by destruct session0.
  - unfold onaudioprocess, session_then_send. unfold_M. cbn.
    destruct processor0; [|done]. by destruct session0.
  - unfold disconnect, AudioContext_close. unfold_M. cbn.
    by destruct processor0, inputSource0, inputContext0, outputContext0.
Qed.

Lemma handle_timeline e s :
  timeline_ok s ->
  timeline_ok (exec (handle e) s)
  /\ num_leb (nextStartTime s) (nextStartTime (exec (handle e) s)) = true.
Proof.
  intros Hok. destruct e as [r| | |inputData|currentTime message|];
    try (by apply onMessage_timeline);
    (match goal with |- context [handle ?e] =>
       destruct (handle_keeps_timeline e s) as [Hn Hs]; [discriminate|] end;
     destruct Hok as (c & Hc & Hsch); split;
     [exists c; by rewrite Hn, Hs | rewrite Hn, Hc; apply num_leb_refl_Fin]).
Qed.

Lemma run_timeline es s : timeline_ok s -> timeline_ok (run es s).
Proof.
  revert s. induction es as [|e es IH]; intros s Hs; [exact Hs|].
  cbn. apply IH. by apply handle_timeline.
Qed.

Lemma constructor_timeline voice context lang :
  timeline_ok (constructor voice context lang).
Proof. exists 0%Q. split; [reflexivity|]. constructor. Qed.

(** C1. In every run of a session from its construction, the units that
    [onMessage] has started do not overlap: a unit started after another
    starts no earlier than the start of that one plus its duration (and
    every started unit has a positive duration); and whatever happens
    next, [nextStartTime] does not decrease. *)
Theorem scheduler_non_overlap :
  forall (voice context : string) (lang : Language) (es : list event) (e : event),
    let s := run es (constructor voice context lang) in
    non_overlapping (started s)
    /\ Forall (fun u => num_lt (num_of_Z 0) (duration (snd u)) = true) (started s)
    /\ num_leb (nextStartTime s) (nextStartTime (exec (handle e) s)) = true.
Proof.
  intros voice context lang es e s.
  assert (Hok : timeline_ok s) by apply run_timeline, constructor_timeline.
  pose proof (handle_timeline e s Hok) as [_ Hmono].
  destruct Hok as (c & _ & Hs).
  split; [by eapply scheduled_non_overlapping|].
  split; [by eapply scheduled_positive|exact Hmono].
Qed.

(* ===================================================================== *)
(** * Scheduling one unit *)
(* ===================================================================== *)

Lemma decode_payload_truthy payload buffer :
  decode_payload payload = Ok buffer ->
  truthy (inline_audio (audio_message payload)) = Some payload.
Proof.
  destruct payload; [|reflexivity]. intros H. vm_compute in H. discriminate.
Qed.

(** The buffer that a frame of captured samples, sent back as a payload,
    decodes into. *)
Lemma decode_payload_base64EncodeAudio (float32Array : list number) :
  float32Array <> [] ->
  Z.of_nat (length float32Array) < 4294967296 ->
  decode_payload (base64EncodeAudio float32Array) =
  Ok {| ab_sampleRate := outputSampleRate;
        ab_length := length float32Array;
        ab_channels :=
          [map (fun x => sample_of_element (Some (encode_sample x))) float32Array] |}.
Proof.
  intros Hne Hlen. unfold decode_payload, base64EncodeAudio.
  rewrite decode_bytesToTransportText. cbn [result_bind Ok].
  by apply decodeAudioData_floatToPCM16.
Qed.

(** C2. When [onMessage] receives a unit (a payload that decodes) at
    clock time [currentTime], it starts the unit at
    [max(currentTime, nextStartTime)] and moves [nextStartTime] to that
    start plus the duration of the unit; so when the clock has passed the
    cursor, the unit starts at the clock time. In a fresh session, units
    of 0.5 s, 0.3 s and 0.2 s received at clock times 0, 2 and 2 are
    started at 0, 2 and 2.3. *)
Theorem scheduler_catch_up :
  forall (s : LiveSession) (currentTime c : Q) (message : LiveServerMessage)
         (payload : string) (buffer : AudioBuffer)
         (voice context : string) (lang : Language)
         (p1 p2 p3 : string) (b1 b2 b3 : AudioBuffer) (d1 d2 d3 : Q),
    (truthy (inline_audio message) = Some payload ->
     decode_payload payload = Ok buffer ->
     nextStartTime s = Fin c ->
     (0 <= currentTime)%Q ->
     let s' := exec (onMessage currentTime message) s in
     started s' =
       started s ++ [(Math_max (Fin currentTime) (nextStartTime s), buffer)]
     /\ nextStartTime s' =
          num_add (Math_max (Fin currentTime) (nextStartTime s)) (duration buffer)
     /\ ((c < currentTime)%Q ->
         started s' = started s ++ [(Fin currentTime, buffer)]))
    /\ (decode_payload p1 = Ok b1 -> decode_payload p2 = Ok b2 ->
        decode_payload p3 = Ok b3 ->
        duration b1 = Fin d1 -> duration b2 = Fin d2 -> duration b3 = Fin d3 ->
        (d1 == 1 # 2)%Q -> (d2 == 3 # 10)%Q -> (d3 == 2 # 10)%Q ->
        exists t3,
          started (run [EvMessage 0 (audio_message p1);
                        EvMessage 2 (audio_message p2);
                        EvMessage 2 (audio_message p3)]
                       (constructor voice context lang))
          = [(Fin 0, b1); (Fin 2, b2); (Fin t3, b3)]
          /\ (t3 == 23 # 10)%Q).
Proof.
  intros s currentTime c message payload buffer voice context lang
         p1 p2 p3 b1 b2 b3 d1 d2 d3.
  split.
  - intros Hp Hd Hc Hnow s'.
    destruct (Math_max_Fin currentTime c) as (t & Hmax & Hle & Hct & Hpast & _).
    rewrite <- Hc in Hmax.
    assert (Hs' : s' = set_nextStartTime (num_add (Fin t) (duration buffer))
                         (set_started (started s ++ [(Fin t, buffer)])
                            (set_nextStartTime (Fin t) s))).
    { unfold s', exec.
      rewrite (onMessage_started _ _ _ payload buffer t Hp Hd Hmax); [reflexivity|].
      by eapply Qle_trans. }
    rewrite Hs', Hmax. cbn [started nextStartTime set_started set_nextStartTime].
    repeat split. intros Hlt. by rewrite (Hpast Hlt).
  - intros Hb1 Hb2 Hb3 Hd1 Hd2 Hd3 Hq1 Hq2 Hq3.
    exists (2 + d2)%Q. split; [|lra].
    unfold run. cbn [fold_left handle]. unfold exec.
    erewrite (onMessage_started 0 (audio_message p1) _ p1 b1 0);
      [|by eapply decode_payload_truthy|eassumption|reflexivity|lra].
    cbn [snd]. rewrite Hd1.
    erewrite (onMessage_started 2 (audio_message p2) _ p2 b2 2);
      [|by eapply decode_payload_truthy|eassumption| |lra].
    2:{ cbn [nextStartTime set_nextStartTime num_add]. unfold Math_max, num_lt.
        assert (Hlt : (2 ?= 0 + d1)%Q = Gt) by (apply (proj1 (Qgt_alt _ _)); lra).
        by rewrite Hlt. }
    cbn [snd]. rewrite Hd2.
    erewrite (onMessage_started 2 (audio_message p3) _ p3 b3 (2 + d2));
      [|by eapply decode_payload_truthy|eassumption| |lra].
    2:{ cbn [nextStartTime set_nextStartTime num_add]. unfold Math_max, num_lt.
        assert (Hlt : (2 ?= 2 + d2)%Q = Lt) by (apply (proj1 (Qlt_alt _ _)); lra).
        by rewrite Hlt. }
    reflexivity.
Qed.

Lemma decode_payload_silence (n : nat) :
  n <> 0%nat -> Z.of_nat n < 4294967296 ->
  decode_payload (silence n) = Ok (silent_buffer n).
Proof.
  intros Hn Hlen. unfold silence.
  rewrite decode_payload_base64EncodeAudio.
  - rewrite length_replicate. unfold silent_buffer, Ok. do 3 f_equal.
    induction n as [|[|n] IH]; [done|reflexivity|].
    change (replicate (S (S n)) ?x) with (x :: replicate (S n) x).
    cbn [map]. rewrite IH by lia. reflexivity.
  - by destruct n.
  - by rewrite length_replicate.
Qed.

Lemma scheduler_catch_up_witness :
  (exists b, started (exec (onMessage 2 (audio_message (silence 2)))
                           (constructor "Puck" "" en)) = [(Fin 2, b)])
  /\ exists b1 b2 b3 t3,
       started (run [EvMessage 0 (audio_message (silence 12000));
                     EvMessage 2 (audio_message (silence 7200));
                     EvMessage 2 (audio_message (silence 4800))]
                    (constructor "Puck" "" en))
       = [(Fin 0, b1); (Fin 2, b2); (Fin t3, b3)]
       /\ (t3 == 23 # 10)%Q.
Proof.
  destruct (scheduler_catch_up
              (constructor "Puck" "" en) 2 0
              (audio_message (silence 2)) (silence 2) (silent_buffer 2)
              "Puck" "" en
              (silence 12000) (silence 7200) (silence 4800)
              (silent_buffer 12000) (silent_buffer 7200) (silent_buffer 4800)
              (inject_Z (Z.of_nat 12000) / inject_Z 24000)
              (inject_Z (Z.of_nat 7200) / inject_Z 24000)
              (inject_Z (Z.of_nat 4800) / inject_Z 24000)) as [Hstep Hrun].
  split.
  - exists (silent_buffer 2).
    refine (proj2 (proj2 (Hstep _ _ _ _)) _).
    + vm_compute. reflexivity.
    + apply decode_payload_silence; [discriminate|reflexivity].
    + reflexivity.
    + discriminate.
    + reflexivity.
  - exists (silent_buffer 12000), (silent_buffer 7200), (silent_buffer 4800).
    apply Hrun.
    + apply decode_payload_silence; [discriminate|reflexivity].
    + apply decode_payload_silence; [discriminate|reflexivity].
    + apply decode_payload_silence; [discriminate|reflexivity].
    + reflexivity.
    + reflexivity.
    + reflexivity.
    + vm_compute. reflexivity.
    + vm_compute. reflexivity.
    + vm_compute. reflexivity.
Defined.

(* ===================================================================== *)
(** * Messages that schedule nothing *)
(* ===================================================================== *)

Lemma same_but_console_timeline s1 s2 :
  same_but_console s1 s2 ->
  nextStartTime s1 = nextStartTime s2 /\ started s1 = started s2.
Proof.
  unfold same_but_console. intros H. split.
  - apply (f_equal nextStartTime) in H. exact H.
  - apply (f_equal started) in H. exact H.
Qed.

Lemma handle_same_but_console e s1 s2 :
  same_but_console s1 s2 ->
  same_but_console (exec (handle e) s1) (exec (handle e) s2).
Proof.
  unfold same_but_console. destruct s1, s2. cbn. intros [= -> -> -> -> -> -> -> -> -> -> -> ->].
  destruct e as [r| | |inputData|currentTime message|]; unfold handle.
  - unfold onOpen. unfold_M. by destruct r.
  - unfold session_fulfil. unfold_M. cbn. by destruct session1.
  - unfold session_reject. unfold_M. cbn. by destruct session1.
  - unfold onaudioprocess, session_then_send. unfold_M. cbn.
    destruct processor1; [|done]. by destruct session1.
  - unfold onMessage.
    destruct (truthy (inline_audio message)) as [payload|]; [|reflexivity].
    unfold_M. destruct (decode_payload payload) as [e|buffer]; [reflexivity|].
    cbn [nextStartTime set_nextStartTime]. unfold source_start.
    destruct (Math_max (Fin currentTime) nextStartTime1) as [t| | |];
      try reflexivity.
    by destruct (Qle_bool 0 t).
  - unfold disconnect, AudioContext_close. unfold_M. cbn.
    by destruct processor1, inputSource1, inputContext1, outputContext1.
Qed.

Lemma run_same_but_console es s1 s2 :
  same_but_console s1 s2 -> same_but_console (run es s1) (run es s2).
Proof.
  revert s1 s2. induction es as [|e es IH]; intros s1 s2 H; [exact H|].
  cbn. by apply IH, handle_same_but_console.
Qed.

(** C7. Whatever the state of the session, when the payload of a message
    does not decode, [onMessage] returns normally, starts nothing and
    leaves [nextStartTime] as it was: the session differs from the one
    before at most in the console. Whatever happens afterwards, the
    units started and the cursor are those of the run in which the
    message never came. *)
Theorem decode_failure_isolated :
  forall (s : LiveSession) (currentTime : Q) (message : LiveServerMessage)
         (payload : string) (e : exn) (later : list event),
    truthy (inline_audio message) = Some payload ->
    decode_payload payload = Throw e ->
    let s' := exec (onMessage currentTime message) s in
    outcome (onMessage currentTime message) s = Ok tt
    /\ nextStartTime s' = nextStartTime s
    /\ started s' = started s
    /\ same_but_console s' s
    /\ nextStartTime (run later s') = nextStartTime (run later s)
    /\ started (run later s') = started (run later s).
Proof.
  intros s currentTime message payload e later Hp Hd s'.
  assert (Hsame : same_but_console s' s).
  { unfold s', exec. by erewrite onMessage_decode_failure by eassumption. }
  split; [apply onMessage_never_throws|].
  destruct (same_but_console_timeline _ _ Hsame) as [Hn Hs].
  destruct (same_but_console_timeline _ _ (run_same_but_console later _ _ Hsame))
    as [Hn' Hs'].
  auto.
Qed.

Lemma decode_failure_isolated_witness :
  let s := exec (onMessage 0 (audio_message (silence 2))) open_session in
  let s' := exec (onMessage 1 (audio_message "AA==")) s in
  nextStartTime s' = nextStartTime s
  /\ started (run [EvMessage 1 (audio_message (silence 1))] s')
     = started (run [EvMessage 1 (audio_message (silence 1))] s).
Proof.
  intros s s'.
  destruct (decode_failure_isolated s 1 (audio_message "AA==") "AA==" RangeError
              [EvMessage 1 (audio_message (silence 1))])
    as (_ & Hn & _ & _ & _ & Hs).
  - reflexivity.
  - vm_compute. reflexivity.
  - split; [exact Hn|exact Hs].
Defined.

(** C10. A message without inline audio data (or whose data is the empty
    string) leaves the whole session as it was: [onMessage] returns
    normally and the state after is the state before. *)
Theorem message_without_audio_ignored :
  forall (s : LiveSession) (currentTime : Q) (message : LiveServerMessage),
    inline_audio message = None \/ inline_audio message = Some ""%string ->
    onMessage currentTime message s = (Ok tt, s).
Proof.
  intros s currentTime message H. apply onMessage_no_audio.
  by destruct H as [-> | ->].
Qed.

Lemma message_without_audio_ignored_witness :
  onMessage 3 {| serverContent := Some {| modelTurn := None; turnComplete := true |} |}
            open_session
  = (Ok tt, open_session)
  /\ onMessage 3 (audio_message "") open_session = (Ok tt, open_session).
Proof.
  split.
  - apply message_without_audio_ignored. left. reflexivity.
  - apply message_without_audio_ignored. right. reflexivity.
Defined.

(* ===================================================================== *)
(** * Capture *)
(* ===================================================================== *)








(* ===================================================================== *)
(** * Teardown *)
(* ===================================================================== *)

(** C8 does not hold of [disconnect]: the second of two calls in a row
    is rejected with [InvalidStateError], whatever the session was, since
    the first has closed the input context and the second closes it again
    without looking at its state. On the open session the first call
    returns normally and releases the processor, the source and the two
    contexts once each; the second releases nothing more. The capture
    stream and the connection are released by neither. *)
Theorem second_disconnect_throws :
  forall s : LiveSession,
    outcome disconnect (exec disconnect s) = Throw InvalidStateError
    /\ outcome disconnect open_session = Ok tt
    /\ released (exec disconnect open_session)
       = [ProcessorNode; InputSourceNode; InputAudioContext; OutputAudioContext]
    /\ released (exec disconnect (exec disconnect open_session))
       = released (exec disconnect open_session).
Proof.
  intros s. split; [|by vm_compute].
  destruct s. unfold disconnect, AudioContext_close. unfold_M. cbn.
  by destruct processor0, inputSource0, inputContext0, outputContext0.
Qed.

(* ===================================================================== *)
(** * Further behaviour of the codec *)
(* ===================================================================== *)

Lemma Qtruncate_le (x y : Q) : (x <= y)%Q -> Qtruncate x <= Qtruncate y.
Proof.
  intros Hxy. destruct (Qlt_le_dec x 0) as [Hx|Hx], (Qlt_le_dec y 0) as [Hy|Hy].
  - rewrite !Qtruncate_ceiling by lra. by apply Qceiling_resp_le.
  - rewrite Qtruncate_ceiling, Qtruncate_floor by lra.
    assert (H1 : (x <= inject_Z 0)%Q) by (unfold inject_Z; lra).
    assert (H2 : (inject_Z 0 <= y)%Q) by (unfold inject_Z; lra).
    apply Qceiling_resp_le in H1. apply Qfloor_resp_le in H2.
    rewrite Qceiling_Z in H1. rewrite Qfloor_Z in H2. lia.
  - lra.
  - rewrite !Qtruncate_floor by lra. by apply Qfloor_resp_le.
Qed.

Lemma clamp_unit_le (q1 q2 : Q) : (q1 <= q2)%Q -> (clamp_unit q1 <= clamp_unit q2)%Q.
Proof.
  intros H. unfold clamp_unit. apply Q.max_le_compat_l, Q.min_le_compat_l, H.
Qed.

Lemma pcm16_of_sample_le (q1 q2 : Q) :
  (q1 <= q2)%Q -> pcm16_of_sample q1 <= pcm16_of_sample q2.
Proof.
  intros H. apply clamp_unit_le in H. unfold pcm16_of_sample.
  set (c1 := clamp_unit q1) in *. set (c2 := clamp_unit q2) in *.
  apply Qtruncate_le.
  destruct (Qlt_le_dec c1 0), (Qlt_le_dec c2 0); lra.
Qed.

(** X1. On finite samples the encoder is monotone: a sample that is not
    below another is not encoded below it; zero is encoded as zero, so
    the sign of a sample is never flipped. *)
Theorem encode_sample_monotone :
  forall q1 q2 : Q,
    (q1 <= q2)%Q ->
    encode_sample (Fin q1) <= encode_sample (Fin q2)
    /\ encode_sample (Fin 0) = 0.
Proof.
  intros q1 q2 H. split; [|reflexivity].
  rewrite !encode_sample_Fin. by apply pcm16_of_sample_le.
Qed.

Lemma encode_sample_monotone_witness :
  encode_sample (Fin (-1 # 3)) <= encode_sample (Fin (1 # 7)).
Proof.
  apply (encode_sample_monotone (-1 # 3) (1 # 7)). unfold Qle. cbn. lia.
Defined.

Lemma encode_decoded_sample (v : Z) :
  -32768 <= v <= 32767 ->
  encode_sample (sample_of_element (Some v)) = reencoded v.
Proof.
  intros Hv. rewrite sample_of_element_Some, encode_sample_Fin.
  set (q := (inject_Z v / inject_Z 32768)%Q).
  assert (Hq : (q == inject_Z v * (1 # 32768))%Q) by reflexivity.
  assert (Hv1 : (inject_Z (-32768) <= inject_Z v)%Q) by (rewrite <- Zle_Qle; lia).
  assert (Hv2 : (inject_Z v <= inject_Z 32767)%Q) by (rewrite <- Zle_Qle; lia).
  unfold inject_Z at 1 in Hv1. unfold inject_Z at 2 in Hv2.
  assert (Hr : in_unit_range q) by (unfold in_unit_range; lra).
  pose proof (clamp_unit_id q Hr) as Hc.
  unfold pcm16_of_sample, reencoded. set (c := clamp_unit q) in *.
  destruct (Qlt_le_dec c 0) as [Hneg|Hpos].
  - rewrite Qtruncate_ceiling by lra.
    assert (He : (c * 32768 == inject_Z v)%Q) by lra.
    rewrite He, Qceiling_Z.
    assert (Hlt : (inject_Z v < inject_Z 0)%Q) by (unfold inject_Z at 2; lra).
    rewrite <- Zlt_Qlt in Hlt.
    destruct (0 <? v) eqn:E; [apply Z.ltb_lt in E; lia|reflexivity].
  - rewrite Qtruncate_floor by lra.
    assert (He : (c * 32767 == inject_Z (v * 32767) / inject_Z 32768)%Q).
    { rewrite inject_Z_mult. unfold Qdiv.
      change (/ inject_Z 32768)%Q with (1 # 32768)%Q.
      change (inject_Z 32767) with 32767%Q. lra. }
    rewrite He, <- Zdiv_Qdiv.
    assert (Hge : (inject_Z 0 <= inject_Z v)%Q) by (unfold inject_Z at 1; lra).
    rewrite <- Zle_Qle in Hge.
    destruct (0 <? v) eqn:E.
    + apply Z.ltb_lt in E. euclid.
    + apply Z.ltb_ge in E. assert (v = 0) as -> by lia. reflexivity.
Qed.

(** X2. Decoding PCM bytes and encoding the decoded samples again does
    not give the bytes back: a sample that is zero or negative is kept,
    a positive one loses one step. *)
Theorem decode_then_encode_drifts :
  forall (data : list byte) (buffer : AudioBuffer),
    Z.of_nat (length data) < 8589934592 ->
    decodeAudioData data outputSampleRate 1 = Ok buffer ->
    exists channel,
      ab_channels buffer = [channel]
      /\ floatToPCM16 channel
         = Uint8Array_of_Int16Array (map reencoded (int16_elements data)).
Proof.
  intros data buffer Hlen Hok.
  destruct (decodeAudioData_Ok_inv _ _ _ _ Hok) as (_ & _ & Hnz).
  assert (Heven : Nat.even (length data) = true).
  { destruct (Nat.even (length data)) eqn:E; [reflexivity|].
    assert (Hf : failed (decodeAudioData data outputSampleRate 1) = true)
      by (apply decodeAudioData_failed; auto).
    rewrite Hok in Hf. discriminate. }
  rewrite decodeAudioData_Ok in Hok by (assumption || discriminate).
  injection Hok as <-. cbn [ab_channels seq map]. eexists. split; [reflexivity|].
  unfold floatToPCM16. f_equal.
  rewrite frameLength_one_channel by assumption.
  rewrite <- length_int16_elements.
  set (a := int16_elements data).
  assert (Ha : Forall (fun v => -32768 <= v <= 32767) a).
  { apply Forall_forall. intros v Hv.
    apply list_elem_of_lookup in Hv as [k Hk].
    apply int16_elements_lookup in Hk as (lo & hi & _ & _ & ->).
    apply int16_of_bytes_range. }
  apply list_eq. intros i. change (map ?f ?l) with (f <$> l).
  rewrite !list_lookup_fmap.
  destruct (a !! i) as [v|] eqn:Hv.
  - rewrite lookup_seq_lt by (by apply lookup_lt_Some in Hv). cbn.
    unfold decoded_sample. rewrite Nat.mul_1_r, Nat.add_0_r, Hv.
    rewrite encode_decoded_sample; [reflexivity|].
    rewrite Forall_forall in Ha. apply Ha. by eapply list_elem_of_lookup_2.
  - rewrite lookup_seq_ge by (by apply lookup_ge_None in Hv). reflexivity.
Qed.

Lemma decode_then_encode_drifts_witness :
  exists channel,
    ab_channels {| ab_sampleRate := outputSampleRate; ab_length := 2;
                   ab_channels := [[Fin (inject_Z 5 / inject_Z 32768);
                                    Fin (inject_Z (-3) / inject_Z 32768)]] |}
    = [channel]
    /\ floatToPCM16 channel = [x04; x00; xfd; xff].
Proof.
  apply (decode_then_encode_drifts [x05; x00; xfd; xff]).
  - cbn. lia.
  - vm_compute. reflexivity.
Defined.

(** X3. Every sample of a buffer that [decodeAudioData] returns is a
    16-bit integer over 32768: a finite number from -1 up to 32767/32768,
    never 1 and never [NaN]. *)
Theorem decoded_samples_in_range :
  forall (data : list byte) (sampleRate : number) (numChannels : nat)
         (buffer : AudioBuffer) (channel : list number) (x : number),
    decodeAudioData data sampleRate numChannels = Ok buffer ->
    channel ∈ ab_channels buffer ->
    x ∈ channel ->
    exists v : Z,
      -32768 <= v <= 32767
      /\ x = Fin (inject_Z v / inject_Z 32768)
      /\ (-1 <= inject_Z v / inject_Z 32768 < 1)%Q.
Proof.
  intros data sampleRate numChannels buffer channel x Hok Hch Hx.
  destruct (decodeAudioData_Ok_inv _ _ _ _ Hok) as (_ & _ & Hnz).
  assert (Hnf : failed (decodeAudioData data sampleRate numChannels) = false)
    by (by rewrite Hok).
  assert (Hc : ~ (Nat.even (length data) = false \/ numChannels = 0%nat
                  \/ frameLength data numChannels = 0%nat)).
  { rewrite <- decodeAudioData_failed. by rewrite Hnf. }
  rewrite decodeAudioData_Ok in Hok;
    [|destruct (Nat.even (length data)); tauto|tauto|tauto].
  injection Hok as <-. cbn [ab_channels] in Hch.
  apply list_elem_of_In, in_map_iff in Hch as (c & <- & Hcin).
  apply list_elem_of_In, in_map_iff in Hx as (i & <- & Hiin).
  apply in_seq in Hcin, Hiin.
  assert (Hk : (i * numChannels + c < length (int16_elements data))%nat).
  { rewrite length_int16_elements.
    assert (Hfl : (frameLength data numChannels
                   <= length data / 2 / numChannels)%nat).
    { unfold frameLength. rewrite <- Nat2Z.inj_div.
      assert (0 <= Z.of_nat (length data / 2 / numChannels)) by lia.
      pose proof (Z.mod_le (Z.of_nat (length data / 2 / numChannels))
                    4294967296). lia. }
    pose proof (Nat.Div0.mul_div_le (length data / 2) numChannels). nia. }
  destruct (lookup_lt_is_Some_2 _ _ Hk) as [v Hv].
  assert (Hr : -32768 <= v <= 32767).
  { apply int16_elements_lookup in Hv as (lo & hi & _ & _ & ->).
    apply int16_of_bytes_range. }
  exists v. split; [exact Hr|]. split.
  - unfold decoded_sample. by rewrite Hv.
  - assert (Hv1 : (inject_Z (-32768) <= inject_Z v)%Q) by (rewrite <- Zle_Qle; lia).
    assert (Hv2 : (inject_Z v <= inject_Z 32767)%Q) by (rewrite <- Zle_Qle; lia).
    unfold inject_Z at 1 in Hv1. unfold inject_Z at 2 in Hv2.
    unfold Qdiv. change (/ inject_Z 32768)%Q with (1 # 32768)%Q. lra.
Qed.

Lemma decoded_samples_in_range_witness :
  exists v : Z,
    -32768 <= v <= 32767
    /\ Fin (inject_Z (-32768) / inject_Z 32768) = Fin (inject_Z v / inject_Z 32768)
    /\ (-1 <= inject_Z v / inject_Z 32768 < 1)%Q.
Proof.
  apply (decoded_samples_in_range [x00; x80; xff; x7f] outputSampleRate 1
           {| ab_sampleRate := outputSampleRate; ab_length := 2;
              ab_channels := [[Fin (inject_Z (-32768) / inject_Z 32768);
                               Fin (inject_Z 32767 / inject_Z 32768)]] |}
           [Fin (inject_Z (-32768) / inject_Z 32768);
            Fin (inject_Z 32767 / inject_Z 32768)]).
  - vm_compute. reflexivity.
  - cbn [ab_channels]. apply list_elem_of_here.
  - apply list_elem_of_here.
Defined.

(** X4. What the capture path sends, the playback path accepts: the
    payload that [base64EncodeAudio] makes of a non-empty frame decodes,
    through [decode] and [decodeAudioData], into one channel at 24 kHz
    with one sample per sample of the frame, each the encoded 16-bit
    value over 32768. *)
Theorem captured_frame_decodes :
  forall frame : list number,
    frame <> [] ->
    Z.of_nat (length frame) < 4294967296 ->
    decode_payload (base64EncodeAudio frame) =
    Ok {| ab_sampleRate := outputSampleRate;
          ab_length := length frame;
          ab_channels :=
            [map (fun x => Fin (inject_Z (encode_sample x) / inject_Z 32768))
                 frame] |}.
Proof.
  intros frame Hne Hlen. by rewrite decode_payload_base64EncodeAudio.
Qed.

Lemma captured_frame_decodes_witness :
  decode_payload (base64EncodeAudio [Fin 1; NaN; Fin (-2)]) =
  Ok {| ab_sampleRate := outputSampleRate;
        ab_length := 3;
        ab_channels := [[Fin (inject_Z 32767 / inject_Z 32768);
                         Fin (inject_Z 0 / inject_Z 32768);
                         Fin (inject_Z (-32768) / inject_Z 32768)]] |}.
Proof.
  apply (captured_frame_decodes [Fin 1; NaN; Fin (-2)]).
  - discriminate.
  - cbn. lia.
Defined.

Lemma length_encode_groups (bs : list N) :
  length (Base64.encode_groups bs) = base64_length (length bs).
Proof.
  unfold base64_length.
  induction bs as [|a|a b|a b c rest IH] using list_ind3; try reflexivity.
  cbn [Base64.encode_groups length]. rewrite IH.
  replace (S (S (S (length rest))) + 2)%nat with (1 * 3 + (length rest + 2))%nat
    by lia.
  rewrite Nat.div_add_l by lia. lia.
Qed.

(** X5. The payload of a frame of [n] samples has exactly
    [4 * ceil(2n / 3)] characters: four for every three of its [2n]
    bytes, the last group padded. *)
Theorem base64EncodeAudio_length :
  forall float32Array : list number,
    String.length (base64EncodeAudio float32Array)
    = base64_length (2 * length float32Array).
Proof.
  intros float32Array. unfold base64EncodeAudio, bytesToTransportText, Base64.btoa.
  assert (Hlen : forall l, String.length (string_of_list_ascii l) = length l).
  { induction l as [|c l IH]; [reflexivity|]. cbn. by rewrite IH. }
  assert (Hlen' : forall s, length (list_ascii_of_string s) = String.length s).
  { induction s as [|c s IH]; [reflexivity|]. cbn. by rewrite IH. }
  rewrite Hlen, length_encode_groups, length_map, Hlen'.
  unfold string_of_list_byte. rewrite Hlen, length_map.
  by rewrite length_floatToPCM16.
Qed.

(* ===================================================================== *)
(** * Further behaviour of [onMessage] *)
(* ===================================================================== *)

(** X6. Of the parts of a message [onMessage] looks at the first only:
    two messages with the same first part are handled alike, and audio
    that comes in a later part, behind a first part without inline data,
    is dropped without a trace. *)
Theorem onMessage_reads_first_part :
  forall (currentTime : Q) (p : Part) (rest1 rest2 : list Part) (s : LiveSession),
    onMessage currentTime (message_of_parts (p :: rest1)) s
    = onMessage currentTime (message_of_parts (p :: rest2)) s
    /\ (inlineData p = None ->
        onMessage currentTime (message_of_parts (p :: rest1)) s = (Ok tt, s)).
Proof.
  intros currentTime p rest1 rest2 s. split; [reflexivity|].
  intros Hp. apply onMessage_no_audio. cbn. by rewrite Hp.
Qed.

Lemma onMessage_reads_first_part_witness :
  onMessage 1
    (message_of_parts
       [ {| inlineData := None; text := Some "Hello"%string |};
         {| inlineData := Some {| data := Some (silence 2); mimeType := None |};
            text := None |} ])
    open_session
  = (Ok tt, open_session).
Proof.
  apply (onMessage_reads_first_part 1 _ _ []). reflexivity.
Defined.

Lemma timeline_end_snoc units u : timeline_end (units ++ [u]) = unit_end u.
Proof. unfold timeline_end. by rewrite last_snoc. Qed.

Lemma onMessage_step currentTime message s :
  cursor_at_end s ->
  (0 <= currentTime)%Q ->
  let e := EvMessage currentTime message in
  let s' := exec (onMessage currentTime message) s in
  cursor_at_end s'
  /\ map snd (started s') = map snd (started s) ++ option_list (decoded_unit e)
  /\ decode_errors s'
     = decode_errors s ++ (if undecodable e
                           then ["Error decoding audio chunk"%string] else []).
Proof.
  intros (c & Hc & Hc0 & Hend) Hnow e s'. subst e s'.
  unfold decoded_unit, undecodable, payload_of, exec.
  destruct (truthy (inline_audio message)) as [payload|] eqn:Hp.
  2:{ rewrite onMessage_no_audio by assumption. cbn [snd option_list].
      rewrite !app_nil_r. split; [|done]. by exists c. }
  destruct (decode_payload payload) as [err|buffer] eqn:Hd.
  { erewrite onMessage_decode_failure by eassumption. cbn [snd option_list failed].
    rewrite app_nil_r. split; [by exists c|]. split; [reflexivity|].
    unfold decode_errors. cbn [console set_console].
    by rewrite List.filter_app. }
  destruct (Math_max_Fin currentTime c) as (t & Hmax & Hle & Hct & _).
  rewrite <- Hc in Hmax.
  destruct (decode_payload_duration _ _ Hd) as (d & Hdur & Hpos).
  erewrite onMessage_started; [|eassumption|eassumption|eassumption|lra].
  cbn [snd option_list failed]. rewrite app_nil_r.
  cbn [started nextStartTime console set_started set_nextStartTime].
  split; [|split].
  - exists (t + d)%Q.
    cbn [started nextStartTime set_started set_nextStartTime].
    split; [by rewrite Hdur|]. split; [lra|].
    by rewrite timeline_end_snoc.
  - by rewrite map_app.
  - reflexivity.
Qed.

Lemma handle_step e s :
  cursor_at_end s ->
  clock_ok e ->
  let s' := exec (handle e) s in
  cursor_at_end s'
  /\ map snd (started s') = map snd (started s) ++ option_list (decoded_unit e)
  /\ decode_errors s'
     = decode_errors s ++ (if undecodable e
                           then ["Error decoding audio chunk"%string] else []).
Proof.
  intros Hs He.
  destruct e as [r| | |inputData|currentTime message|];
    try (by apply onMessage_step);
    (match goal with |- context [handle ?e] =>
       destruct (handle_keeps_timeline e s) as [Hn Hst]; [discriminate|] end;
     cbn zeta; rewrite Hst; cbn [decoded_unit undecodable payload_of option_list];
     rewrite !app_nil_r; split;
     [destruct Hs as (c & Hc & Hc0 & Hend); exists c; by rewrite Hn, Hst|];
     split; [reflexivity|]);
    destruct s; unfold handle, decode_errors.
  - unfold onOpen. unfold_M. destruct r; cbn; [|reflexivity].
    by rewrite List.filter_app, app_nil_r.
  - unfold session_fulfil. unfold_M. cbn. by destruct session0.
  - unfold session_reject. unfold_M. cbn. by destruct session0.
  - unfold onaudioprocess, session_then_send. unfold_M. cbn.
    destruct processor0; [|done]. by destruct session0.
  - unfold disconnect, AudioContext_close. unfold_M. cbn.
    by destruct processor0, inputSource0, inputContext0, outputContext0.
Qed.

Lemma run_steps es s :
  cursor_at_end s ->
  Forall clock_ok es ->
  cursor_at_end (run es s)
  /\ map snd (started (run es s)) = map snd (started s) ++ omap decoded_unit es
  /\ decode_errors (run es s)
     = decode_errors s
       ++ replicate (length (List.filter undecodable es))
                    "Error decoding audio chunk"%string.
Proof.
  revert s. induction es as [|e es IH]; intros s Hs Hes.
  - cbn. by rewrite !app_nil_r.
  - inversion_clear Hes as [|? ? He Hes'].
    destruct (handle_step e s Hs He) as (Hs' & Hst & Hlog).
    destruct (IH _ Hs' Hes') as (Hs'' & Hst' & Hlog').
    cbn [run fold_left]. fold (run es (exec (handle e) s)).
    split; [exact Hs''|]. split.
    + rewrite Hst', Hst, <- app_assoc. f_equal.
      change (omap decoded_unit (e :: es))
        with (match decoded_unit e with
              | Some b => b :: omap decoded_unit es
              | None => omap decoded_unit es
              end).
      by destruct (decoded_unit e).
    + rewrite Hlog', Hlog, <- app_assoc. f_equal. cbn [List.filter].
      by destruct (undecodable e).
Qed.

Lemma constructor_cursor_at_end voice context lang :
  cursor_at_end (constructor voice context lang).
Proof. exists 0%Q. repeat split. lra. Qed.

(** X8. In a run from the construction on, as long as the clock does not
    read below zero, the units started are exactly the buffers of the
    messages whose payload decodes, one each and in the order of the
    messages; [nextStartTime] stands at the end of the last unit started
    (at 0 when there is none); and [onMessage] has logged one error for
    each payload that does not decode, and none else. *)
Theorem every_decodable_message_is_played :
  forall (voice context : string) (lang : Language) (es : list event),
    Forall clock_ok es ->
    let s := run es (constructor voice context lang) in
    map snd (started s) = omap decoded_unit es
    /\ nextStartTime s = timeline_end (started s)
    /\ length (decode_errors s) = length (List.filter undecodable es).
Proof.
  intros voice context lang es Hes s.
  destruct (run_steps es _ (constructor_cursor_at_end voice context lang) Hes)
    as ((c & _ & _ & Hend) & Hst & Hlog).
  split; [exact Hst|]. split; [exact Hend|].
  subst s. rewrite Hlog. cbn. by rewrite length_replicate.
Qed.

Lemma every_decodable_message_is_played_witness :
  let s := run [EvMessage 0 (audio_message (silence 2));
                EvMessage 1 (audio_message "AA==");
                EvOpen (inl NotAllowedError);
                EvMessage 1 (audio_message (silence 3))]
               (constructor "Puck" "" en) in
  map snd (started s)
  = omap decoded_unit [EvMessage 0 (audio_message (silence 2));
                       EvMessage 1 (audio_message "AA==");
                       EvOpen (inl NotAllowedError);
                       EvMessage 1 (audio_message (silence 3))]
  /\ nextStartTime s = timeline_end (started s)
  /\ length (decode_errors s) = 1%nat.
Proof.
  intros s.
  destruct (every_decodable_message_is_played "Puck" "" en
              [EvMessage 0 (audio_message (silence 2));
               EvMessage 1 (audio_message "AA==");
               EvOpen (inl NotAllowedError);
               EvMessage 1 (audio_message (silence 3))])
    as (H1 & H2 & H3).
  - repeat constructor; cbn; unfold Qle; cbn; lia.
  - split; [exact H1|]. split; [exact H2|]. subst s. rewrite H3.
    vm_compute. reflexivity.
Defined.

Lemma Math_max_Fin_cases (a b : Q) :
  (Math_max (Fin a) (Fin b) = Fin a /\ (b <= a)%Q)
  \/ (Math_max (Fin a) (Fin b) = Fin b /\ (a < b)%Q).
Proof.
  unfold Math_max, num_lt. destruct (Qcompare_spec a b) as [Heq|Hlt|Hgt].
  - left. split; [reflexivity|lra].
  - right. by split.
  - left. split; [reflexivity|lra].
Qed.

(** X7. A unit never starts before the clock time at which its message
    was handled, nor before the end of the unit started before it; a
    unit whose message comes while earlier audio is still to end starts
    exactly where that audio ends, with no gap, and one that comes later
    starts at once. *)
Theorem unit_starts_on_time :
  forall (voice context : string) (lang : Language) (es : list event)
         (currentTime : Q) (message : LiveServerMessage)
         (payload : string) (buffer : AudioBuffer),
    Forall clock_ok es ->
    (0 <= currentTime)%Q ->
    truthy (inline_audio message) = Some payload ->
    decode_payload payload = Ok buffer ->
    let s := run es (constructor voice context lang) in
    exists t c,
      timeline_end (started s) = Fin c
      /\ started (exec (onMessage currentTime message) s)
         = started s ++ [(Fin t, buffer)]
      /\ (currentTime <= t)%Q /\ (c <= t)%Q
      /\ ((currentTime <= c)%Q -> (t == c)%Q)
      /\ ((c <= currentTime)%Q -> (t == currentTime)%Q).
Proof.
  intros voice context lang es currentTime message payload buffer
         Hes Hnow Hp Hd s.
  destruct (run_steps es _ (constructor_cursor_at_end voice context lang) Hes)
    as ((c & Hc & Hc0 & Hend) & _ & _).
  fold s in Hc, Hend.
  assert (Hmax : exists t, Math_max (Fin currentTime) (nextStartTime s) = Fin t
                           /\ (currentTime <= t)%Q /\ (c <= t)%Q
                           /\ ((currentTime <= c)%Q -> (t == c)%Q)
                           /\ ((c <= currentTime)%Q -> (t == currentTime)%Q)).
  { rewrite Hc. destruct (Math_max_Fin_cases currentTime c) as [[-> H]|[-> H]].
    - exists currentTime. repeat split; intros; lra.
    - exists c. repeat split; intros; lra. }
  destruct Hmax as (t & Hmax & Hle & Hct & Hearly & Hpast).
  exists t, c. split; [by rewrite <- Hend|]. split; [|tauto].
  unfold exec. erewrite onMessage_started; [|eassumption|eassumption|eassumption|lra].
  reflexivity.
Qed.

Lemma unit_starts_on_time_witness :
  let s := run [EvMessage 0 (audio_message (silence 12000))]
               (constructor "Puck" "" en) in
  exists t c,
    timeline_end (started s) = Fin c
    /\ started (exec (onMessage (1 # 4) (audio_message (silence 2))) s)
       = started s ++ [(Fin t, silent_buffer 2)]
    /\ (1 # 4 <= t)%Q /\ (c <= t)%Q
    /\ ((1 # 4 <= c)%Q -> (t == c)%Q)
    /\ ((c <= 1 # 4)%Q -> (t == 1 # 4)%Q).
Proof.
  apply (unit_starts_on_time "Puck" "" en
           [EvMessage 0 (audio_message (silence 12000))]
           (1 # 4) (audio_message (silence 2)) (silence 2) (silent_buffer 2)).
  - repeat constructor. cbn. unfold Qle. cbn. lia.
  - unfold Qle. cbn. lia.
  - vm_compute. reflexivity.
  - apply decode_payload_silence; [discriminate|reflexivity].
Defined.

(* ===================================================================== *)
(** * Further behaviour of capture and teardown *)
(* ===================================================================== *)

Lemma onMessage_keeps_capture currentTime message s :
  let s' := exec (onMessage currentTime message) s in
  session s' = session s /\ sent s' = sent s
  /\ processor s' = processor s /\ inputSource s' = inputSource s.
Proof.
  cbn zeta. unfold exec, onMessage.
  destruct (truthy (inline_audio message)) as [payload|]; [|done].
  unfold_M. destruct (decode_payload payload) as [e|buffer]; [done|].
  cbn [nextStartTime set_nextStartTime]. unfold source_start.
  destruct (Math_max (Fin currentTime) (nextStartTime s)) as [t| | |]; try done.
  by destruct (Qle_bool 0 t).
Qed.

Lemma disconnect_fields s :
  let s' := exec disconnect s in
  processor s' = None /\ inputSource s' = None /\ inputContext s' = Closed
  /\ session s' = session s /\ sent s' = sent s
  /\ nextStartTime s' = nextStartTime s /\ started s' = started s.
Proof.
  destruct s. unfold disconnect, AudioContext_close. unfold_M. cbn.
  by destruct processor0, inputSource0, inputContext0, outputContext0.
Qed.

(** Without a processor, and as long as no microphone is granted, a step
    sends nothing new: at most it lets the waiting messages go, or drops
    them. *)
Lemma handle_without_processor e s :
  is_granted e = false ->
  processor s = None ->
  let s' := exec (handle e) s in
  processor s' = None
  /\ ((sent s' = sent s /\ session s' = session s)
      \/ (sent s' = sent s /\ waiting s <> [] /\ session s' = Rejected)
      \/ (sent s' = sent s ++ waiting s /\ waiting s <> []
          /\ session s' = Fulfilled)
      \/ (sent s' = sent s /\ waiting s = [] /\ waiting s' = [])).
Proof.
  intros He Hp.
  destruct e as [r| | |inputData|currentTime message|]; cbn zeta.
  - destruct r as [err|stream]; [|discriminate].
    destruct s. cbn in Hp. subst. unfold handle, onOpen. unfold_M. cbn. auto.
  - destruct s. cbn in Hp. subst. unfold handle, session_fulfil, waiting. unfold_M.
    cbn. destruct session0 as [[|m reactions]| |]; cbn; auto.
    + rewrite app_nil_r. auto 10.
    + split; [reflexivity|]. right. right. left. auto.
  - destruct s. cbn in Hp. subst. unfold handle, session_reject, waiting. unfold_M.
    cbn. destruct session0 as [[|m reactions]| |]; cbn; auto 10.
  - destruct s. cbn in Hp. subst. unfold handle. unfold_M. cbn. auto.
  - destruct (onMessage_keeps_capture currentTime message s) as (H1 & H2 & H3 & _).
    cbn [handle]. rewrite H3. auto.
  - destruct (disconnect_fields s) as (H1 & _ & _ & H4 & H5 & _).
    cbn [handle]. auto.
Qed.

Lemma run_without_processor es s :
  Forall (fun e => is_granted e = false) es ->
  processor s = None ->
  processor (run es s) = None
  /\ (sent (run es s) = sent s \/ sent (run es s) = sent s ++ waiting s)
  /\ (waiting s = [] -> waiting (run es s) = []).
Proof.
  revert s. induction es as [|e es IH]; intros s Hes Hp; [by auto|].
  inversion_clear Hes as [|? ? He Hes'].
  destruct (handle_without_processor e s He Hp) as (Hp' & Hcases).
  destruct (IH _ Hes' Hp') as (Hp'' & Hsent & Hwait).
  cbn [run fold_left]. fold (run es (exec (handle e) s)).
  split; [exact Hp''|].
  destruct Hcases as [(H1 & H2)|[(H1 & H2 & H3)|[(H1 & H2 & H3)|(H1 & H2 & H3)]]].
  - assert (Hw : waiting (exec (handle e) s) = waiting s)
      by (unfold waiting; by rewrite H2).
    rewrite Hw, H1 in *. auto.
  - assert (Hw : waiting (exec (handle e) s) = [])
      by (unfold waiting; by rewrite H3).
    rewrite Hw, app_nil_r, H1 in *. split; [|done]. destruct Hsent; auto.
  - assert (Hw : waiting (exec (handle e) s) = [])
      by (unfold waiting; by rewrite H3).
    rewrite Hw, app_nil_r, H1 in *. split; [|done]. destruct Hsent; auto.
  - rewrite H3, app_nil_r, H1 in *. rewrite H2, app_nil_r. split; [|auto].
    destruct Hsent; auto.
Qed.

(** X9. Nothing is sent before the microphone is granted: in a run from
    the construction on in which [getUserMedia] never succeeds, whatever
    else happens and however many capture ticks the platform produces,
    no processor is installed, no message is sent and none waits to be
    sent. *)
Theorem nothing_sent_without_microphone :
  forall (voice context : string) (lang : Language) (es : list event),
    Forall (fun e => is_granted e = false) es ->
    let s := run es (constructor voice context lang) in
    processor s = None /\ sent s = [] /\ waiting s = [].
Proof.
  intros voice context lang es Hes s.
  destruct (run_without_processor es (constructor voice context lang) Hes eq_refl)
    as (Hp & Hsent & Hwait).
  split; [exact Hp|]. split; [|by apply Hwait].
  by destruct Hsent.
Qed.

Lemma nothing_sent_without_microphone_witness :
  let s := run [EvOpen (inl NotAllowedError); EvConnected;
                EvAudioProcess [Fin 1]; EvAudioProcess [Fin 0]]
               (constructor "Puck" "" en) in
  processor s = None /\ sent s = [] /\ waiting s = [].
Proof.
  apply (nothing_sent_without_microphone "Puck" "" en).
  repeat constructor.
Defined.

(** X10. [disconnect] stops the capture whatever it throws and leaves
    the connection alone: after it both node fields are null and the
    input context is closed, while the promise of the connection, the
    messages sent and the playback timeline are as before. From then on,
    unless the microphone is granted again, no captured frame is sent:
    what is sent later is at most the messages that were already
    waiting for the connection to open. *)
Theorem no_frame_sent_after_disconnect :
  forall (s : LiveSession) (es : list event),
    Forall (fun e => is_granted e = false) es ->
    let s' := exec disconnect s in
    processor s' = None /\ inputSource s' = None /\ inputContext s' = Closed
    /\ session s' = session s /\ sent s' = sent s
    /\ nextStartTime s' = nextStartTime s /\ started s' = started s
    /\ (sent (run es s') = sent s \/ sent (run es s') = sent s ++ waiting s).
Proof.
  intros s es Hes s'.
  destruct (disconnect_fields s) as (H1 & H2 & H3 & H4 & H5 & H6 & H7).
  fold s' in H1, H2, H3, H4, H5, H6, H7.
  repeat (split; [assumption|]).
  destruct (run_without_processor es s' Hes H1) as (_ & Hsent & _).
  assert (Hw : waiting s' = waiting s) by (unfold waiting; by rewrite H4).
  by rewrite Hw, H5 in Hsent.
Qed.

Lemma no_frame_sent_after_disconnect_witness :
  let s := exec (onaudioprocess [Fin 1])
                (exec (onOpen (Ok MicrophoneStream)) (constructor "Puck" "" en)) in
  sent (run [EvAudioProcess [Fin 0]; EvConnected; EvAudioProcess [Fin 0]]
            (exec disconnect s))
  = sent s ++ waiting s.
Proof.
  intros s.
  destruct (no_frame_sent_after_disconnect s
              [EvAudioProcess [Fin 0]; EvConnected; EvAudioProcess [Fin 0]])
    as (_ & _ & _ & _ & _ & _ & _ & [H|H]).
  - repeat constructor.
  - exfalso. vm_compute in H. discriminate.
  - exact H.
Defined.

(* ===================================================================== *)
(** * The request functions *)
(* ===================================================================== *)

Lemma truthy_Some a s : truthy a = Some s -> a = Some s /\ s <> ""%string.
Proof. destruct a as [[|c r]|]; cbn; intros H; by inversion H. Qed.

Lemma truthy_None a : truthy a = None -> a = None \/ a = Some ""%string.
Proof. destruct a as [[|c r]|]; cbn; intros H; auto; discriminate. Qed.

Lemma or_else_not_empty a b : b <> ""%string -> or_else a b <> ""%string.
Proof.
  intros Hb. unfold or_else. destruct (truthy a) as [s|] eqn:Ha; [|done].
  by apply truthy_Some in Ha as [_ Hs].
Qed.

(** X11. [analyzeVideo] never gives an empty text: it resolves exactly
    when the call of the API does, with a summary that is not the empty
    string even when the response has no text; when the call is rejected
    it logs one line and throws an [Error] whose message is not empty,
    whatever the reason carried. *)
Theorem analyzeVideo_never_empty :
  forall (platform : Platform) (base64Data mimeType : string) (language : Language),
    let request := analysis_request base64Data mimeType language in
    match analyzeVideo platform base64Data mimeType language with
    | (inr summary, _) =>
        summary <> ""%string
        /\ exists response, generateContent platform request = inr response
    | (inl error, lines) =>
        (exists message, error = NewError message /\ message <> ""%string)
        /\ lines = ["Gemini API Error:"%string]
        /\ exists reason, generateContent platform request = inl reason
    end.
Proof.
  intros platform base64Data mimeType language request. unfold analyzeVideo.
  fold request. destruct (generateContent platform request) as [reason|response].
  - split; [|split; [reflexivity|by exists reason]].
    eexists. split; [reflexivity|]. by apply or_else_not_empty.
  - destruct (truthy (response_text response)) as [summary|] eqn:Ht.
    + apply truthy_Some in Ht as [_ Hs]. split; [done|by exists response].
    + destruct (truthy (first_finishReason response)) as [r|];
        (split; [done|by exists response]).
Qed.

Lemma joined_from acc texts :
  fold_left String.append texts acc = (acc ++ joined texts)%string.
Proof.
  unfold joined. revert acc. induction texts as [|t texts IH]; intros acc.
  - cbn. clear. induction acc as [|c acc IH]; [done|]. cbn. by rewrite <- IH.
  - cbn [fold_left]. rewrite IH, (IH (""%string ++ t)%string). cbn.
    clear. induction acc as [|c acc IH]; [done|]. cbn. by rewrite IH.
Qed.

Lemma joined_cons t texts : joined (t :: texts) = (t ++ joined texts)%string.
Proof. unfold joined at 1. cbn [fold_left]. by rewrite joined_from. Qed.

Lemma joined_yielded (cs : list GenerateContentResponse) :
  joined (omap (fun c => truthy (response_text c)) cs)
  = joined (map (fun c => default ""%string (response_text c)) cs).
Proof.
  induction cs as [|c cs IH]; [done|].
  cbn [map]. rewrite joined_cons, <- IH.
  change (omap (fun c => truthy (response_text c)) (c :: cs))
    with (match truthy (response_text c) with
          | Some t => t :: omap (fun c => truthy (response_text c)) cs
          | None => omap (fun c => truthy (response_text c)) cs
          end).
  destruct (truthy (response_text c)) as [t|] eqn:Ht.
  - apply truthy_Some in Ht as [-> _]. by rewrite joined_cons.
  - apply truthy_None in Ht as [Ht | Ht]; rewrite Ht; reflexivity.
Qed.

(** X12. [sendChatMessageStream] drops the chunks without text and
    nothing else: every value it yields is a non-empty string, the
    concatenation of what it yields is the concatenation of the texts of
    all the chunks of the stream, and it ends as the stream does, with
    the same error after one line on the console when the stream breaks
    or the call is rejected. *)
Theorem chat_stream_keeps_the_text :
  forall (chat : Chat) (message : string),
    let run := sendChatMessageStream chat message in
    Forall (fun t => t <> ""%string) (yielded (fst run))
    /\ snd run = match completion (fst run) with
                 | Some _ => ["Chat Stream Error:"%string]
                 | None => []
                 end
    /\ match sendMessageStream chat message with
       | inr result =>
           joined (yielded (fst run))
           = joined (map (fun c => default ""%string (response_text c))
                         (chunks result))
           /\ completion (fst run) = broken result
       | inl error => yielded (fst run) = [] /\ completion (fst run) = Some error
       end.
Proof.
  intros chat message run. subst run. unfold sendChatMessageStream.
  destruct (sendMessageStream chat message) as [error|result]; [by cbn|].
  assert (Hne : Forall (fun t => t <> ""%string)
                  (omap (fun c => truthy (response_text c)) (chunks result))).
  { apply Forall_forall. intros t Ht. apply list_elem_of_omap in Ht as (c & _ & Hc).
    by apply truthy_Some in Hc as [_ Hc]. }
  pose proof (joined_yielded (chunks result)) as Hj.
  by destruct (broken result).
Qed.



(* ===================================================================== *)
(** * File conversion *)
(* ===================================================================== *)

Lemma has_comma_app a b :
  has_comma (a ++ b)%string = has_comma a || has_comma b.
Proof.
  unfold has_comma. induction a as [|c a IH]; [done|].
  cbn [String.append list_ascii_of_string existsb]. rewrite IH.
  by rewrite orb_assoc.
Qed.

Lemma split_no_comma s : has_comma s = false -> split "," s = [s].
Proof.
  unfold has_comma. induction s as [|c s IH]; [done|].
  cbn [split list_ascii_of_string existsb].
  rewrite (Ascii.eqb_sym c). intros H. apply orb_false_iff in H as [Hc Hs].
  rewrite Hc. by rewrite IH.
Qed.

Lemma split_at_comma a b :
  has_comma a = false ->
  split "," (a ++ String "," b)%string = a :: split "," b.
Proof.
  unfold has_comma. induction a as [|c a IH]; [done|].
  cbn [split list_ascii_of_string existsb String.append].
  rewrite (Ascii.eqb_sym c). intros H. apply orb_false_iff in H as [Hc Hs].
  rewrite Hc. by rewrite IH.
Qed.

Lemma encode_sextet_not_comma (n : N) :
  (n < 64)%N -> Ascii.eqb "," (Base64.encode_sextet n) = false.
Proof.
  intros Hn.
  assert (Hall : forallb (fun n => negb (Ascii.eqb "," (Base64.encode_sextet n)))
                         (map N.of_nat (seq 0 64)) = true)
    by (vm_compute; reflexivity).
  rewrite forallb_forall in Hall. apply negb_true_iff, Hall.
  apply in_map_iff. exists (N.to_nat n). split; [lia|].
  apply in_seq. lia.
Qed.

Lemma btoa_no_comma binary : has_comma (Base64.btoa binary) = false.
Proof.
  unfold has_comma, Base64.btoa. rewrite list_ascii_of_string_of_list_ascii.
  set (bs := map N_of_ascii (list_ascii_of_string binary)).
  assert (Hbs : Forall Base64.is_byte bs).
  { apply Forall_forall. intros n Hn. apply list_elem_of_In, in_map_iff in Hn.
    destruct Hn as (c & <- & _). apply N_ascii_bounded. }
  rewrite encode_groups_shape, existsb_app.
  apply orb_false_iff. split.
  - apply sextets_bounded in Hbs. induction Hbs as [|n ns Hn _ IH]; [done|].
    cbn [map existsb]. rewrite IH. by rewrite encode_sextet_not_comma.
  - by destruct (padding_cases bs) as [-> | [-> | ->]].
Qed.

(** X14. For a file whose type has no comma, [fileToBase64] resolves
    with the base64 text of the bytes of the file, not with [undefined]
    and without a rest of the prefix of the URL: [decode] gives back the
    bytes of the file from it. *)
Theorem fileToBase64_gives_the_bytes :
  forall file : File,
    has_comma (file_type file) = false ->
    fileToBase64 (readAsDataURL file)
    = Resolves (Some (bytesToTransportText (file_bytes file)))
    /\ decode (bytesToTransportText (file_bytes file)) = Ok (file_bytes file).
Proof.
  intros file Htype. split; [|apply decode_bytesToTransportText].
  unfold fileToBase64, readAsDataURL, Resolves. do 2 f_equal.
  set (payload := bytesToTransportText (file_bytes file)).
  change (";base64," ++ payload)%string
    with (";base64" ++ String "," payload)%string.
  assert (Hassoc : forall a b c : string,
             (a ++ (b ++ c))%string = ((a ++ b) ++ c)%string).
  { intros a b c. induction a as [|x a IH]; [done|]. cbn. by rewrite IH. }
  rewrite (Hassoc (file_type file)), (Hassoc "data:"%string).
  rewrite split_at_comma.
  - rewrite split_no_comma; [done|]. apply btoa_no_comma.
  - rewrite !has_comma_app, Htype. reflexivity.
Qed.

Lemma fileToBase64_gives_the_bytes_witness :
  let file := {| file_name := "clip.mp4"; file_type := "video/mp4";
                 file_bytes := [x00; x01] |} in
  fileToBase64 (readAsDataURL file) = Resolves (Some "AAE="%string)
  /\ decode "AAE=" = Ok [x00; x01].
Proof.
  apply (fileToBase64_gives_the_bytes
           {| file_name := "clip.mp4"; file_type := "video/mp4";
                 file_bytes := [x00; x01] |}).
  reflexivity.
Defined.

(** A comma in the type of the file moves the cut: the promise then
    resolves with a piece of the type. *)
Lemma fileToBase64_with_comma :
  fileToBase64 (readAsDataURL {| file_name := "clip.mp4";
                                 file_type := "video/mp4,x";
                                 file_bytes := [x00; x01] |})
  = Resolves (Some "x;base64"%string).
Proof. reflexivity. Qed.

(* ===================================================================== *)
(** * The component *)
(* ===================================================================== *)

Lemma analyzeVideo_resolves_not_empty platform base64Data mimeType language summary :
  fst (analyzeVideo platform base64Data mimeType language) = inr summary ->
  summary <> ""%string.
Proof.
  unfold analyzeVideo.
  destruct (generateContent platform _) as [reason|response]; [discriminate|].
  destruct (truthy (response_text response)) as [t|] eqn:Ht.
  - apply truthy_Some in Ht as [_ Ht]. cbn. by intros [= <-].
  - destruct (truthy (first_finishReason response)); cbn; by intros [= <-].
Qed.

(** X15. [handleAnalyze] with a video file loaded never leaves the
    summary loading, and ends in one of two ways: with a summary text
    that is not the empty string, no error and the summary tab shown, or
    with an error message that is not the empty string, no text, and the
    chat as it was. It ends with a text exactly when the API key is
    there, the file converts to a base64 text and [analyzeVideo]
    resolves; whether the chat session can then be created plays no
    part. The live mode is not touched. *)
Theorem handleAnalyze_settles_summary :
  forall (env : App.Environment) (now : Z) (st : App.state)
         (v : App.VideoFile) (file : File),
    App.video st = Some v ->
    App.video_file v = Some file ->
    let st' := App.handleAnalyze env now st in
    let analysed :=
      exists key base64Data summary,
        truthy (App.API_KEY env) = Some key
        /\ fileToBase64 (App.reader env file) = Resolves (Some base64Data)
        /\ fst (analyzeVideo (App.platform env) base64Data (App.video_type v)
                  (App.language st)) = Resolves summary in
    ((exists summary,
         App.summary st' = {| App.isLoading := false;
                              App.summary_text := Some summary;
                              App.summary_error := None |}
         /\ summary <> ""%string /\ App.activeTab st' = App.tab_summary
         /\ analysed)
     \/ (exists message,
           App.summary st' = {| App.isLoading := false;
                                App.summary_text := None;
                                App.summary_error := Some message |}
           /\ message <> ""%string
           /\ App.chatSession st' = App.chatSession st
           /\ App.messages st' = App.messages st
           /\ ~ analysed))
    /\ App.isLiveMode st' = App.isLiveMode st
    /\ App.liveSessionRef st' = App.liveSessionRef st
    /\ App.video st' = App.video st.
Proof.
  intros env now st v file Hv Hfile st' analysed. subst st'.
  unfold App.handleAnalyze. rewrite Hv, Hfile.
  assert (Hmsg : forall error,
             or_else (message_of (App.platform env) error)
               "Failed to analyze video. Please try a smaller file or check your connection."
             <> ""%string) by (intros error; by apply or_else_not_empty).
  destruct (truthy (App.API_KEY env)) as [key|] eqn:Hkey.
  2:{ split; [|by destruct st]. right. eexists. split; [reflexivity|].
      split; [apply Hmsg|]. split; [by destruct st|]. split; [by destruct st|].
      intros (k & b & s & Hk & _). discriminate. }
  destruct (fileToBase64 (App.reader env file)) as [error|[base64Data|]] eqn:Hread.
  - split; [|by destruct st]. right. eexists. split; [reflexivity|].
    split; [apply Hmsg|]. split; [by destruct st|]. split; [by destruct st|].
    intros (k & b & s & _ & Hb & _). discriminate.
  - cbn [App.language App.set_summary].
    destruct (fst (analyzeVideo (App.platform env) base64Data (App.video_type v)
                     (App.language st))) as [error|summary] eqn:Han.
    + split; [|by destruct st]. right. eexists. split; [reflexivity|].
      split; [apply Hmsg|]. split; [by destruct st|]. split; [by destruct st|].
      intros (k & b & s & _ & Hb & Hs). injection Hb as <-.
      rewrite Han in Hs. discriminate.
    + apply analyzeVideo_resolves_not_empty in Han as Hne.
      split.
      * left. exists summary.
        split; [by destruct (createChatSession _ _ _ _)|].
        split; [exact Hne|].
        split; [by destruct (createChatSession _ _ _ _)|].
        by exists key, base64Data, summary.
      * destruct (createChatSession _ _ _ _); by destruct st.
  - split; [|by destruct st]. right. eexists. split; [reflexivity|].
    split; [apply Hmsg|]. split; [by destruct st|]. split; [by destruct st|].
    intros (k & b & s & _ & Hb & _). discriminate.
Qed.

Lemma handleAnalyze_settles_summary_witness :
  let file := {| file_name := "clip.mp4"; file_type := "video/mp4";
                 file_bytes := [x00; x01] |} in
  let v := {| App.video_file := Some file; App.video_url := None;
              App.video_name := "clip.mp4"; App.video_type := "video/mp4";
              App.video_size := 2 |} in
  let env :=
    {| App.platform :=
         {| exception_message := fun _ => ""%string;
            generateContent :=
              fun _ => inr {| response_text := Some "A clip."%string;
                              candidates := None |};
            chats_create := fun _ _ _ => inl (Rejection None) |};
       App.API_KEY := Some "key"%string;
       App.reader := readAsDataURL;
       App.trim := fun s => s |} in
  exists summary,
    App.summary (App.handleAnalyze env 0 (App.handleVideoSelected v App.initial))
    = {| App.isLoading := false;
         App.summary_text := Some summary;
         App.summary_error := None |}
    /\ summary <> ""%string.
Proof.
  intros file v env.
  destruct (handleAnalyze_settles_summary env 0
              (App.handleVideoSelected v App.initial) v file eq_refl eq_refl)
    as [[(summary & Hs & Hne & _)|(message & _ & _ & _ & _ & Hn)] _].
  - by exists summary.
  - exfalso. apply Hn.
    exists "key"%string, "AAE="%string, "A clip."%string. by vm_compute.
Defined.

Lemma toString_inj a b : toString a = toString b -> a = b.
Proof.
  unfold toString. intros H.
  assert (Hnil : forall z, Z.to_int z <> Decimal.Pos Decimal.Nil
                           /\ Z.to_int z <> Decimal.Neg Decimal.Nil).
  { intros z. split; intros Hz; pose proof (f_equal Z.of_int Hz) as Hz';
      rewrite DecimalZ.of_to in Hz'; cbn in Hz'; subst z; discriminate Hz. }
  apply (f_equal NilZero.int_of_string) in H.
  rewrite !NilZero.isi in H by apply Hnil.
  injection H as H. apply (f_equal Z.of_int) in H.
  by rewrite !DecimalZ.of_to in H.
Qed.

Lemma with_text_others responseId text (pre : list App.ChatMessage) :
  Forall (fun m => App.msg_id m <> responseId) pre ->
  map (App.with_text responseId text) pre = pre.
Proof.
  induction 1 as [|m pre Hm _ IH]; [done|]. cbn [map]. rewrite IH.
  unfold App.with_text. apply String.eqb_neq in Hm. by rewrite Hm.
Qed.

Lemma with_text_placeholder responseId text pre role old timestamp :
  Forall (fun m => App.msg_id m <> responseId) pre ->
  map (App.with_text responseId text)
      (pre ++ [ {| App.msg_id := responseId; App.msg_role := role;
                   App.msg_text := old; App.msg_timestamp := timestamp |} ])
  = pre ++ [ {| App.msg_id := responseId; App.msg_role := role;
                App.msg_text := text; App.msg_timestamp := timestamp |} ].
Proof.
  intros Hpre. rewrite map_app, with_text_others by exact Hpre.
  cbn [map]. unfold App.with_text. cbn [App.msg_id].
  by rewrite String.eqb_refl.
Qed.

Lemma append_assoc_string (a b c : string) :
  (a ++ (b ++ c))%string = ((a ++ b) ++ c)%string.
Proof. induction a as [|x a IH]; [done|]. cbn. by rewrite IH. Qed.

(** The loop leaves in the placeholder what it has accumulated, and
    touches nothing but the messages. *)
Lemma receive_placeholder responseId yields acc st pre role timestamp :
  Forall (fun m => App.msg_id m <> responseId) pre ->
  App.messages st
  = pre ++ [ {| App.msg_id := responseId; App.msg_role := role;
                App.msg_text := acc; App.msg_timestamp := timestamp |} ] ->
  App.receive responseId yields acc st
  = App.set_messages
      (pre ++ [ {| App.msg_id := responseId; App.msg_role := role;
                   App.msg_text := (acc ++ joined yields)%string;
                   App.msg_timestamp := timestamp |} ]) st.
Proof.
  intros Hpre. revert acc st.
  induction yields as [|chunk rest IH]; intros acc st Hst.
  - cbn [App.receive]. unfold joined. cbn [fold_left].
    assert (Hnil : (acc ++ "")%string = acc).
    { clear. induction acc as [|x acc IH]; [done|]. cbn. by rewrite IH. }
    rewrite Hnil, <- Hst. by destruct st.
  - cbn [App.receive]. rewrite Hst, with_text_placeholder by exact Hpre.
    rewrite (IH (acc ++ chunk)%string); [|by destruct st].
    rewrite joined_cons, append_assoc_string. by destruct st.
Qed.

(** X16. [handleSendMessage] with a chat session and a text that is not
    blank adds exactly one exchange at the end of the transcript and
    changes no earlier message, provided that the clock does not run
    backwards during the call and that no earlier message has the
    identifier of the reply: the message of the user with the text sent,
    then the reply of the model, whose text is the concatenation of the
    texts of all the chunks when the stream ends normally, and
    "Error generating response." when the call is rejected or the
    stream breaks, whatever had arrived before. The chat is no longer
    loading, the input is empty and the live mode is off. *)
Theorem handleSendMessage_appends_the_exchange :
  forall (env : App.Environment) (overrideText : option string)
         (now1 now2 now3 now4 : Z) (st : App.state) (chat : Chat),
    let textToSend := or_else overrideText (App.inputMessage st) in
    App.trim env textToSend <> ""%string ->
    App.chatSession st = Some chat ->
    now1 <= now3 ->
    Forall (fun m => App.msg_id m <> toString (now3 + 1)) (App.messages st) ->
    let st' := App.handleSendMessage env overrideText now1 now2 now3 now4 st in
    let reply :=
      match sendMessageStream chat textToSend with
      | inr result =>
          match broken result with
          | None =>
              joined (map (fun c => default ""%string (response_text c))
                          (chunks result))
          | Some _ => "Error generating response."%string
          end
      | inl _ => "Error generating response."%string
      end in
    App.messages st'
    = App.messages st
      ++ [ {| App.msg_id := toString now1; App.msg_role := App.role_user;
              App.msg_text := textToSend; App.msg_timestamp := now2 |};
           {| App.msg_id := toString (now3 + 1); App.msg_role := App.role_model;
              App.msg_text := reply; App.msg_timestamp := now4 |} ]
    /\ App.isChatLoading st' = false
    /\ App.inputMessage st' = ""%string
    /\ App.isLiveMode st' = false.
Proof.
  intros env overrideText now1 now2 now3 now4 st chat textToSend Htrim Hchat
         Hclock Hfresh st' reply.
  subst st'. unfold App.handleSendMessage. fold textToSend. rewrite Hchat.
  destruct (truthy (Some (App.trim env textToSend))) as [t|] eqn:Ht.
  2:{ apply truthy_None in Ht as [Ht|Ht]; [discriminate|]. by injection Ht. }
  clear t Ht.
  set (userMsg := {| App.msg_id := toString now1; App.msg_role := App.role_user;
                     App.msg_text := textToSend; App.msg_timestamp := now2 |}).
  set (responseId := toString (now3 + 1)).
  set (st1 := if App.isLiveMode (App.stopChatAudio st)
              then App.stopLiveMode (App.stopChatAudio st)
              else App.stopChatAudio st).
  assert (H1 : App.messages st1 = App.messages st /\ App.isLiveMode st1 = false).
  { subst st1. destruct st as [? ? ? ? ? ? ? ? ? ? src live ref ? ?].
    unfold App.stopChatAudio, App.stopLiveMode. cbn.
    destruct src, live, ref; by cbn. }
  destruct H1 as [Hm1 Hl1].
  assert (Hpre : Forall (fun m => App.msg_id m <> responseId)
                        (App.messages st ++ [userMsg])).
  { apply Forall_app. split; [exact Hfresh|]. constructor; [|constructor].
    cbn. intros Heq. apply toString_inj in Heq. lia. }
  set (st2 := App.set_messages _ (App.set_isChatLoading true _)).
  assert (Hm2 : App.messages st2
                = (App.messages st ++ [userMsg])
                  ++ [ {| App.msg_id := responseId; App.msg_role := App.role_model;
                          App.msg_text := ""; App.msg_timestamp := now4 |} ]).
  { subst st2. cbn. by rewrite Hm1. }
  assert (Hl2 : App.isLiveMode st2 = false) by (subst st2; by cbn).
  rewrite (receive_placeholder responseId _ ""%string st2 _ _ _ Hpre Hm2).
  cbn [String.append].
  assert (Hreply :
    match completion (fst (sendChatMessageStream chat textToSend)) with
    | Some _ => reply = "Error generating response."%string
    | None => reply = joined (yielded (fst (sendChatMessageStream chat textToSend)))
    end).
  { subst reply. unfold sendChatMessageStream.
    destruct (sendMessageStream chat textToSend) as [error|result]; [done|].
    destruct (broken result); cbn [fst completion yielded]; [done|].
    symmetry. apply joined_yielded. }
  destruct (completion (fst (sendChatMessageStream chat textToSend))).
  - cbn [App.messages App.set_messages App.set_isChatLoading App.isChatLoading
           App.inputMessage App.isLiveMode].
    rewrite with_text_placeholder by exact Hpre. rewrite Hreply, <- app_assoc.
    repeat split; try reflexivity. exact Hl2.
  - cbn [App.messages App.set_messages App.set_isChatLoading App.isChatLoading
           App.inputMessage App.isLiveMode].
    rewrite Hreply, <- app_assoc.
    repeat split; try reflexivity. exact Hl2.
Qed.

Lemma handleSendMessage_appends_the_exchange_witness :
  let chat :=
    {| sendMessageStream := fun _ =>
         inr {| chunks := [ {| response_text := Some "Hel"%string; candidates := None |};
                            {| response_text := None; candidates := None |};
                            {| response_text := Some "lo"%string; candidates := None |} ];
                broken := None |} |} in
  let env :=
    {| App.platform :=
         {| exception_message := fun _ => ""%string;
            generateContent := fun _ => inl (Rejection None);
            chats_create := fun _ _ _ => inr chat |};
       App.API_KEY := None;
       App.reader := readAsDataURL;
       App.trim := fun s => s |} in
  let st := App.set_chatSession (Some chat) (App.set_inputMessage "Hi" App.initial) in
  App.messages (App.handleSendMessage env None 1000 1000 1000 1001 st)
  = [ {| App.msg_id := "1000"; App.msg_role := App.role_user;
         App.msg_text := "Hi"; App.msg_timestamp := 1000 |};
      {| App.msg_id := "1001"; App.msg_role := App.role_model;
         App.msg_text := "Hello"; App.msg_timestamp := 1001 |} ].
Proof.
  intros chat env st.
  apply (handleSendMessage_appends_the_exchange env None 1000 1000 1000 1001 st chat).
  - discriminate.
  - reflexivity.
  - lia.
  - constructor.
Defined.

(* ===================================================================== *)
(** * The live mode of the component *)
(* ===================================================================== *)

Lemma callback_keeps_contexts e s :
  App.is_callback e = true ->
  inputContext (exec (handle e) s) = inputContext s
  /\ outputContext (exec (handle e) s) = outputContext s.
Proof.
  intros He. destruct e as [r| | |inputData|currentTime message|];
    [| | | | |discriminate]; unfold handle.
  - unfold onOpen. unfold_M. by destruct r.
  - unfold session_fulfil. unfold_M. cbn. by destruct (session s).
  - unfold session_reject. unfold_M. cbn. by destruct (session s).
  - unfold onaudioprocess, session_then_send. unfold_M. cbn.
    destruct (processor s); [|done]. by destruct (session s).
  - unfold onMessage.
    destruct (truthy (inline_audio message)) as [payload|]; [|done].
    unfold_M. destruct (decode_payload payload) as [e|buffer]; [done|].
    cbn [nextStartTime set_nextStartTime]. unfold source_start.
    destruct (Math_max (Fin currentTime) (nextStartTime s)) as [t| | |]; try done.
    by destruct (Qle_bool 0 t).
Qed.

Lemma disconnect_running s :
  inputContext s = Running -> outputContext s = Running ->
  outcome disconnect s = Ok tt /\ App.released_all (exec disconnect s).
Proof.
  destruct s. cbn. intros -> ->. unfold App.released_all.
  unfold disconnect, AudioContext_close. unfold_M. cbn.
  by destruct processor0, inputSource0.
Qed.

Lemma receive_live_view responseId yields acc st :
  App.live_view (App.receive responseId yields acc st) = App.live_view st
  /\ App.ref_open (App.receive responseId yields acc st) = App.ref_open st.
Proof.
  revert acc st. induction yields as [|chunk rest IH]; intros acc st; [done|].
  cbn [App.receive]. destruct (IH (acc ++ chunk)%string
    (App.set_messages
       (map (App.with_text responseId (acc ++ chunk)) (App.messages st)) st))
    as [-> ->].
  by destruct st.
Qed.

Lemma stopChatAudio_live_view st :
  App.live_view (App.stopChatAudio st) = App.live_view st.
Proof. destruct st. unfold App.stopChatAudio. cbn. by destruct audioSourceRef. Qed.

Lemma handleAnalyze_live_view env now st :
  let st' := App.handleAnalyze env now st in
  App.video st' = App.video st
  /\ App.isLiveMode st' = App.isLiveMode st
  /\ App.liveSessionRef st' = App.liveSessionRef st
  /\ App.disconnected st' = App.disconnected st
  /\ App.abandoned st' = App.abandoned st
  /\ (App.video st = None -> st' = st).
Proof.
  cbn zeta. unfold App.handleAnalyze, App.analysis_failed.
  destruct (App.video st) as [v|] eqn:Hv; [|done].
  destruct (App.video_file v) as [file|]; [|by rewrite Hv].
  destruct (truthy (App.API_KEY env)); [|by destruct st].
  destruct (fileToBase64 (App.reader env file)) as [error|[base64Data|]];
    [by destruct st| |by destruct st].
  destruct (fst (analyzeVideo _ _ _ _)); [by destruct st|].
  destruct (createChatSession _ _ _ _); by destruct st.
Qed.

Lemma handleSendMessage_live_view env overrideText now1 now2 now3 now4 st :
  let st' := App.handleSendMessage env overrideText now1 now2 now3 now4 st in
  App.live_view st' = App.live_view st
  \/ (App.isLiveMode st = true
      /\ App.live_view st' = App.live_view (App.stopLiveMode st)).
Proof.
  cbn zeta. unfold App.handleSendMessage.
  destruct (truthy (Some (App.trim env _))); [|by left].
  destruct (App.chatSession st) as [chat|]; [|by left].
  set (st1 := if App.isLiveMode (App.stopChatAudio st)
              then App.stopLiveMode (App.stopChatAudio st)
              else App.stopChatAudio st).
  assert (H1 : App.live_view st1 = App.live_view st
               \/ (App.isLiveMode st = true
                   /\ App.live_view st1 = App.live_view (App.stopLiveMode st))).
  { subst st1. destruct st as [? ? ? ? ? ? ? ? ? ? src live ref ? ?].
    unfold App.stopChatAudio, App.stopLiveMode. cbn.
    destruct src, live, ref; cbn; auto. }
  match goal with
  | |- context [App.receive ?id ?ys ?acc ?s] =>
      destruct (receive_live_view id ys acc s) as [Hr _];
      set (st3 := App.receive id ys acc s) in *
  end.
  assert (H3 : App.live_view st3 = App.live_view st1) by (rewrite Hr; by destruct st1).
  destruct (completion _);
    (destruct H1 as [H1|[Hl H1]]; [left|right; split; [exact Hl|]];
     rewrite <- H1, <- H3; by destruct st3).
Qed.

Lemma live_view_inv st st' :
  App.live_view st' = App.live_view st ->
  (App.ref_open st /\ App.disconnects_fulfilled st ->
   App.ref_open st' /\ App.disconnects_fulfilled st')
  /\ (App.live_in_step st -> App.live_in_step st').
Proof.
  unfold App.live_view, App.ref_open, App.disconnects_fulfilled, App.live_in_step.
  intros [= Hv Hs Hl Hr Hd Ha]. by rewrite Hv, Hs, Hl, Hr, Hd, Ha.
Qed.

Lemma stopLiveMode_inv st :
  App.ref_open st /\ App.disconnects_fulfilled st ->
  App.ref_open (App.stopLiveMode st)
  /\ App.disconnects_fulfilled (App.stopLiveMode st).
Proof.
  unfold App.ref_open, App.disconnects_fulfilled, App.stopLiveMode.
  intros [Hopen Hdis]. destruct st as [? ? ? ? ? ? ? ? ? ? ? ? [live|] ? ?];
    cbn in *; [|done].
  split; [done|]. apply Forall_app. split; [exact Hdis|].
  constructor; [|constructor]. destruct (Hopen live eq_refl) as [Hi Ho].
  by apply disconnect_running.
Qed.

Lemma stopLiveMode_in_step st :
  App.abandoned st = [] ->
  (App.video st = None -> App.summary_text (App.summary st) = None) ->
  App.live_in_step (App.stopLiveMode st).
Proof.
  unfold App.live_in_step, App.stopLiveMode. intros Ha Hv.
  destruct st as [? ? ? ? ? ? ? ? ? ? ? ? [live|] ? ?]; cbn in *;
    (split; [exact Ha|]); (split; [|by auto]);
    (split; [discriminate|by intros [? [=]]]).
Qed.

Lemma step_keeps_disconnects a st :
  App.ref_open st /\ App.disconnects_fulfilled st ->
  App.ref_open (App.step a st) /\ App.disconnects_fulfilled (App.step a st).
Proof.
  intros Hinv.
  destruct a as [v|env now| | |tab|value|voice| |env o n1 n2 n3 n4| | | |e];
    cbn [App.step].
  - unfold App.handleVideoSelected, App.ref_open, App.disconnects_fulfilled in *.
    by destruct st.
  - destruct (handleAnalyze_live_view env now st) as (_ & _ & Hr & Hd & _).
    unfold App.ref_open, App.disconnects_fulfilled in *. by rewrite Hr, Hd.
  - unfold App.handleHome.
    apply stopLiveMode_inv.
    unfold App.ref_open, App.disconnects_fulfilled, App.stopChatAudio in *.
    destruct st as [? ? ? ? ? ? ? ? ? ? [src|] ? ? ? ?]; exact Hinv.
  - unfold App.ref_open, App.disconnects_fulfilled, App.toggleLanguage in *.
    by destruct st.
  - unfold App.ref_open, App.disconnects_fulfilled in *. by destruct st.
  - unfold App.ref_open, App.disconnects_fulfilled in *. by destruct st.
  - unfold App.ref_open, App.disconnects_fulfilled in *. by destruct st.
  - by apply (live_view_inv st); [apply stopChatAudio_live_view|].
  - destruct (handleSendMessage_live_view env o n1 n2 n3 n4 st) as [H|[_ H]].
    + by apply (live_view_inv st).
    + apply (live_view_inv (App.stopLiveMode st)); [exact H|].
      by apply stopLiveMode_inv.
  - unfold App.toggleLiveMode. destruct (App.isLiveMode st).
    + by apply stopLiveMode_inv.
    + unfold App.startLiveMode.
      destruct (truthy (App.summary_text (App.summary st))) as [text|]; [|done].
      unfold App.ref_open, App.disconnects_fulfilled, App.stopChatAudio in *.
      destruct Hinv as [Hopen Hdis].
      destruct st as [? ? ? ? ? ? ? ? ? ? [src|] ? [live|] ? ?]; cbn in *;
        (split; [by intros ? [= <-]|exact Hdis]).
  - by apply stopLiveMode_inv.
  - by apply stopLiveMode_inv.
  - destruct (App.liveSessionRef st) as [live|] eqn:Hlive; [|done].
    destruct (App.is_callback e) eqn:He; [|done].
    unfold App.ref_open, App.disconnects_fulfilled in *.
    destruct Hinv as [Hopen Hdis]. destruct (Hopen live Hlive) as [Hi Ho].
    destruct (callback_keeps_contexts e live He) as [Hi' Ho'].
    destruct st; cbn in *. split; [|exact Hdis].
    intros ? [= <-]. by rewrite Hi', Ho'.
Qed.

(** X17. The component never disconnects a session twice: in every run
    of its handlers and of the callbacks of the session, from the first
    render on, every call of [disconnect] is fulfilled and leaves the
    session without processor and source and with both contexts closed,
    and the session that the ref holds has not been disconnected. *)
Theorem component_disconnects_each_session_once :
  forall actions : list App.action,
    let st := App.run actions App.initial in
    Forall (fun d => fst d = Ok tt /\ App.released_all (snd d))
           (App.disconnected st)
    /\ forall live, App.liveSessionRef st = Some live ->
         inputContext live = Running /\ outputContext live = Running.
Proof.
  intros actions st.
  cut (App.ref_open st /\ App.disconnects_fulfilled st).
  { intros [Hopen Hdis]. by split. }
  subst st. unfold App.run.
  assert (Hinit : App.ref_open App.initial /\ App.disconnects_fulfilled App.initial).
  { split; [intros live [=]|constructor]. }
  revert Hinit. generalize App.initial.
  induction actions as [|a actions IH]; intros st Hst; [exact Hst|].
  cbn [fold_left]. apply IH. by apply step_keeps_disconnects.
Qed.

Lemma step_keeps_in_step a st :
  match a with
  | App.VideoSelected _ => App.video st = None
  | _ => True
  end ->
  App.live_in_step st -> App.live_in_step (App.step a st).
Proof.
  intros Hguard Hinv.
  assert (Hstop : App.live_in_step (App.stopLiveMode st)).
  { destruct Hinv as (Ha & _ & Hv). apply stopLiveMode_in_step; [exact Ha|].
    intros H. by apply Hv. }
  destruct a as [v|env now| | |tab|value|voice| |env o n1 n2 n3 n4| | | |e];
    cbn [App.step].
  - destruct Hinv as (Ha & Hl & Hv). destruct (Hv Hguard) as [_ Hr].
    unfold App.live_in_step, App.handleVideoSelected.
    destruct st; cbn in *. subst. split; [done|]. split; [|done].
    split; [discriminate|by intros [? [=]]].
  - destruct (handleAnalyze_live_view env now st) as (Hv' & Hl' & Hr' & _ & Ha' & Hid).
    destruct (App.video st) as [v|] eqn:Hv; [|by rewrite Hid].
    destruct Hinv as (Ha & Hl & _). unfold App.live_in_step.
    rewrite Ha', Hl', Hr', Hv'. split; [exact Ha|]. split; [exact Hl|done].
  - unfold App.handleHome. apply stopLiveMode_in_step.
    + destruct Hinv as (Ha & _). unfold App.stopChatAudio.
      by destruct st as [? ? ? ? ? ? ? ? ? ? [src|] ? ? ? ?].
    + intros _. unfold App.stopChatAudio.
      by destruct st as [? ? ? ? ? ? ? ? ? ? [src|] ? ? ? ?].
  - unfold App.live_in_step, App.toggleLanguage in *. by destruct st.
  - unfold App.live_in_step in *. by destruct st.
  - unfold App.live_in_step in *. by destruct st.
  - unfold App.live_in_step in *. by destruct st.
  - by apply (live_view_inv st); [apply stopChatAudio_live_view|].
  - destruct (handleSendMessage_live_view env o n1 n2 n3 n4 st) as [H|[_ H]].
    + by apply (live_view_inv st).
    + by apply (live_view_inv (App.stopLiveMode st)).
  - unfold App.toggleLiveMode. destruct (App.isLiveMode st) eqn:Hlive; [exact Hstop|].
    unfold App.startLiveMode.
    destruct (truthy (App.summary_text (App.summary st))) as [text|] eqn:Ht;
      [|done].
    destruct Hinv as (Ha & Hl & Hv).
    assert (Hr : App.liveSessionRef st = None).
    { destruct (App.liveSessionRef st) as [live|]; [|done].
      assert (Hsome : is_Some (Some live)) by by eexists.
      apply Hl in Hsome. congruence. }
    assert (Hvideo : App.video st <> None).
    { intros Hnone. destruct (Hv Hnone) as [Hs _]. rewrite Hs in Ht. discriminate. }
    unfold App.live_in_step, App.stopChatAudio.
    destruct st as [? ? ? ? ? ? ? ? ? ? [src|] ? ? ? ?]; cbn in *; subst;
      (split; [done|]); (split; [by split; [eexists|]|done]).
  - exact Hstop.
  - exact Hstop.
  - destruct (App.liveSessionRef st) as [live|] eqn:Hlive; [|done].
    destruct (App.is_callback e); [|done].
    destruct Hinv as (Ha & Hl & Hv). unfold App.live_in_step.
    destruct st; cbn in *. subst. split; [done|]. split.
    + split; [by eexists|]. intros _. apply Hl. by eexists.
    + intros Hnone. by destruct (Hv Hnone).
Qed.

(** X18. As long as a video is selected only while none is loaded,
    which is when [VideoInput] is rendered, the flag of the live mode and
    the ref agree and no session is left behind: at every point of a run
    from the first render on, [isLiveMode] is true exactly when the ref
    holds a session, and no session has had its reference overwritten
    without being disconnected. *)
Theorem component_leaves_no_session_behind :
  forall actions : list App.action,
    App.as_rendered actions App.initial ->
    let st := App.run actions App.initial in
    App.abandoned st = []
    /\ (App.isLiveMode st = true <-> is_Some (App.liveSessionRef st)).
Proof.
  intros actions Hguard st.
  cut (App.live_in_step st).
  { intros (Ha & Hl & _). by split. }
  subst st. unfold App.run.
  assert (Hinit : App.live_in_step App.initial).
  { split; [done|]. split; [|done]. split; [discriminate|by intros [? [=]]]. }
  revert Hguard Hinit. generalize App.initial.
  induction actions as [|a actions IH]; intros st Hguard Hst; [exact Hst|].
  cbn [fold_left]. destruct Hguard as [Ha Hrest].
  apply IH; [exact Hrest|]. by apply step_keeps_in_step.
Qed.

Lemma component_leaves_no_session_behind_witness :
  let file := {| file_name := "clip.mp4"; file_type := "video/mp4";
                 file_bytes := [x00; x01] |} in
  let v := {| App.video_file := Some file; App.video_url := None;
              App.video_name := "clip.mp4"; App.video_type := "video/mp4";
              App.video_size := 2 |} in
  let env :=
    {| App.platform :=
         {| exception_message := fun _ => ""%string;
            generateContent :=
              fun _ => inr {| response_text := Some "A clip."%string;
                              candidates := None |};
            chats_create := fun _ _ _ => inl (Rejection None) |};
       App.API_KEY := Some "key"%string;
       App.reader := readAsDataURL;
       App.trim := fun s => s |} in
  let st :=
    App.run [App.VideoSelected v; App.Analyze env 0; App.ToggleLiveMode;
             App.Callback (EvOpen (Ok MicrophoneStream)); App.Home;
             App.VideoSelected v; App.Analyze env 1; App.ToggleLiveMode]
            App.initial in
  App.abandoned st = []
  /\ (App.isLiveMode st = true <-> is_Some (App.liveSessionRef st)).
Proof.
  intros file v env.
  apply (component_leaves_no_session_behind
           [App.VideoSelected v; App.Analyze env 0; App.ToggleLiveMode;
            App.Callback (EvOpen (Ok MicrophoneStream)); App.Home;
            App.VideoSelected v; App.Analyze env 1; App.ToggleLiveMode]).
  cbn [App.as_rendered]. repeat split.
Defined.

(** Without that condition a session can be left behind: selecting a
    video while a session is live turns the flag off and keeps the
    session, and the next start overwrites the ref. *)
Lemma selecting_during_live_mode_leaves_the_session :
  let file := {| file_name := "clip.mp4"; file_type := "video/mp4";
                 file_bytes := [x00; x01] |} in
  let v := {| App.video_file := Some file; App.video_url := None;
              App.video_name := "clip.mp4"; App.video_type := "video/mp4";
              App.video_size := 2 |} in
  let env :=
    {| App.platform :=
         {| exception_message := fun _ => ""%string;
            generateContent :=
              fun _ => inr {| response_text := Some "A clip."%string;
                              candidates := None |};
            chats_create := fun _ _ _ => inl (Rejection None) |};
       App.API_KEY := Some "key"%string;
       App.reader := readAsDataURL;
       App.trim := fun s => s |} in
  let st :=
    App.run [App.VideoSelected v; App.Analyze env 0; App.ToggleLiveMode;
             App.VideoSelected v; App.Analyze env 1; App.ToggleLiveMode]
            App.initial in
  App.abandoned st = [constructor "Puck" "A clip." en]
  /\ App.disconnected st = [].
Proof. by vm_compute. Qed.

(* ===================================================================== *)
(** * Selecting a video *)
(* ===================================================================== *)

Lemma startsWith_not_empty s searchString :
  searchString <> ""%string -> startsWith s searchString = true -> s <> ""%string.
Proof.
  intros Hne H ->. unfold startsWith in H.
  destruct searchString; [done|discriminate].
Qed.

Lemma or_else_Some_id s : s <> ""%string -> or_else (Some s) "video/mp4" = s.
Proof. by destruct s. Qed.

(** X19. A download passes the check of the type by default: when the
    URL names no YouTube host and the fetch succeeds, [handleUrlSubmit]
    selects a blob that declares no type as a [video/mp4], whatever its
    bytes, if it has at most 2 GiB. In any case a video that it selects
    has a type that starts with [video/] and at most 2 GiB, so that
    the default of the type in [analyzeVideo] does not apply to it. *)
Theorem download_without_type_is_selected :
  forall (platform : Platform) (describe : thrown -> string)
         (t : VideoInput.Translation) (objectUrl urlInput : string)
         (blob : ResponseBody),
    urlInput <> ""%string ->
    includes urlInput "youtube.com" = false ->
    includes urlInput "youtu.be" = false ->
    let result :=
      VideoInput.handleUrlSubmit platform describe t objectUrl urlInput
        (Resolves {| ok := true; response_blob := Resolves blob |}) in
    let size := Z.of_nat (length (blob_bytes blob)) in
    (blob_type blob = ""%string -> size <= 2147483648 ->
     result = Some (VideoInput.Selected
       {| App.video_file := Some {| file_name := "video-from-url.mp4";
                                    file_type := "video/mp4";
                                    file_bytes := blob_bytes blob |};
          App.video_url := Some objectUrl;
          App.video_name := "video-from-url.mp4";
          App.video_type := "video/mp4";
          App.video_size := size |}))
    /\ (forall video, result = Some (VideoInput.Selected video) ->
          startsWith (App.video_type video) "video/" = true
          /\ App.video_size video = size /\ size <= 2147483648
          /\ App.video_type video = or_else (Some (blob_type blob)) "video/mp4"
          /\ or_else (Some (App.video_type video)) "video/mp4"
             = App.video_type video).
Proof.
  intros platform describe t objectUrl urlInput blob Hurl Hy1 Hy2 result size.
  subst result. unfold VideoInput.handleUrlSubmit.
  destruct (truthy (Some urlInput)) as [u|] eqn:Hu.
  2:{ apply truthy_None in Hu as [Hu|Hu]; [discriminate|]. by injection Hu. }
  rewrite Hy1, Hy2. cbn [orb urlToFile ok negb response_blob Resolves].
  unfold VideoInput.handleFile, file_size. cbn [file_type file_bytes file_name].
  fold size. split.
  - intros Htype Hsize. rewrite Htype. cbn [or_else truthy].
    change (negb (startsWith "video/mp4" "video/")) with false. cbn match.
    assert (Hlim : (2 * 1024 * 1024 * 1024 <? size) = false)
      by (apply Z.ltb_ge; lia).
    by rewrite Hlim.
  - intros video.
    destruct (startsWith (or_else (Some (blob_type blob)) "video/mp4") "video/")
      eqn:Hstart; cbn [negb]; [|discriminate].
    destruct (2 * 1024 * 1024 * 1024 <? size) eqn:Hlim; [discriminate|].
    intros [= <-]. cbn [App.video_type App.video_size].
    apply Z.ltb_ge in Hlim.
    split; [exact Hstart|]. split; [reflexivity|]. split; [lia|].
    split; [reflexivity|].
    apply or_else_Some_id. by apply (startsWith_not_empty _ "video/").
Qed.

Lemma download_without_type_is_selected_witness :
  let platform :=
    {| exception_message := fun _ => ""%string;
       generateContent := fun _ => inl (Rejection None);
       chats_create := fun _ _ _ => inl (Rejection None) |} in
  let t := {| VideoInput.validFileErr := "Please select a video file.";
              VideoInput.fileSizeLimit := "The file is too large.";
              VideoInput.youtubeErr := "YouTube links are not supported.";
              VideoInput.failedToFetch := "Failed to fetch." |} in
  VideoInput.handleUrlSubmit platform (fun _ => ""%string) t "blob:1"
    "https://example.org/page.html"
    (Resolves {| ok := true;
                 response_blob := Resolves {| blob_type := "";
                                              blob_bytes := [x3c; x68] |} |})
  = Some (VideoInput.Selected
       {| App.video_file := Some {| file_name := "video-from-url.mp4";
                                    file_type := "video/mp4";
                                    file_bytes := [x3c; x68] |};
          App.video_url := Some "blob:1"%string;
          App.video_name := "video-from-url.mp4";
          App.video_type := "video/mp4";
          App.video_size := 2 |}).
Proof.
  intros platform t.
  apply (download_without_type_is_selected platform (fun _ => ""%string) t
           "blob:1" "https://example.org/page.html"
           {| blob_type := ""; blob_bytes := [x3c; x68] |}).
  - discriminate.
  - reflexivity.
  - reflexivity.
  - reflexivity.
  - cbn. lia.
Defined.

(* ===================================================================== *)
(** * The transcript of the chat *)
(* ===================================================================== *)

Lemma with_text_keeps responseId text m :
  App.msg_id (App.with_text responseId text m) = App.msg_id m
  /\ App.msg_role (App.with_text responseId text m) = App.msg_role m.
Proof. unfold App.with_text. by destruct (String.eqb _ _). Qed.

Lemma exchanges_with_text responseId text ms :
  App.exchanges ms -> App.exchanges (map (App.with_text responseId text) ms).
Proof.
  induction ms as [|question|question reply rest IH] using list_ind2; [done|done|].
  cbn [map App.exchanges]. intros (Hq & Hr & Hrest).
  destruct (with_text_keeps responseId text question) as [_ ->].
  destruct (with_text_keeps responseId text reply) as [_ ->]. auto.
Qed.

Lemma exchanges_app ms question reply :
  App.exchanges ms ->
  App.msg_role question = App.role_user ->
  App.msg_role reply = App.role_model ->
  App.exchanges (ms ++ [question; reply]).
Proof.
  intros Hms Hq Hr.
  induction ms as [|m|m1 m2 rest IH] using list_ind2; [by cbn|done|].
  cbn [app App.exchanges] in *. destruct Hms as (H1 & H2 & Hrest). auto.
Qed.

(** The shape of a transcript of a state with a chat session. *)
Lemma transcript_with_text responseId text ms :
  (exists greeting rest,
      ms = greeting :: rest /\ App.msg_id greeting = "init"%string
      /\ App.msg_role greeting = App.role_model /\ App.exchanges rest) ->
  exists greeting rest,
    map (App.with_text responseId text) ms = greeting :: rest
    /\ App.msg_id greeting = "init"%string
    /\ App.msg_role greeting = App.role_model /\ App.exchanges rest.
Proof.
  intros (greeting & rest & -> & Hid & Hrole & Hrest).
  destruct (with_text_keeps responseId text greeting) as [Hid' Hrole'].
  eexists _, _. split; [reflexivity|]. rewrite Hid', Hrole'.
  split; [exact Hid|]. split; [exact Hrole|]. by apply exchanges_with_text.
Qed.

Lemma receive_transcript responseId yields acc st :
  (exists greeting rest,
      App.messages st = greeting :: rest /\ App.msg_id greeting = "init"%string
      /\ App.msg_role greeting = App.role_model /\ App.exchanges rest) ->
  App.chatSession (App.receive responseId yields acc st) = App.chatSession st
  /\ exists greeting rest,
       App.messages (App.receive responseId yields acc st) = greeting :: rest
       /\ App.msg_id greeting = "init"%string
       /\ App.msg_role greeting = App.role_model /\ App.exchanges rest.
Proof.
  revert acc st. induction yields as [|chunk rest IH]; intros acc st Hst; [by split|].
  cbn [App.receive].
  destruct (IH (acc ++ chunk)%string
              (App.set_messages
                 (map (App.with_text responseId (acc ++ chunk)) (App.messages st)) st))
    as [Hc Hm].
  - cbn [App.messages App.set_messages]. by apply transcript_with_text.
  - split; [|exact Hm]. rewrite Hc. by destruct st.
Qed.

Lemma step_keeps_transcript a st :
  App.transcript_in_order st -> App.transcript_in_order (App.step a st).
Proof.
  unfold App.transcript_in_order. intros Hinv.
  destruct a as [v|env now| | |tab|value|voice| |env o n1 n2 n3 n4| | | |e];
    cbn [App.step].
  - by destruct st.
  - unfold App.handleAnalyze, App.analysis_failed.
    destruct (App.video st) as [v|]; [|exact Hinv].
    destruct (App.video_file v) as [file|]; [|exact Hinv].
    destruct (truthy (App.API_KEY env)); [|by destruct st].
    destruct (fileToBase64 (App.reader env file)) as [error|[base64Data|]];
      [by destruct st| |by destruct st].
    destruct (fst (analyzeVideo _ _ _ _)); [by destruct st|].
    destruct (createChatSession _ _ _ _) as [chatErr|session]; [by destruct st|].
    cbn. eexists _, _. split; [reflexivity|]. by cbn.
  - unfold App.handleHome, App.stopLiveMode, App.stopChatAudio.
    by destruct st as [? ? ? ? ? ? ? ? ? ? [src|] ? [live|] ? ?].
  - by destruct st.
  - by destruct st.
  - by destruct st.
  - by destruct st.
  - unfold App.stopChatAudio. by destruct st as [? ? ? ? ? ? ? ? ? ? [src|] ? ? ? ?].
  - unfold App.handleSendMessage.
    destruct (truthy (Some (App.trim env _))); [|exact Hinv].
    destruct (App.chatSession st) as [chat|] eqn:Hchat; [|by rewrite Hchat].
    set (st1 := if App.isLiveMode (App.stopChatAudio st)
                then App.stopLiveMode (App.stopChatAudio st)
                else App.stopChatAudio st).
    assert (H1 : App.messages st1 = App.messages st
                 /\ App.chatSession st1 = App.chatSession st).
    { subst st1. destruct st as [? ? ? ? ? ? ? ? ? ? src live ref ? ?].
      unfold App.stopChatAudio, App.stopLiveMode. cbn.
      destruct src, live, ref; by cbn. }
    destruct H1 as [Hm1 Hc1].
    match goal with
    | |- context [App.receive ?id ?ys ?acc ?s] =>
        destruct (receive_transcript id ys acc s) as [Hc Hm];
        [|set (st3 := App.receive id ys acc s) in *]
    end.
    + cbn [App.messages App.set_messages App.set_isChatLoading
             App.set_inputMessage]. rewrite Hm1.
      destruct Hinv as (greeting & rest & -> & Hid & Hrole & Hrest).
      exists greeting. eexists. rewrite <- !app_assoc. cbn [app].
      split; [reflexivity|]. split; [exact Hid|]. split; [exact Hrole|].
      by apply exchanges_app.
    + assert (Hc3 : App.chatSession st3 = Some chat).
      { rewrite Hc. cbn. by rewrite Hc1. }
      destruct (completion _).
      * cbn [App.chatSession App.set_isChatLoading App.set_messages App.messages].
        rewrite Hc3. by apply transcript_with_text.
      * cbn [App.chatSession App.set_isChatLoading App.messages]. by rewrite Hc3.
  - unfold App.toggleLiveMode, App.stopLiveMode, App.startLiveMode, App.stopChatAudio.
    destruct (App.isLiveMode st).
    + by destruct st as [? ? ? ? ? ? ? ? ? ? ? ? [live|] ? ?].
    + destruct (truthy (App.summary_text (App.summary st))); [|exact Hinv].
      by destruct st as [? ? ? ? ? ? ? ? ? ? [src|] ? [live|] ? ?].
  - unfold App.stopLiveMode. by destruct st as [? ? ? ? ? ? ? ? ? ? ? ? [live|] ? ?].
  - unfold App.stopLiveMode. by destruct st as [? ? ? ? ? ? ? ? ? ? ? ? [live|] ? ?].
  - destruct (App.liveSessionRef st) as [live|]; [|exact Hinv].
    destruct (App.is_callback e); [|exact Hinv]. by destruct st.
Qed.

(** X20. The transcript keeps its order: in every run of the handlers
    from the first render on there is no message while there is no chat
    session, and with a chat session the transcript is the greeting of
    the model with the identifier ["init"], followed by messages of the
    user each followed by one message of the model, whatever the
    identifiers of the messages and whatever the streams did. *)
Theorem transcript_keeps_its_order :
  forall actions : list App.action,
    let st := App.run actions App.initial in
    match App.chatSession st with
    | None => App.messages st = []
    | Some _ =>
        exists greeting rest,
          App.messages st = greeting :: rest
          /\ App.msg_id greeting = "init"%string
          /\ App.msg_role greeting = App.role_model
          /\ App.exchanges rest
    end.
Proof.
  intros actions st. change (App.transcript_in_order st).
  subst st. unfold App.run.
  assert (Hinit : App.transcript_in_order App.initial) by reflexivity.
  revert Hinit. generalize App.initial.
  induction actions as [|a actions IH]; intros st Hst; [exact Hst|].
  cbn [fold_left]. apply IH. by apply step_keeps_transcript.
Qed.

(* ===================================================================== *)
(** * What is released, and how often *)
(* ===================================================================== *)

Lemma handle_keeps_contexts_in_step e s :
  contexts_in_step s -> contexts_in_step (exec (handle e) s).
Proof.
  unfold contexts_in_step, times_released.
  destruct (App.is_callback e) eqn:Hcb.
  2:{ destruct e; try discriminate. destruct s. cbn. unfold disconnect, AudioContext_close. unfold_M. cbn.
    intros ([(-> & -> & Hi & Ho)|(-> & -> & Hi & Ho)] & Hs & Hc);
      destruct processor0, inputSource0; cbn;
      rewrite ?List.filter_app, ?length_app; cbn; rewrite ?Hi, ?Ho, ?Hs, ?Hc;
      cbn; tauto. }
  - destruct (callback_keeps_contexts e s Hcb) as [-> ->].
    assert (Hrel : released (exec (handle e) s) = released s).
    { destruct e as [r| | |inputData|currentTime message|];
        [| | | | |discriminate]; unfold handle.
      - unfold onOpen. unfold_M. by destruct r.
      - unfold session_fulfil. unfold_M. cbn. by destruct (session s).
      - unfold session_reject. unfold_M. cbn. by destruct (session s).
      - unfold onaudioprocess, session_then_send. unfold_M. cbn.
        destruct (processor s); [|done]. by destruct (session s).
      - unfold onMessage.
        destruct (truthy (inline_audio message)) as [payload|]; [|done].
        unfold_M. destruct (decode_payload payload) as [e|buffer]; [done|].
        cbn [nextStartTime set_nextStartTime]. unfold source_start.
        destruct (Math_max (Fin currentTime) (nextStartTime s)) as [t| | |];
          try done.
        by destruct (Qle_bool 0 t). }
    by rewrite Hrel.
Qed.

(** X21. In every run from the construction on, whatever is called and
    how often, the two audio contexts are closed together and each is
    released at most once, exactly when it is closed; and nothing ever
    stops the capture stream or closes the connection. *)
Theorem contexts_released_once_stream_never :
  forall (voice context : string) (lang : Language) (es : list event),
    let s := run es (constructor voice context lang) in
    ((inputContext s = Running /\ outputContext s = Running
      /\ times_released InputAudioContext s = 0%nat
      /\ times_released OutputAudioContext s = 0%nat)
     \/ (inputContext s = Closed /\ outputContext s = Closed
         /\ times_released InputAudioContext s = 1%nat
         /\ times_released OutputAudioContext s = 1%nat))
    /\ times_released CaptureStream s = 0%nat
    /\ times_released Connection s = 0%nat.
Proof.
  intros voice context lang es s. change (contexts_in_step s). subst s.
  assert (Hinit : contexts_in_step (constructor voice context lang)).
  { split; [left|]; by repeat split. }
  revert Hinit. generalize (constructor voice context lang). unfold run.
  induction es as [|e es IH]; intros s Hs; [exact Hs|].
  cbn [fold_left]. apply IH. by apply handle_keeps_contexts_in_step.
Qed.
